(** * libdebug: the ptrace backend (libdebug/cffi/ptrace_cffi_source.c)

    A shallow embedding of the C core of the debugger backend: the thread
    table, the software breakpoint table and the run/stop engine built on
    ptrace(2) and waitpid(2).

    The kernel and the tracee are the environment of this code.  They are
    kept abstract: a [Kernel] is any state type with one transition function
    per system call the source issues.  Every call made by the code is also
    appended, with its result, to a chronological [trace], which is what a
    mock of the tracing facade would observe.

    The two per-architecture macros INSTRUCTION_POINTER and
    INSTALL_BREAKPOINT are not defined in the C file (the build script
    prepends them); they are the fields of [Arch]. *)

From Stdlib Require Import ZArith List Bool Lia.
Import ListNotations.
Open Scope Z_scope.

Set Implicit Arguments.

(* ================================================================== *)
(** ** Machine integers and constants *)

(** [uint64_t] conversion of a [long] result: the value modulo 2^64. *)
Definition uint64 (z : Z) : Z := z mod 2 ^ 64.

(** [count++] on an [int]: two's complement wrap-around to the signed
    32-bit range (the C standard leaves the overflow undefined). *)
Definition INT_MIN : Z := - 2 ^ 31.
Definition INT_MAX : Z := 2 ^ 31 - 1.
Definition int_wrap (z : Z) : Z := (z + 2 ^ 31) mod 2 ^ 32 - 2 ^ 31.

Definition SIGSTOP : Z := 19.
Definition WNOHANG : Z := 1.
Definition __WALL : Z := 0x40000000.

(** The literal the source compares a wait status with:
    WIFSTOPPED(status) && WSTOPSIG(status) == SIGSTOP. *)
Definition STOPPED_BY_SIGSTOP : Z := 4991.

(* ================================================================== *)
(** ** Architecture adapter and kernel interface *)

Class Arch : Type := {
  (** [struct user_regs_struct], opaque to the core *)
  user_regs_struct : Type;
  (** macro INSTRUCTION_POINTER(regs) *)
  INSTRUCTION_POINTER : user_regs_struct -> Z;
  (** macro INSTALL_BREAKPOINT(instruction), on 64-bit words *)
  INSTALL_BREAKPOINT : Z -> Z
}.

(** One transition function per system call.  The first component of a
    result is what the call returns to the tracer.
    - GETREGS: [Some r] when the call succeeds and fills the buffer with
      [r]; [None] when it returns -1 and leaves the buffer alone.
    - waitpid: the returned pid and, when the kernel wrote it, the status. *)
Class Kernel (regs : Type) : Type := {
  kstate : Type;
  sys_setregs : Z -> regs -> kstate -> Z * kstate;
  sys_getregs : Z -> kstate -> option regs * kstate;
  sys_singlestep : Z -> kstate -> Z * kstate;
  sys_cont : Z -> kstate -> Z * kstate;
  sys_peekdata : Z -> Z -> kstate -> Z * kstate;
  sys_pokedata : Z -> Z -> Z -> kstate -> Z * kstate;
  sys_waitpid : Z -> Z -> kstate -> (Z * option Z) * kstate;
  sys_tgkill : Z -> Z -> Z -> kstate -> Z * kstate
}.

(* ================================================================== *)
(** ** Data model *)

Section Model.

Context {A : Arch} {K : Kernel user_regs_struct}.

(** [struct thread]; the [next] pointer is the list structure. *)
Record thread : Type := mk_thread {
  tid : Z;
  regs : user_regs_struct
}.

(** [struct software_breakpoint]. *)
Record software_breakpoint : Type := mk_bp {
  addr : Z;
  instruction : Z;
  patched_instruction : Z;
  enabled : bool
}.

(** [struct thread_status]. *)
Record thread_status : Type := mk_status {
  ts_tid : Z;
  ts_status : Z
}.

(** A system call as seen from outside, with its result. *)
Inductive event : Type :=
| SetRegs (t : Z) (r : user_regs_struct) (ret : Z)
| GetRegs (t : Z) (res : option user_regs_struct)
| SingleStep (t : Z) (ret : Z)
| Continue (t : Z) (ret : Z)
| PeekData (pid a : Z) (ret : Z)
| PokeData (pid a data : Z) (ret : Z)
| Waitpid (pid options : Z) (ret : Z) (status : option Z)
| Tgkill (pid t sig : Z) (ret : Z).

(** Kernel state together with the calls issued so far, oldest first. *)
Record sys : Type := mk_sys {
  kern : kstate;
  trace : list event
}.

(** The tracer's globals [t_HEAD] and [b_HEAD] and its environment. *)
Record world : Type := mk_world {
  os : sys;
  t_HEAD : list thread;
  b_HEAD : list software_breakpoint
}.

(* ------------------------------------------------------------------ *)
(** ** System calls *)

Definition ptrace_setregs (t : Z) (r : user_regs_struct) (s : sys) : Z * sys :=
  let res := sys_setregs t r (kern s) in
  (fst res, mk_sys (snd res) (trace s ++ [SetRegs t r (fst res)])).

Definition ptrace_getregs (t : Z) (s : sys) : option user_regs_struct * sys :=
  let res := sys_getregs t (kern s) in
  (fst res, mk_sys (snd res) (trace s ++ [GetRegs t (fst res)])).

Definition ptrace_singlestep (t : Z) (s : sys) : Z * sys :=
  let res := sys_singlestep t (kern s) in
  (fst res, mk_sys (snd res) (trace s ++ [SingleStep t (fst res)])).

Definition ptrace_cont (t : Z) (s : sys) : Z * sys :=
  let res := sys_cont t (kern s) in
  (fst res, mk_sys (snd res) (trace s ++ [Continue t (fst res)])).

Definition ptrace_peekdata (pid a : Z) (s : sys) : Z * sys :=
  let res := sys_peekdata pid a (kern s) in
  (fst res, mk_sys (snd res) (trace s ++ [PeekData pid a (fst res)])).

Definition ptrace_pokedata (pid a data : Z) (s : sys) : Z * sys :=
  let res := sys_pokedata pid a data (kern s) in
  (fst res, mk_sys (snd res) (trace s ++ [PokeData pid a data (fst res)])).

Definition waitpid (pid options : Z) (s : sys) : (Z * option Z) * sys :=
  let res := sys_waitpid pid options (kern s) in
  (fst res,
   mk_sys (snd res)
          (trace s ++ [Waitpid pid options (fst (fst res)) (snd (fst res))])).

Definition tgkill (pid t sig : Z) (s : sys) : Z * sys :=
  let res := sys_tgkill pid t sig (kern s) in
  (fst res, mk_sys (snd res) (trace s ++ [Tgkill pid t sig (fst res)])).

(** [waitpid(pid, &status, options)]: the status object keeps its old
    content when the kernel does not write it. *)
Definition stored (old : Z) (written : option Z) : Z :=
  match written with Some v => v | None => old end.

(** [ptrace(PTRACE_GETREGS, tid, NULL, &t->regs)] on a table node. *)
Definition refreshed (t : thread) (res : option user_regs_struct) : thread :=
  match res with
  | Some r => mk_thread (tid t) r
  | None => t
  end.

(* ------------------------------------------------------------------ *)
(** ** Thread table *)

Definition has_tid (x : Z) (t : thread) : bool := tid t =? x.

(** [register_thread]: an already registered tid is left alone; otherwise
    a node is allocated, filled by GETREGS and pushed at the head.
    [fresh] is the content of the newly allocated [regs] buffer. *)
Definition register_thread (fresh : user_regs_struct) (x : Z) (w : world)
  : world :=
  if existsb (has_tid x) (t_HEAD w) then w
  else
    let '(res, s1) := ptrace_getregs x (os w) in
    mk_world s1 (refreshed (mk_thread x fresh) res :: t_HEAD w) (b_HEAD w).

(** [unregister_thread]: unlink the first node with that tid. *)
Fixpoint unlink_thread (x : Z) (ts : list thread) : list thread :=
  match ts with
  | [] => []
  | t :: ts' => if tid t =? x then ts' else t :: unlink_thread x ts'
  end.

Definition unregister_thread (x : Z) (w : world) : world :=
  mk_world (os w) (unlink_thread x (t_HEAD w)) (b_HEAD w).

Definition free_thread_list (w : world) : world :=
  mk_world (os w) [] (b_HEAD w).

(* ------------------------------------------------------------------ *)
(** ** Breakpoint table *)

Definition set_enabled (e : bool) (b : software_breakpoint)
  : software_breakpoint :=
  mk_bp (addr b) (instruction b) (patched_instruction b) e.

(** The search loop of [register_breakpoint]: the first record at
    [address] gets [enabled = 1]; [None] when the loop falls through. *)
Fixpoint enable_existing (address : Z) (bs : list software_breakpoint)
  : option (list software_breakpoint) :=
  match bs with
  | [] => None
  | b :: bs' =>
      if addr b =? address then Some (set_enabled true b :: bs')
      else match enable_existing address bs' with
           | Some bs'' => Some (b :: bs'')
           | None => None
           end
  end.

Definition register_breakpoint (pid address : Z) (w : world) : world :=
  let '(peeked, s1) := ptrace_peekdata pid address (os w) in
  let instruction := uint64 peeked in
  let patched_instruction := INSTALL_BREAKPOINT instruction in
  let '(_, s2) := ptrace_pokedata pid address patched_instruction s1 in
  match enable_existing address (b_HEAD w) with
  | Some bs => mk_world s2 (t_HEAD w) bs
  | None =>
      mk_world s2 (t_HEAD w)
               (mk_bp address instruction patched_instruction true :: b_HEAD w)
  end.

(** [unregister_breakpoint]: unlink the first record at [address]. *)
Fixpoint unlink_breakpoint (address : Z) (bs : list software_breakpoint)
  : list software_breakpoint :=
  match bs with
  | [] => []
  | b :: bs' =>
      if addr b =? address then bs' else b :: unlink_breakpoint address bs'
  end.

Definition unregister_breakpoint (address : Z) (w : world) : world :=
  mk_world (os w) (t_HEAD w) (unlink_breakpoint address (b_HEAD w)).

(** The loop of [disable_breakpoint]: at the first record at [address],
    clear [enabled], poke the record's [patched_instruction], return. *)
Fixpoint disable_search (pid address : Z) (bs : list software_breakpoint)
  (s : sys) : list software_breakpoint * sys :=
  match bs with
  | [] => ([], s)
  | b :: bs' =>
      if addr b =? address then
        let '(_, s1) := ptrace_pokedata pid (addr b) (patched_instruction b) s in
        (set_enabled false b :: bs', s1)
      else
        let '(bs'', s1) := disable_search pid address bs' s in
        (b :: bs'', s1)
  end.

Definition disable_breakpoint (pid address : Z) (w : world) : world :=
  let '(bs, s1) := disable_search pid address (b_HEAD w) (os w) in
  mk_world s1 (t_HEAD w) bs.

Definition free_breakpoints (w : world) : world :=
  mk_world (os w) (t_HEAD w) [].

(* ------------------------------------------------------------------ *)
(** ** Run/stop engine *)

(** "flush any register changes": PTRACE_SETREGS for every node.  A
    failure is only reported on stderr. *)
Fixpoint flush_regs (ts : list thread) (s : sys) : sys :=
  match ts with
  | [] => s
  | t :: ts' => flush_regs ts' (snd (ptrace_setregs (tid t) (regs t) s))
  end.

Definition singlestep (x : Z) (w : world) : Z * world :=
  let s1 := flush_regs (t_HEAD w) (os w) in
  let '(r, s2) := ptrace_singlestep x s1 in
  (r, mk_world s2 (t_HEAD w) (b_HEAD w)).

(** The first loop of [step_until]: the flush, during which
    [stepping_thread] is assigned at every node whose tid is [x].  The
    pointer is the position of the node in the list, with the node. *)
Fixpoint step_until_flush (x : Z) (ts : list thread) (i : nat)
  (stepping_thread : option (nat * thread)) (s : sys)
  : option (nat * thread) * sys :=
  match ts with
  | [] => (stepping_thread, s)
  | t :: ts' =>
      let s1 := snd (ptrace_setregs (tid t) (regs t) s) in
      let stepping_thread' :=
        if tid t =? x then Some (i, t) else stepping_thread in
      step_until_flush x ts' (S i) stepping_thread' s1
  end.

(** Writing [stepping_thread->regs] back into the table. *)
Fixpoint store_regs (i : nat) (r : user_regs_struct) (ts : list thread)
  : list thread :=
  match ts, i with
  | [], _ => []
  | t :: ts', O => mk_thread (tid t) r :: ts'
  | t :: ts', S i' => t :: store_regs i' r ts'
  end.

(** The loop condition [max_steps == -1 || count < max_steps]. *)
Definition keep_stepping (max_steps count : Z) : bool :=
  (max_steps =? -1) || (count <? max_steps).

(** What the loop leaves behind when it is left: the content of
    [stepping_thread->regs], the environment, the value returned by
    [step_until] and the final value of the local [count]. *)
Record step_result : Type := mk_step_result {
  sr_regs : user_regs_struct;
  sr_sys : sys;
  sr_ret : Z;
  sr_count : Z
}.

(** The [while] loop of [step_until].  [cur] is [stepping_thread->regs].
    [None]: the loop is still running after [fuel] iterations. *)
Fixpoint step_until_loop (fuel : nat) (x address max_steps : Z)
  (cur : user_regs_struct) (s : sys) (count : Z) : option step_result :=
  if keep_stepping max_steps count then
    match fuel with
    | O => None
    | S fuel' =>
        let '(r, s1) := ptrace_singlestep x s in
        if negb (r =? 0) then Some (mk_step_result cur s1 (-1) count)
        else
          let '(_, s2) := waitpid x 0 s1 in
          let previous_ip := INSTRUCTION_POINTER cur in
          let '(res, s3) := ptrace_getregs x s2 in
          let cur' := match res with Some r' => r' | None => cur end in
          if INSTRUCTION_POINTER cur' =? address then
            Some (mk_step_result cur' s3 0 count)
          else if INSTRUCTION_POINTER cur' =? previous_ip then
            step_until_loop fuel' x address max_steps cur' s3 count
          else
            step_until_loop fuel' x address max_steps cur' s3
                            (int_wrap (count + 1))
    end
  else Some (mk_step_result cur s 0 count).

(** [step_until] with the final value of [count] kept next to the
    returned value. *)
Definition step_until_run (fuel : nat) (x address max_steps : Z) (w : world)
  : option (Z * Z * world) :=
  let '(stepping_thread, s1) :=
    step_until_flush x (t_HEAD w) 0%nat None (os w) in
  match stepping_thread with
  | None => Some (-1, 0, mk_world s1 (t_HEAD w) (b_HEAD w))
  | Some (i, t) =>
      match step_until_loop fuel x address max_steps (regs t) s1 0 with
      | None => None
      | Some res =>
          Some (sr_ret res, sr_count res,
                mk_world (sr_sys res) (store_regs i (sr_regs res) (t_HEAD w))
                         (b_HEAD w))
      end
  end.

Definition step_until (fuel : nat) (x address max_steps : Z) (w : world)
  : option (Z * world) :=
  match step_until_run fuel x address max_steps w with
  | Some (ret, _, w') => Some (ret, w')
  | None => None
  end.

(** The inner loop of [cont_all_and_set_bps]: is there a record, enabled
    or not, at [ip]? *)
Fixpoint bp_hit (ip : Z) (bs : list software_breakpoint) : bool :=
  match bs with
  | [] => false
  | b :: bs' => if addr b =? ip then true else bp_hit ip bs'
  end.

(** The step-off loop.  The second component is the local [status], or
    [None] when the loop was left by [return -1]. *)
Fixpoint step_off (bs : list software_breakpoint) (ts : list thread)
  (status : Z) (s : sys) : sys * option Z :=
  match ts with
  | [] => (s, Some status)
  | t :: ts' =>
      if bp_hit (INSTRUCTION_POINTER (regs t)) bs then
        let '(r, s1) := ptrace_singlestep (tid t) s in
        if negb (r =? 0) then (s1, None)
        else
          let '(wr, s2) := waitpid (tid t) 0 s1 in
          let status1 := stored status (snd wr) in
          if status1 =? STOPPED_BY_SIGSTOP then
            let '(_, s3) := ptrace_singlestep (tid t) s2 in
            let '(wr', s4) := waitpid (tid t) 0 s3 in
            step_off bs ts' (stored status1 (snd wr')) s4
          else step_off bs ts' status1 s2
      else step_off bs ts' status s
  end.

(** "Reset any software breakpoint". *)
Fixpoint arm_breakpoints (pid : Z) (bs : list software_breakpoint) (s : sys)
  : sys :=
  match bs with
  | [] => s
  | b :: bs' =>
      if enabled b then
        arm_breakpoints pid bs'
          (snd (ptrace_pokedata pid (addr b) (patched_instruction b) s))
      else arm_breakpoints pid bs' s
  end.

(** "continue the execution of all the threads". *)
Fixpoint cont_threads (ts : list thread) (s : sys) : sys :=
  match ts with
  | [] => s
  | t :: ts' => cont_threads ts' (snd (ptrace_cont (tid t) s))
  end.

Definition cont_all_and_set_bps (pid : Z) (w : world) : Z * world :=
  let s1 := flush_regs (t_HEAD w) (os w) in
  match step_off (b_HEAD w) (t_HEAD w) 0 s1 with
  | (s2, None) => (-1, mk_world s2 (t_HEAD w) (b_HEAD w))
  | (s2, Some status) =>
      let s3 := arm_breakpoints pid (b_HEAD w) s2 in
      let s4 := cont_threads (t_HEAD w) s3 in
      (status, mk_world s4 (t_HEAD w) (b_HEAD w))
  end.

(** The locals of [wait_all_and_update_regs] between its loops: the
    environment, [temp_status], and the non-empty list rooted at [head]
    (its first node and the nodes behind it). *)
Record wait_state : Type := mk_wait {
  ws_sys : sys;
  ws_temp_status : Z;
  ws_head : thread_status;
  ws_next : list thread_status
}.

Definition ws_list (st : wait_state) : list thread_status :=
  ws_head st :: ws_next st.

(** "We must interrupt all the other threads with a SIGSTOP".  The test
    [t->tid != head->tid] reads the current [head], which moves each time
    a node is pushed. *)
Fixpoint stop_others (pid : Z) (ts : list thread) (st : wait_state)
  : list thread * wait_state :=
  match ts with
  | [] => ([], st)
  | t :: ts' =>
      if negb (tid t =? ts_tid (ws_head st)) then
        let '(res, s1) := ptrace_getregs (tid t) (ws_sys st) in
        match res with
        | Some r =>
            let '(ts'', st') :=
              stop_others pid ts'
                (mk_wait s1 (ws_temp_status st) (ws_head st) (ws_next st)) in
            (mk_thread (tid t) r :: ts'', st')
        | None =>
            let '(_, s2) := tgkill pid (tid t) SIGSTOP s1 in
            let '(wr, s3) := waitpid (tid t) 0 s2 in
            let temp_tid := fst wr in
            let temp_status := stored (ws_temp_status st) (snd wr) in
            let '(ts'', st') :=
              stop_others pid ts'
                (mk_wait s3 temp_status (mk_status temp_tid temp_status)
                         (ws_head st :: ws_next st)) in
            (t :: ts'', st')
        end
      else
        let '(ts'', st') := stop_others pid ts' st in
        (t :: ts'', st')
  end.

(** "We keep polling but don't block".  [None]: still polling after
    [fuel] calls. *)
Fixpoint drain (fuel : nat) (st : wait_state) : option wait_state :=
  match fuel with
  | O => None
  | S fuel' =>
      let '(wr, s1) := waitpid (-1) (Z.lor WNOHANG __WALL) (ws_sys st) in
      let temp_tid := fst wr in
      let temp_status := stored (ws_temp_status st) (snd wr) in
      if temp_tid >? 0 then
        drain fuel'
          (mk_wait s1 temp_status (mk_status temp_tid temp_status)
                   (ws_head st :: ws_next st))
      else Some (mk_wait s1 temp_status (ws_head st) (ws_next st))
  end.

(** "Update the registers of all the threads". *)
Fixpoint update_regs (ts : list thread) (s : sys) : list thread * sys :=
  match ts with
  | [] => ([], s)
  | t :: ts' =>
      let '(res, s1) := ptrace_getregs (tid t) s in
      let '(ts'', s2) := update_regs ts' s1 in
      (refreshed t res :: ts'', s2)
  end.

(** "Restore any software breakpoint". *)
Fixpoint restore_breakpoints (pid : Z) (bs : list software_breakpoint)
  (s : sys) : sys :=
  match bs with
  | [] => s
  | b :: bs' =>
      if enabled b then
        restore_breakpoints pid bs'
          (snd (ptrace_pokedata pid (addr b) (instruction b) s))
      else restore_breakpoints pid bs' s
  end.

(** [wait_all_and_update_regs].  [head_status0] and [temp_status0] are the
    indeterminate initial contents of the freshly allocated
    [head->status] and of the uninitialised local [temp_status].
    The inner [None] is the NULL list; the outer [None] means that the
    drain loop is still polling after [fuel] calls. *)
Definition wait_all_and_update_regs (head_status0 temp_status0 : Z)
  (fuel : nat) (pid : Z) (w : world)
  : option (option (list thread_status) * world) :=
  let '(wr, s1) := waitpid (-1) __WALL (os w) in
  let head := mk_status (fst wr) (stored head_status0 (snd wr)) in
  if ts_tid head =? -1 then
    Some (None, mk_world s1 (t_HEAD w) (b_HEAD w))
  else
    let '(ts1, st1) :=
      stop_others pid (t_HEAD w) (mk_wait s1 temp_status0 head []) in
    match drain fuel st1 with
    | None => None
    | Some st2 =>
        let '(ts2, s2) := update_regs ts1 (ws_sys st2) in
        let s3 := restore_breakpoints pid (b_HEAD w) s2 in
        Some (Some (ws_list st2), mk_world s3 ts2 (b_HEAD w))
    end.

(* ------------------------------------------------------------------ *)
(** ** Vocabulary for statements about traces and tracee memory *)

(** [s'] is reached from [s] by issuing exactly the calls [ev]. *)
Definition emits (s s' : sys) (ev : list event) : Prop :=
  trace s' = trace s ++ ev.

Definition is_setregs (e : event) : bool :=
  match e with SetRegs _ _ _ => true | _ => false end.

Definition is_singlestep (e : event) : bool :=
  match e with SingleStep _ _ => true | _ => false end.

Definition is_singlestep_of (x : Z) (e : event) : bool :=
  match e with SingleStep t _ => t =? x | _ => false end.

Definition is_waitpid (e : event) : bool :=
  match e with Waitpid _ _ _ _ => true | _ => false end.

Definition is_getregs (e : event) : bool :=
  match e with GetRegs _ _ => true | _ => false end.

Definition is_poke (e : event) : bool :=
  match e with PokeData _ _ _ _ => true | _ => false end.

Definition is_cont (e : event) : bool :=
  match e with Continue _ _ => true | _ => false end.

(** The (pid, address, word) of the POKEDATA calls of a trace, in order. *)
Fixpoint pokes (tr : list event) : list (Z * Z * Z) :=
  match tr with
  | [] => []
  | PokeData pid a d _ :: tr' => (pid, a, d) :: pokes tr'
  | _ :: tr' => pokes tr'
  end.

(** The (tid, regs) of the SETREGS calls of a trace, in order. *)
Fixpoint setregs_calls (tr : list event) : list thread :=
  match tr with
  | [] => []
  | SetRegs t r _ :: tr' => mk_thread t r :: setregs_calls tr'
  | _ :: tr' => setregs_calls tr'
  end.

(** The tids of the CONT calls of a trace, in order. *)
Fixpoint conts (tr : list event) : list Z :=
  match tr with
  | [] => []
  | Continue t _ :: tr' => t :: conts tr'
  | _ :: tr' => conts tr'
  end.

(** The wait-status nodes the waitpid calls of a trace produce, in
    order: the returned pid with the status object after the call, the
    object holding [old] before the first call. *)
Fixpoint wait_nodes (old : Z) (tr : list event) : list thread_status :=
  match tr with
  | [] => []
  | Waitpid _ _ ret st :: tr' =>
      mk_status ret (stored old st) :: wait_nodes (stored old st) tr'
  | _ :: tr' => wait_nodes old tr'
  end.

(** The content of the status object after the waitpid calls of a
    trace. *)
Fixpoint status_after (old : Z) (tr : list event) : Z :=
  match tr with
  | [] => old
  | Waitpid _ _ _ st :: tr' => status_after (stored old st) tr'
  | _ :: tr' => status_after old tr'
  end.

(** The calls of the three waiting phases of [wait_all_and_update_regs]:
    the probe of one thread (GETREGS, then SIGSTOP and a blocking wait
    for that thread), a non-blocking poll that reports a thread, and the
    poll that reports none and ends the drain. *)
Definition probe_call (e : event) : bool :=
  match e with
  | GetRegs _ _ => true
  | Tgkill _ _ sig _ => sig =? SIGSTOP
  | Waitpid _ o _ _ => o =? 0
  | _ => false
  end.

Definition drained_call (e : event) : bool :=
  match e with
  | Waitpid p o r _ => (p =? -1) && (o =? Z.lor WNOHANG __WALL) && (r >? 0)
  | _ => false
  end.

Definition dry_poll (e : event) : bool :=
  match e with
  | Waitpid p o r _ => (p =? -1) && (o =? Z.lor WNOHANG __WALL) && (r <=? 0)
  | _ => false
  end.

Definition count_singlesteps (x : Z) (tr : list event) : nat :=
  length (filter (is_singlestep_of x) tr).

(** The armed and the restored writes of a breakpoint table. *)
Definition arming_writes (pid : Z) (bs : list software_breakpoint)
  : list (Z * Z * Z) :=
  map (fun b => (pid, addr b, patched_instruction b)) (filter enabled bs).

Definition restoring_writes (pid : Z) (bs : list software_breakpoint)
  : list (Z * Z * Z) :=
  map (fun b => (pid, addr b, instruction b)) (filter enabled bs).

(** The records of a table at one address. *)
Definition records_at (a : Z) (bs : list software_breakpoint)
  : list software_breakpoint :=
  filter (fun b => addr b =? a) bs.

(** One record at [a] with stored words [i] and [p]. *)
Definition sole_record (a i p : Z) (bs : list software_breakpoint) : Prop :=
  exists e, records_at a bs = [mk_bp a i p e].

(** The cached instruction pointer of a thread is at a breakpoint. *)
Definition sitting_on_bp (bs : list software_breakpoint) (t : thread) : bool :=
  bp_hit (INSTRUCTION_POINTER (regs t)) bs.

(** What the step-off loop issues for one thread sitting on a
    breakpoint, [status] being the local of that name before: a
    successful step and the wait for it, and the same again when the
    status after the first wait is the SIGSTOP literal. *)
Inductive step_off_block (x status : Z) : list event -> Prop :=
| stepped_once : forall r st,
    stored status st <> STOPPED_BY_SIGSTOP ->
    step_off_block x status [SingleStep x 0; Waitpid x 0 r st]
| stepped_twice : forall r st r2 r' st',
    stored status st = STOPPED_BY_SIGSTOP ->
    step_off_block x status [SingleStep x 0; Waitpid x 0 r st;
                             SingleStep x r2; Waitpid x 0 r' st'].

(** The calls of a step-off loop that runs to its end over the threads
    [ts]: nothing for a thread that is not on a breakpoint, one block for
    each thread that is. *)
Inductive step_off_trace (bs : list software_breakpoint)
  : list thread -> Z -> list event -> Prop :=
| sot_done : forall status, step_off_trace bs [] status []
| sot_skip : forall t ts status ev,
    bp_hit (INSTRUCTION_POINTER (regs t)) bs = false ->
    step_off_trace bs ts status ev ->
    step_off_trace bs (t :: ts) status ev
| sot_step : forall t ts status blk ev,
    bp_hit (INSTRUCTION_POINTER (regs t)) bs = true ->
    step_off_block (tid t) status blk ->
    step_off_trace bs ts (status_after status blk) ev ->
    step_off_trace bs (t :: ts) status (blk ++ ev).

Definition is_step_or_wait (e : event) : bool :=
  is_singlestep e || is_waitpid e.

Definition wrote_sigstop (e : event) : bool :=
  match e with
  | Waitpid _ _ _ (Some st) => st =? STOPPED_BY_SIGSTOP
  | _ => false
  end.

(** The kernel state after the SETREGS calls of a flush. *)
Definition kernel_after_flush (ts : list thread) (k : kstate) : kstate :=
  fold_left (fun k t => snd (sys_setregs (tid t) (regs t) k)) ts k.

(** The non-blocking polls of the drain loop run dry within [n] calls. *)
Fixpoint polls_dry (n : nat) (k : kstate) : bool :=
  match n with
  | O => false
  | S n' =>
      let res := sys_waitpid (-1) (Z.lor WNOHANG __WALL) k in
      if fst (fst res) >? 0 then polls_dry n' (snd res) else true
  end.

(** The kernel state in which the drain loop of
    [wait_all_and_update_regs] starts, after a successful first wait. *)
Definition kernel_at_drain (head_status0 temp_status0 pid : Z) (w : world)
  : kstate :=
  let '(wr, s1) := waitpid (-1) __WALL (os w) in
  let head := mk_status (fst wr) (stored head_status0 (snd wr)) in
  kern (ws_sys (snd (stop_others pid (t_HEAD w)
                       (mk_wait s1 temp_status0 head [])))).

(** The steps [step_until] counts, read off the GETREGS results of a
    trace: a step counts when it changed the instruction pointer
    ([ip] before the step) and did not reach [address]. *)
Fixpoint counted_steps (address ip : Z) (tr : list event) : Z :=
  match tr with
  | [] => 0
  | GetRegs _ (Some r) :: tr' =>
      let ip' := INSTRUCTION_POINTER r in
      (if (ip' =? address) || (ip' =? ip) then 0 else 1)
      + counted_steps address ip' tr'
  | _ :: tr' => counted_steps address ip tr'
  end.

(** The tracee advances [n] times in a row when [x] is stepped from
    kernel state [k]: each SINGLESTEP succeeds and the GETREGS after the
    wait shows an instruction pointer that differs from the one before
    the step ([ip] at first) and from [address]. *)
Fixpoint advances (n : nat) (x address ip : Z) (k : kstate) : bool :=
  match n with
  | O => true
  | S n' =>
      let r1 := sys_singlestep x k in
      let r2 := sys_waitpid x 0 (snd r1) in
      let r3 := sys_getregs x (snd r2) in
      match fst r3 with
      | Some r =>
          (fst r1 =? 0)
          && negb (INSTRUCTION_POINTER r =? address)
          && negb (INSTRUCTION_POINTER r =? ip)
          && advances n' x address (INSTRUCTION_POINTER r) (snd r3)
      | None => false
      end
  end.

(** Calls on the breakpoint table, for sequences of them. *)
Inductive bp_call : Type :=
| Install (pid a : Z)
| Disable (pid a : Z).

Definition run_bp_call (c : bp_call) (w : world) : world :=
  match c with
  | Install pid a => register_breakpoint pid a w
  | Disable pid a => disable_breakpoint pid a w
  end.

Definition run_bp_calls (cs : list bp_call) (w : world) : world :=
  fold_left (fun w c => run_bp_call c w) cs w.

Definition is_install_at (a : Z) (c : bp_call) : bool :=
  match c with Install _ a' => a' =? a | Disable _ _ => false end.

(** Tracee memory as [word_at] shows it behaves as a store of words on
    the addresses in [code]: a POKEDATA there succeeds and changes that
    word only, and no other call changes it (the tracee does not
    overwrite these addresses while it runs). *)
Record word_store (word_at : kstate -> Z -> Z) (code : Z -> Prop) : Prop := {
  poke_hit : forall pid a d k,
    code a -> word_at (snd (sys_pokedata pid a d k)) a = d;
  poke_miss : forall pid a d k a',
    code a -> code a' -> a' <> a ->
    word_at (snd (sys_pokedata pid a d k)) a' = word_at k a';
  peek_quiet : forall pid a k a',
    code a' -> word_at (snd (sys_peekdata pid a k)) a' = word_at k a';
  setregs_quiet : forall t r k a,
    code a -> word_at (snd (sys_setregs t r k)) a = word_at k a;
  getregs_quiet : forall t k a,
    code a -> word_at (snd (sys_getregs t k)) a = word_at k a;
  singlestep_quiet : forall t k a,
    code a -> word_at (snd (sys_singlestep t k)) a = word_at k a;
  cont_quiet : forall t k a,
    code a -> word_at (snd (sys_cont t k)) a = word_at k a;
  waitpid_quiet : forall p o k a,
    code a -> word_at (snd (sys_waitpid p o k)) a = word_at k a;
  tgkill_quiet : forall p t sg k a,
    code a -> word_at (snd (sys_tgkill p t sg k)) a = word_at k a
}.

(** The state of the breakpoint table and of tracee memory that the
    table operations maintain: one record per address, every record's
    address in [code], and the patched word in memory under every
    disabled record. *)
Definition bp_table_ok (word_at : kstate -> Z -> Z) (code : Z -> Prop)
  (w : world) : Prop :=
  NoDup (map addr (b_HEAD w)) /\
  (forall b, In b (b_HEAD w) -> code (addr b)) /\
  (forall b, In b (b_HEAD w) -> enabled b = false ->
             word_at (kern (os w)) (addr b) = patched_instruction b).

(* ------------------------------------------------------------------ *)
(** ** Vocabulary for the rest of the interface *)

Definition is_tgkill (e : event) : bool :=
  match e with Tgkill _ _ _ _ => true | _ => false end.

Definition is_peek (e : event) : bool :=
  match e with PeekData _ _ _ => true | _ => false end.

(** A call of the stepping loop on thread [x]: SINGLESTEP of [x], a
    blocking wait for [x], GETREGS of [x]. *)
Definition drives (x : Z) (e : event) : bool :=
  match e with
  | SingleStep t _ => t =? x
  | Waitpid p o _ _ => (p =? x) && (o =? 0)
  | GetRegs t _ => t =? x
  | _ => false
  end.

(** The thread does not move when [x] is stepped [n] times in a row from
    kernel state [k]: each SINGLESTEP succeeds, the cached instruction
    pointer [ip] is not [address], and the GETREGS after the wait fails
    or shows [ip] again. *)
Fixpoint stuck (n : nat) (x address ip : Z) (k : kstate) : bool :=
  match n with
  | O => true
  | S n' =>
      let r1 := sys_singlestep x k in
      let r2 := sys_waitpid x 0 (snd r1) in
      let r3 := sys_getregs x (snd r2) in
      (fst r1 =? 0)
      && negb (ip =? address)
      && match fst r3 with
         | Some r => INSTRUCTION_POINTER r =? ip
         | None => true
         end
      && stuck n' x address ip (snd r3)
  end.

(** The tracee advances [n] times as in [advances] and the step after
    these succeeds and shows the instruction pointer at [address]. *)
Fixpoint arrives (n : nat) (x address ip : Z) (k : kstate) : bool :=
  let r1 := sys_singlestep x k in
  let r2 := sys_waitpid x 0 (snd r1) in
  let r3 := sys_getregs x (snd r2) in
  match n with
  | O =>
      match fst r3 with
      | Some r => (fst r1 =? 0) && (INSTRUCTION_POINTER r =? address)
      | None => false
      end
  | S n' =>
      match fst r3 with
      | Some r =>
          (fst r1 =? 0)
          && negb (INSTRUCTION_POINTER r =? address)
          && negb (INSTRUCTION_POINTER r =? ip)
          && arrives n' x address (INSTRUCTION_POINTER r) (snd r3)
      | None => false
      end
  end.

(** The calls of the probe loop over the threads [ts], [h] being
    [head->tid] when the loop reaches them: nothing for a thread whose
    tid is [h]; a GETREGS for a thread that is stopped; a failed
    GETREGS, a SIGSTOP and a blocking wait for a thread that runs, after
    which [head->tid] is what that wait returned. *)
Inductive probe_trace (pid : Z) : Z -> list thread -> list event -> Prop :=
| probe_done : forall h, probe_trace pid h [] []
| probe_skip : forall h t ts ev,
    tid t = h ->
    probe_trace pid h ts ev ->
    probe_trace pid h (t :: ts) ev
| probe_stopped : forall h t ts r ev,
    tid t <> h ->
    probe_trace pid h ts ev ->
    probe_trace pid h (t :: ts) (GetRegs (tid t) (Some r) :: ev)
| probe_signalled : forall h t ts rk r st ev,
    tid t <> h ->
    probe_trace pid r ts ev ->
    probe_trace pid h (t :: ts)
      (GetRegs (tid t) None :: Tgkill pid (tid t) SIGSTOP rk
       :: Waitpid (tid t) 0 r st :: ev).

(** The final GETREGS of a thread and the node of the table after it. *)
Definition refreshed_by (t : thread) (e : event) : Prop :=
  exists res,
    e = GetRegs (tid t) res /\
    (forall r, res = Some r -> regs t = r).

(** The calls of the interface, for sequences of them. *)
Inductive api_call : Type :=
| RegisterThread (fresh : user_regs_struct) (x : Z)
| UnregisterThread (x : Z)
| FreeThreadList
| RegisterBreakpoint (pid a : Z)
| UnregisterBreakpoint (a : Z)
| DisableBreakpoint (pid a : Z)
| FreeBreakpoints
| Singlestep (x : Z)
| StepUntil (fuel : nat) (x address max_steps : Z)
| ContAllAndSetBps (pid : Z)
| WaitAllAndUpdateRegs (head_status0 temp_status0 : Z) (fuel : nat) (pid : Z).

(** One call; [None] when a loop of the call is out of fuel. *)
Definition run_api_call (c : api_call) (w : world) : option world :=
  match c with
  | RegisterThread fresh x => Some (register_thread fresh x w)
  | UnregisterThread x => Some (unregister_thread x w)
  | FreeThreadList => Some (free_thread_list w)
  | RegisterBreakpoint pid a => Some (register_breakpoint pid a w)
  | UnregisterBreakpoint a => Some (unregister_breakpoint a w)
  | DisableBreakpoint pid a => Some (disable_breakpoint pid a w)
  | FreeBreakpoints => Some (free_breakpoints w)
  | Singlestep x => Some (snd (singlestep x w))
  | StepUntil fuel x address max_steps =>
      match step_until fuel x address max_steps w with
      | Some (_, w') => Some w'
      | None => None
      end
  | ContAllAndSetBps pid => Some (snd (cont_all_and_set_bps pid w))
  | WaitAllAndUpdateRegs h0 t0 fuel pid =>
      match wait_all_and_update_regs h0 t0 fuel pid w with
      | Some (_, w') => Some w'
      | None => None
      end
  end.

Fixpoint run_api (cs : list api_call) (w : world) : option world :=
  match cs with
  | [] => Some w
  | c :: cs' =>
      match run_api_call c w with
      | Some w' => run_api cs' w'
      | None => None
      end
  end.

(** Breakpoints are installed at addresses of [code] only. *)
Definition installs_in (code : Z -> Prop) (c : api_call) : Prop :=
  match c with
  | RegisterBreakpoint _ a => code a
  | _ => True
  end.

End Model.

(* ================================================================== *)
(** ** A scripted mock of the kernel on x86-64 *)

Module Mock.

Record regs64 : Type := mk_regs64 { rip : Z; rax : Z }.

(** Modelled from the spec: the macros INSTRUCTION_POINTER and
    INSTALL_BREAKPOINT are missing from the C file.  The instruction
    pointer is read out of the snapshot, and the trap replaces the first
    byte of the word by the one-byte software trap (0xCC on x86-64) and
    preserves the rest of the word. *)
#[export] Instance x86_64 : Arch := {|
  user_regs_struct := regs64;
  INSTRUCTION_POINTER := rip;
  INSTALL_BREAKPOINT := fun w => Z.lor (Z.land w 0xFFFFFFFFFFFFFF00) 0xCC
|}.

Fixpoint lookup (a : Z) (m : list (Z * Z)) : Z :=
  match m with
  | [] => 0
  | (a', v) :: m' => if a' =? a then v else lookup a m'
  end.

Definition mem (x : Z) (l : list Z) : bool := existsb (Z.eqb x) l.

Definition remove (x : Z) (l : list Z) : list Z :=
  filter (fun y => negb (y =? x)) l.

(** The mock: tracee memory and the kernel's view of each thread's
    instruction pointer as association lists (absent means 0), the
    threads that are running (register access fails on them), the
    threads that are gone (stepping them fails), and two scripts: the
    increments successive SINGLESTEP calls add to the instruction
    pointer, and the results of successive waitpid calls. *)
Record mock : Type := mk_mock {
  m_mem : list (Z * Z);
  m_rip : list (Z * Z);
  m_running : list Z;
  m_gone : list Z;
  m_steps : list Z;
  m_waits : list (Z * option Z)
}.

(** Status of a thread stopped by SIGTRAP. *)
Definition STOPPED_BY_SIGTRAP : Z := 1407.

Definition mock_setregs (t : Z) (r : regs64) (m : mock) : Z * mock :=
  if mem t (m_running m) then (-1, m)
  else (0, mk_mock (m_mem m) ((t, rip r) :: m_rip m) (m_running m)
                   (m_gone m) (m_steps m) (m_waits m)).

Definition mock_getregs (t : Z) (m : mock) : option regs64 * mock :=
  if mem t (m_running m) then (None, m)
  else (Some (mk_regs64 (lookup t (m_rip m)) 0), m).

Definition mock_singlestep (t : Z) (m : mock) : Z * mock :=
  if mem t (m_gone m) then (-1, m)
  else
    let d := match m_steps m with [] => 2 | d :: _ => d end in
    (0, mk_mock (m_mem m) ((t, lookup t (m_rip m) + d) :: m_rip m)
                (m_running m) (m_gone m) (tl (m_steps m)) (m_waits m)).

Definition mock_cont (t : Z) (m : mock) : Z * mock :=
  (0, mk_mock (m_mem m) (m_rip m) (t :: m_running m) (m_gone m)
              (m_steps m) (m_waits m)).

Definition mock_peekdata (pid a : Z) (m : mock) : Z * mock :=
  (lookup a (m_mem m), m).

Definition mock_pokedata (pid a d : Z) (m : mock) : Z * mock :=
  (0, mk_mock ((a, d) :: m_mem m) (m_rip m) (m_running m) (m_gone m)
              (m_steps m) (m_waits m)).

(** waitpid follows the script; once the script is over, waiting for one
    thread reports it stopped by SIGTRAP, a non-blocking wait for any
    thread reports nothing (0), and a blocking one fails (-1).  A
    reported thread is no longer running. *)
Definition mock_waitpid (pid options : Z) (m : mock)
  : (Z * option Z) * mock :=
  let reply :=
    match m_waits m with
    | r :: _ => r
    | [] =>
        if pid >? 0 then (pid, Some STOPPED_BY_SIGTRAP)
        else if Z.land options WNOHANG =? 0 then (-1, None)
        else (0, None)
    end in
  (reply, mk_mock (m_mem m) (m_rip m) (remove (fst reply) (m_running m))
                  (m_gone m) (m_steps m) (tl (m_waits m))).

Definition mock_tgkill (pid t sig : Z) (m : mock) : Z * mock := (0, m).

#[export] Instance mock_kernel : Kernel regs64 := {|
  kstate := mock;
  sys_setregs := mock_setregs;
  sys_getregs := mock_getregs;
  sys_singlestep := mock_singlestep;
  sys_cont := mock_cont;
  sys_peekdata := mock_peekdata;
  sys_pokedata := mock_pokedata;
  sys_waitpid := mock_waitpid;
  sys_tgkill := mock_tgkill
|}.

(** The word the mock holds at an address. *)
Definition mock_word_at (m : mock) (a : Z) : Z := lookup a (m_mem m).

(** A world of the mock: nothing traced yet. *)
Definition boot (m : mock) (ts : list (@thread x86_64))
  (bs : list software_breakpoint) : @world x86_64 mock_kernel :=
  mk_world (mk_sys (m : @kstate _ mock_kernel) []) ts bs.

End Mock.

(* ================================================================== *)
(** ** Concrete scenarios on the mock *)

Module Scenario.
Import Mock.

Definition pid : Z := 1.
Definition T : Z := 7.
Definition X : Z := 0x400110.
Definition word : Z := 0x1122334455667788.

(** One thread [T] stopped at [ip], the word [word] at [X], and the two
    scripts of the mock. *)
Definition tracee (ip : Z) (steps : list Z) (waits : list (Z * option Z))
  : mock :=
  mk_mock [(X, word)] [(T, ip)] [] [] steps waits.

Definition attached (ip : Z) (steps : list Z) (waits : list (Z * option Z))
  : world :=
  boot (tracee ip steps waits) [mk_thread T (mk_regs64 ip 0)] [].

(** A breakpoint installed at [X], then the tracee set running. *)
Definition installed (ip : Z) (steps : list Z) (waits : list (Z * option Z))
  : world :=
  register_breakpoint pid X (attached ip steps waits).

Definition running (ip : Z) (steps : list Z) (waits : list (Z * option Z))
  : world :=
  snd (cont_all_and_set_bps pid (installed ip steps waits)).

(** Three threads, registered in the order 7, 8, 9, a breakpoint at [X],
    all threads running.  Thread 7 reports first; 9 and 8 answer the
    SIGSTOP; a new thread 10 is reported by the drain. *)
Definition three_threads : world :=
  snd (cont_all_and_set_bps pid
         (register_breakpoint pid X
            (boot (mk_mock [(X, word)]
                           [(7, 0x400100); (8, 0x400200); (9, 0x400300)]
                           [] [] []
                           [(7, Some STOPPED_BY_SIGTRAP);
                            (9, Some STOPPED_BY_SIGSTOP);
                            (8, Some STOPPED_BY_SIGSTOP);
                            (10, Some STOPPED_BY_SIGTRAP)])
                  [mk_thread 9 (mk_regs64 0x400300 0);
                   mk_thread 8 (mk_regs64 0x400200 0);
                   mk_thread 7 (mk_regs64 0x400100 0)]
                  []))).

(** A thread that is gone: stepping it fails. *)
Definition gone_thread : world :=
  boot (mk_mock [(X, word)] [(T, 0xE0)] [] [T] [] [])
       [mk_thread T (mk_regs64 0xE0 0)] [].

(** A tracee whose memory cannot be read at [X]: PEEKDATA returns -1. *)
Definition unreadable : world :=
  boot (mk_mock [(X, -1)] [(T, 0x400100)] [] [] [] [])
       [mk_thread T (mk_regs64 0x400100 0)] [].

(** A session: a second thread is registered, a breakpoint is installed
    at [X], the tracee runs into a stop, the breakpoint is disabled and
    removed, and the first thread is stepped. *)
Definition session : list api_call :=
  [RegisterThread (mk_regs64 0 0) 8;
   RegisterBreakpoint pid X;
   ContAllAndSetBps pid;
   WaitAllAndUpdateRegs 0 0 2 pid;
   DisableBreakpoint pid X;
   UnregisterBreakpoint X;
   StepUntil 3 T 0x4000F0 2;
   Singlestep T;
   UnregisterThread 8].

(** Three threads sitting on the breakpoint at [X], registered in the
    order 7, 8, 9; thread 8 is gone. *)
Definition second_thread_gone : world :=
  register_breakpoint pid X
    (boot (mk_mock [(X, word)] [(7, X); (8, X); (9, X)] [] [8] [] [])
          [mk_thread 9 (mk_regs64 X 0);
           mk_thread 8 (mk_regs64 X 0);
           mk_thread 7 (mk_regs64 X 0)]
          []).

End Scenario.

(* ================================================================== *)
(** ** A second mock: byte-addressed memory *)

Module ByteMock.
Import Mock.

(** Tracee memory as bytes (absent means 0), one thread with its
    instruction pointer, and whether that thread is in ptrace-stop.
    PEEKDATA and POKEDATA transfer the eight bytes from the address on,
    little-endian, and fail with -1 while the tracee runs (ESRCH), as the
    register calls do. *)
Record bstate : Type := mk_bstate {
  b_bytes : list (Z * Z);
  b_tid : Z;
  b_rip : Z;
  b_stopped : bool
}.

Fixpoint read_le (n : nat) (m : list (Z * Z)) (a : Z) : Z :=
  match n with
  | O => 0
  | S n' => lookup a m + 256 * read_le n' m (a + 1)
  end.

Fixpoint write_le (n : nat) (a d : Z) (m : list (Z * Z)) : list (Z * Z) :=
  match n with
  | O => m
  | S n' => write_le n' (a + 1) (d / 256) ((a, d mod 256) :: m)
  end.

(** The 64-bit word in memory at an address. *)
Definition byte_word_at (k : bstate) (a : Z) : Z := read_le 8 (b_bytes k) a.

(** The [long] that PEEKDATA returns for a word. *)
Definition as_long (v : Z) : Z := if v <? 2 ^ 63 then v else v - 2 ^ 64.

Definition on_stopped (t : Z) (k : bstate) : bool :=
  b_stopped k && (t =? b_tid k).

Definition byte_setregs (t : Z) (r : regs64) (k : bstate) : Z * bstate :=
  if on_stopped t k
  then (0, mk_bstate (b_bytes k) (b_tid k) (rip r) true)
  else (-1, k).

Definition byte_getregs (t : Z) (k : bstate) : option regs64 * bstate :=
  if on_stopped t k then (Some (mk_regs64 (b_rip k) 0), k) else (None, k).

Definition byte_singlestep (t : Z) (k : bstate) : Z * bstate :=
  if on_stopped t k
  then (0, mk_bstate (b_bytes k) (b_tid k) (b_rip k + 1) false)
  else (-1, k).

Definition byte_cont (t : Z) (k : bstate) : Z * bstate :=
  if on_stopped t k
  then (0, mk_bstate (b_bytes k) (b_tid k) (b_rip k) false)
  else (-1, k).

Definition byte_peekdata (pid a : Z) (k : bstate) : Z * bstate :=
  if b_stopped k then (as_long (byte_word_at k a), k) else (-1, k).

Definition byte_pokedata (pid a d : Z) (k : bstate) : Z * bstate :=
  if b_stopped k
  then (0, mk_bstate (write_le 8 a d (b_bytes k)) (b_tid k) (b_rip k) true)
  else (-1, k).

(** A running tracee stops with SIGTRAP at the next wait; with the
    tracee stopped there is nothing to report. *)
Definition byte_waitpid (p options : Z) (k : bstate)
  : (Z * option Z) * bstate :=
  if b_stopped k then
    ((if Z.land options WNOHANG =? 0 then -1 else 0, None), k)
  else
    ((b_tid k, Some STOPPED_BY_SIGTRAP),
     mk_bstate (b_bytes k) (b_tid k) (b_rip k) true).

Definition byte_tgkill (p t sig : Z) (k : bstate) : Z * bstate := (0, k).

Definition byte_kernel : Kernel regs64 := {|
  kstate := bstate;
  sys_setregs := byte_setregs;
  sys_getregs := byte_getregs;
  sys_singlestep := byte_singlestep;
  sys_cont := byte_cont;
  sys_peekdata := byte_peekdata;
  sys_pokedata := byte_pokedata;
  sys_waitpid := byte_waitpid;
  sys_tgkill := byte_tgkill
|}.

Definition byte_world : Type := @world x86_64 byte_kernel.

(** Thread 7 stopped at 0x400100; the bytes 0x11, 0x22, ..., 0x99 from
    0x400110 on. *)
Definition stopped_tracee : byte_world :=
  @mk_world x86_64 byte_kernel
    (@mk_sys x86_64 byte_kernel
       (mk_bstate [(0x400110, 0x11); (0x400111, 0x22); (0x400112, 0x33);
                   (0x400113, 0x44); (0x400114, 0x55); (0x400115, 0x66);
                   (0x400116, 0x77); (0x400117, 0x88); (0x400118, 0x99)]
                  7 0x400100 true)
       [])
    [mk_thread 7 (mk_regs64 0x400100 0)] [].

(** The same tracee set running by [cont_all_and_set_bps]. *)
Definition running_tracee : byte_world :=
  snd (@cont_all_and_set_bps x86_64 byte_kernel 1 stopped_tracee).

(** Breakpoints installed at 0x400111 and then at 0x400110: their words
    share seven bytes. *)
Definition overlapping : byte_world :=
  @register_breakpoint x86_64 byte_kernel 1 0x400110
    (@register_breakpoint x86_64 byte_kernel 1 0x400111 stopped_tracee).

End ByteMock.

(* ================================================================== *)
(** * Properties *)

Section Facts.

Context {A : Arch} {K : Kernel user_regs_struct}.

Lemma emits_refl (s : sys) : emits s s [].
Proof. unfold emits. now rewrite app_nil_r. Qed.

Lemma emits_trans (s1 s2 s3 : sys) (ev1 ev2 : list event) :
  emits s1 s2 ev1 -> emits s2 s3 ev2 -> emits s1 s3 (ev1 ++ ev2).
Proof. unfold emits. intros H1 H2. now rewrite H2, H1, app_assoc. Qed.

Lemma emits_inj (s s' : sys) (ev1 ev2 : list event) :
  emits s s' ev1 -> emits s s' ev2 -> ev1 = ev2.
Proof.
  unfold emits. intros H1 H2. rewrite H1 in H2.
  now apply app_inv_head in H2.
Qed.

(* ------------------------------------------------------------------ *)
(** ** What each system call adds to the trace *)

Lemma ptrace_setregs_emits (t : Z) (r : user_regs_struct) (s : sys) :
  emits s (snd (ptrace_setregs t r s))
        [SetRegs t r (fst (ptrace_setregs t r s))].
Proof. reflexivity. Qed.

Lemma ptrace_getregs_emits (t : Z) (s : sys) :
  emits s (snd (ptrace_getregs t s)) [GetRegs t (fst (ptrace_getregs t s))].
Proof. reflexivity. Qed.

Lemma ptrace_singlestep_emits (t : Z) (s : sys) :
  emits s (snd (ptrace_singlestep t s))
        [SingleStep t (fst (ptrace_singlestep t s))].
Proof. reflexivity. Qed.

Lemma ptrace_cont_emits (t : Z) (s : sys) :
  emits s (snd (ptrace_cont t s)) [Continue t (fst (ptrace_cont t s))].
Proof. reflexivity. Qed.

Lemma ptrace_pokedata_emits (pid a d : Z) (s : sys) :
  emits s (snd (ptrace_pokedata pid a d s))
        [PokeData pid a d (fst (ptrace_pokedata pid a d s))].
Proof. reflexivity. Qed.

Lemma waitpid_emits (pid options : Z) (s : sys) :
  emits s (snd (waitpid pid options s))
        [Waitpid pid options (fst (fst (waitpid pid options s)))
                 (snd (fst (waitpid pid options s)))].
Proof. reflexivity. Qed.

Lemma tgkill_emits (pid t sig : Z) (s : sys) :
  emits s (snd (tgkill pid t sig s))
        [Tgkill pid t sig (fst (tgkill pid t sig s))].
Proof. reflexivity. Qed.

(* ------------------------------------------------------------------ *)
(** ** Projections of traces *)

Lemma pokes_app (tr1 tr2 : list event) :
  pokes (tr1 ++ tr2) = pokes tr1 ++ pokes tr2.
Proof.
  induction tr1 as [|e tr1 IH]; simpl; [reflexivity|].
  destruct e; simpl; now rewrite ?IH.
Qed.

Lemma conts_app (tr1 tr2 : list event) :
  conts (tr1 ++ tr2) = conts tr1 ++ conts tr2.
Proof.
  induction tr1 as [|e tr1 IH]; simpl; [reflexivity|].
  destruct e; simpl; now rewrite ?IH.
Qed.

Lemma setregs_calls_app (tr1 tr2 : list event) :
  setregs_calls (tr1 ++ tr2) = setregs_calls tr1 ++ setregs_calls tr2.
Proof.
  induction tr1 as [|e tr1 IH]; simpl; [reflexivity|].
  destruct e; simpl; now rewrite ?IH.
Qed.

Lemma count_singlesteps_app (x : Z) (tr1 tr2 : list event) :
  count_singlesteps x (tr1 ++ tr2)
  = (count_singlesteps x tr1 + count_singlesteps x tr2)%nat.
Proof. unfold count_singlesteps. now rewrite filter_app, length_app. Qed.

Lemma pokes_none (tr : list event) :
  Forall (fun e => is_poke e = false) tr -> pokes tr = [].
Proof.
  induction 1 as [|e tr He _ IH]; simpl; [reflexivity|].
  destruct e; simpl in *; try assumption. discriminate.
Qed.

Lemma conts_none (tr : list event) :
  Forall (fun e => is_cont e = false) tr -> conts tr = [].
Proof.
  induction 1 as [|e tr He _ IH]; simpl; [reflexivity|].
  destruct e; simpl in *; try assumption. discriminate.
Qed.

Lemma count_singlesteps_none (x : Z) (tr : list event) :
  Forall (fun e => is_singlestep e = false) tr -> count_singlesteps x tr = 0%nat.
Proof.
  unfold count_singlesteps.
  induction 1 as [|e tr He _ IH]; simpl; [reflexivity|].
  destruct e; simpl in *; try assumption. discriminate.
Qed.

(* ------------------------------------------------------------------ *)
(** ** The register flush *)

Lemma flush_regs_emits (ts : list thread) (s : sys) :
  exists ev,
    emits s (flush_regs ts s) ev /\
    Forall (fun e => is_setregs e = true) ev /\
    setregs_calls ev = ts.
Proof.
  revert s. induction ts as [|t ts IH]; intros s; cbn [flush_regs].
  - exists []. split; [apply emits_refl|]. split; [constructor|reflexivity].
  - destruct (IH (snd (ptrace_setregs (tid t) (regs t) s)))
      as (ev & Hev & Hall & Hcalls).
    exists (SetRegs (tid t) (regs t) (fst (sys_setregs (tid t) (regs t) (kern s)))
            :: ev).
    split; [|split].
    + unfold emits in *. rewrite Hev. simpl. now rewrite <- app_assoc.
    + constructor; [reflexivity|assumption].
    + simpl. rewrite Hcalls. now destruct t.
Qed.

Lemma flush_regs_kern (ts : list thread) (s : sys) :
  kern (flush_regs ts s) = kernel_after_flush ts (kern s).
Proof.
  unfold kernel_after_flush. revert s.
  induction ts as [|t ts IH]; intros s; simpl; [reflexivity|].
  now rewrite IH.
Qed.

Lemma step_until_flush_sys (x : Z) (ts : list thread) (i : nat)
  (st : option (nat * thread)) (s : sys) :
  snd (step_until_flush x ts i st s) = flush_regs ts s.
Proof.
  revert i st s. induction ts as [|t ts IH]; intros i st s; simpl;
    [reflexivity|apply IH].
Qed.

Lemma step_until_flush_absent (x : Z) (ts : list thread) (i : nat)
  (st : option (nat * thread)) (s : sys) :
  (forall t, In t ts -> tid t <> x) ->
  fst (step_until_flush x ts i st s) = st.
Proof.
  revert i st s. induction ts as [|t ts IH]; intros i st s Habs; simpl;
    [reflexivity|].
  rewrite IH by (intros t' Ht'; apply Habs; now right).
  destruct (Z.eqb_spec (tid t) x) as [E|E]; [|reflexivity].
  exfalso. apply (Habs t); [now left|assumption].
Qed.

(** The pointer found by the flush loop designates a node of the table
    with the requested tid. *)
Lemma step_until_flush_found (x : Z) (ts : list thread) (i : nat)
  (st : option (nat * thread)) (s : sys) (j : nat) (t : thread) :
  fst (step_until_flush x ts i st s) = Some (j, t) ->
  st = Some (j, t) \/
  (exists n, j = (i + n)%nat /\ nth_error ts n = Some t /\ tid t = x).
Proof.
  revert i st s. induction ts as [|t0 ts IH]; intros i st s; simpl.
  - intros ->. now left.
  - intros H. apply IH in H. destruct H as [H|(n & -> & Hn & Hx)].
    + destruct (Z.eqb_spec (tid t0) x) as [E|E]; [|now left].
      injection H as <- <-. right. exists 0%nat.
      split; [lia|]. split; [reflexivity|assumption].
    + right. exists (S n). split; [lia|]. split; assumption.
Qed.

Lemma step_until_flush_keeps (x : Z) (ts : list thread) (i : nat)
  (st : option (nat * thread)) (s : sys) :
  st <> None -> fst (step_until_flush x ts i st s) <> None.
Proof.
  revert i st s. induction ts as [|t ts IH]; intros i st s Hst;
    cbn [step_until_flush]; [assumption|].
  apply IH. destruct (tid t =? x); [discriminate|assumption].
Qed.

Lemma step_until_flush_present (x : Z) (ts : list thread) (i : nat)
  (st : option (nat * thread)) (s : sys) :
  (exists t, In t ts /\ tid t = x) ->
  exists j t, fst (step_until_flush x ts i st s) = Some (j, t).
Proof.
  revert i st s. induction ts as [|t0 ts IH]; intros i st s (t & Hin & Hx).
  - destruct Hin.
  - cbn [step_until_flush]. destruct (Z.eqb_spec (tid t0) x) as [E|E].
    + pose proof (@step_until_flush_keeps x ts (S i) (Some (i, t0))
                    (snd (ptrace_setregs (tid t0) (regs t0) s))) as Hk.
      destruct (fst (step_until_flush x ts (S i) (Some (i, t0))
                  (snd (ptrace_setregs (tid t0) (regs t0) s)))) as [[j t']|].
      * now exists j, t'.
      * exfalso. apply Hk; [discriminate|reflexivity].
    + destruct Hin as [->|Hin]; [contradiction|].
      apply IH. now exists t.
Qed.

(* ------------------------------------------------------------------ *)
(** ** The breakpoint table *)

Lemma records_at_nil (a : Z) (bs : list software_breakpoint) :
  records_at a bs = [] <-> (forall b, In b bs -> addr b <> a).
Proof.
  unfold records_at. induction bs as [|b bs IH]; simpl.
  - split; [intros _ b []|reflexivity].
  - destruct (Z.eqb_spec (addr b) a) as [E|E].
    + split; [discriminate|]. intros H. exfalso. apply (H b); [now left|exact E].
    + rewrite IH. split.
      * intros H b' [<-|Hb']; [exact E|now apply H].
      * intros H b' Hb'. apply H. now right.
Qed.

Lemma records_at_cons (a : Z) (b : software_breakpoint)
  (bs : list software_breakpoint) :
  records_at a (b :: bs)
  = if addr b =? a then b :: records_at a bs else records_at a bs.
Proof. reflexivity. Qed.

Lemma enable_existing_none (a : Z) (bs : list software_breakpoint) :
  enable_existing a bs = None <-> records_at a bs = [].
Proof.
  induction bs as [|b bs IH]; cbn [enable_existing]; rewrite ?records_at_cons.
  - split; reflexivity.
  - destruct (addr b =? a); [split; discriminate|].
    destruct (enable_existing a bs); rewrite <- IH; split; congruence.
Qed.

(** A successful search enables the first record at the address and
    changes nothing else. *)
Lemma enable_existing_some (a : Z) (bs bs' : list software_breakpoint) :
  enable_existing a bs = Some bs' ->
  exists pre b post,
    bs = pre ++ b :: post /\ addr b = a /\ records_at a pre = [] /\
    bs' = pre ++ set_enabled true b :: post.
Proof.
  revert bs'. induction bs as [|b bs IH]; intros bs'; cbn [enable_existing];
    [discriminate|].
  destruct (Z.eqb_spec (addr b) a) as [E|E].
  - intros [= <-]. exists [], b, bs. repeat split; assumption.
  - destruct (enable_existing a bs) as [bs''|]; [|discriminate].
    intros [= <-]. destruct (IH bs'' eq_refl) as (pre & b0 & post & -> & Hb0 & Hpre & ->).
    exists (b :: pre), b0, post. repeat split; try assumption.
    rewrite records_at_cons. now destruct (Z.eqb_spec (addr b) a).
Qed.

Lemma records_at_app (a : Z) (bs1 bs2 : list software_breakpoint) :
  records_at a (bs1 ++ bs2) = records_at a bs1 ++ records_at a bs2.
Proof. apply filter_app. Qed.

(** Flipping the flag of the first record at [a] keeps the records at
    every other address, and keeps the words of the records at [a]. *)
Lemma records_at_flip (a a' : Z) (e : bool)
  (pre post : list software_breakpoint) (b : software_breakpoint) :
  addr b = a -> records_at a pre = [] ->
  records_at a' (pre ++ set_enabled e b :: post)
  = if a' =? a then set_enabled e b :: records_at a post
    else records_at a' (pre ++ b :: post).
Proof.
  intros Hb Hpre. rewrite !records_at_app, !records_at_cons. simpl addr.
  rewrite Hb. destruct (Z.eqb_spec a' a) as [->|E].
  - now rewrite Hpre, Z.eqb_refl.
  - destruct (Z.eqb_spec a a'); [congruence|reflexivity].
Qed.

Lemma disable_search_spec (pid a : Z) (bs : list software_breakpoint)
  (s : sys) :
  (records_at a bs = [] /\ disable_search pid a bs s = (bs, s)) \/
  (exists pre b post,
     bs = pre ++ b :: post /\ addr b = a /\ records_at a pre = [] /\
     disable_search pid a bs s
     = (pre ++ set_enabled false b :: post,
        snd (ptrace_pokedata pid a (patched_instruction b) s))).
Proof.
  induction bs as [|b bs IH]; cbn [disable_search].
  - left. split; reflexivity.
  - rewrite records_at_cons. destruct (Z.eqb_spec (addr b) a) as [E|E].
    + right. exists [], b, bs. rewrite E. repeat split.
    + destruct IH as [[Hnil ->]|(pre & b0 & post & -> & Hb0 & Hpre & ->)].
      * left. split; [assumption|reflexivity].
      * right. exists (b :: pre), b0, post. repeat split; try assumption.
        rewrite records_at_cons. now destruct (Z.eqb_spec (addr b) a).
Qed.

Lemma register_breakpoint_table (pid a : Z) (w : world) :
  b_HEAD (register_breakpoint pid a w)
  = match enable_existing a (b_HEAD w) with
    | Some bs => bs
    | None =>
        let i := uint64 (fst (sys_peekdata pid a (kern (os w)))) in
        mk_bp a i (INSTALL_BREAKPOINT i) true :: b_HEAD w
    end.
Proof.
  unfold register_breakpoint. cbn.
  now destruct (enable_existing a (b_HEAD w)).
Qed.

Lemma disable_breakpoint_table (pid a : Z) (w : world) :
  b_HEAD (disable_breakpoint pid a w)
  = fst (disable_search pid a (b_HEAD w) (os w)).
Proof.
  unfold disable_breakpoint.
  now destruct (disable_search pid a (b_HEAD w) (os w)).
Qed.

(** A table call at another address does not touch the records at [a]. *)
Lemma run_bp_call_elsewhere (a : Z) (c : bp_call) (w : world) :
  (match c with Install _ a' | Disable _ a' => a' <> a end) ->
  records_at a (b_HEAD (run_bp_call c w)) = records_at a (b_HEAD w).
Proof.
  destruct c as [pid a'|pid a']; intros Hne; cbn [run_bp_call].
  - rewrite register_breakpoint_table.
    destruct (enable_existing a' (b_HEAD w)) as [bs|] eqn:Een.
    + apply enable_existing_some in Een.
      destruct Een as (pre & b & post & -> & Hb & Hpre & ->).
      rewrite (@records_at_flip a' a _ pre post b Hb Hpre).
      destruct (Z.eqb_spec a a'); [congruence|reflexivity].
    + cbn zeta. rewrite records_at_cons. simpl addr.
      destruct (Z.eqb_spec a' a); [contradiction|reflexivity].
  - rewrite disable_breakpoint_table.
    destruct (disable_search_spec pid a' (b_HEAD w) (os w))
      as [[_ ->]|(pre & b & post & E & Hb & Hpre & ->)]; [reflexivity|].
    cbn [fst]. rewrite E, (@records_at_flip a' a _ pre post b Hb Hpre).
    destruct (Z.eqb_spec a a'); [congruence|reflexivity].
Qed.

(** Disabling where there is no record changes no table. *)
Lemma disable_absent (pid a : Z) (w : world) :
  records_at a (b_HEAD w) = [] ->
  b_HEAD (disable_breakpoint pid a w) = b_HEAD w.
Proof.
  intros Hnil. rewrite disable_breakpoint_table.
  destruct (disable_search_spec pid a (b_HEAD w) (os w))
    as [[_ ->]|(pre & b & post & E & Hb & Hpre & _)]; [reflexivity|].
  exfalso. rewrite E, records_at_app, records_at_cons, Hb, Z.eqb_refl in Hnil.
  now destruct (records_at a pre).
Qed.

Lemma sole_record_flip (a i p : Z) (e : bool)
  (pre post : list software_breakpoint) (b : software_breakpoint) :
  addr b = a -> records_at a pre = [] ->
  sole_record a i p (pre ++ b :: post) ->
  sole_record a i p (pre ++ set_enabled e b :: post).
Proof.
  intros Hb Hpre [e0 H].
  rewrite records_at_app, Hpre, records_at_cons, Hb, Z.eqb_refl in H.
  simpl in H. injection H as Eb Hpost.
  exists e. rewrite (@records_at_flip a a e pre post b Hb Hpre), Z.eqb_refl.
  rewrite Hpost, Eb. reflexivity.
Qed.

Lemma run_bp_call_keeps_sole (a i p : Z) (c : bp_call) (w : world) :
  sole_record a i p (b_HEAD w) ->
  sole_record a i p (b_HEAD (run_bp_call c w)).
Proof.
  intros Hsole.
  assert (Hdec : (match c with Install _ a' | Disable _ a' => a' <> a end) \/
                 (match c with Install _ a' | Disable _ a' => a' = a end)).
  { destruct c as [pid a'|pid a']; destruct (Z.eq_dec a' a); auto. }
  destruct Hdec as [Hne|Heq].
  - destruct Hsole as [e He]. exists e.
    now rewrite run_bp_call_elsewhere.
  - destruct c as [pid a'|pid a']; subst a'; cbn [run_bp_call].
    + rewrite register_breakpoint_table.
      destruct (enable_existing a (b_HEAD w)) as [bs|] eqn:Een.
      * apply enable_existing_some in Een.
        destruct Een as (pre & b & post & E & Hb & Hpre & ->).
        rewrite E in Hsole. now apply sole_record_flip.
      * apply enable_existing_none in Een. destruct Hsole as [e He].
        rewrite Een in He. discriminate.
    + rewrite disable_breakpoint_table.
      destruct (disable_search_spec pid a (b_HEAD w) (os w))
        as [[_ ->]|(pre & b & post & E & Hb & Hpre & ->)]; [assumption|].
      cbn [fst]. rewrite E in Hsole. now apply sole_record_flip.
Qed.

Lemma run_bp_calls_keep_sole (a i p : Z) (cs : list bp_call) (w : world) :
  sole_record a i p (b_HEAD w) ->
  sole_record a i p (b_HEAD (run_bp_calls cs w)).
Proof.
  unfold run_bp_calls. revert w.
  induction cs as [|c cs IH]; intros w Hsole; cbn [fold_left];
    [assumption|].
  apply IH. now apply run_bp_call_keeps_sole.
Qed.

Lemma run_bp_calls_keep_absent (a : Z) (cs : list bp_call) (w : world) :
  forallb (fun c => negb (is_install_at a c)) cs = true ->
  records_at a (b_HEAD w) = [] ->
  records_at a (b_HEAD (run_bp_calls cs w)) = [].
Proof.
  unfold run_bp_calls. revert w.
  induction cs as [|c cs IH]; intros w Hcs Hnil; cbn [fold_left];
    [assumption|].
  cbn [forallb] in Hcs. apply andb_true_iff in Hcs. destruct Hcs as [Hc Hcs].
  apply IH; [assumption|].
  destruct c as [pid a'|pid a']; cbn [is_install_at] in Hc.
  - rewrite run_bp_call_elsewhere; [assumption|].
    apply negb_true_iff in Hc. now apply Z.eqb_neq.
  - destruct (Z.eq_dec a' a) as [->|Hne].
    + cbn [run_bp_call]. now rewrite disable_absent.
    + now rewrite (@run_bp_call_elsewhere a (Disable pid a') w Hne).
Qed.

Lemma run_bp_calls_app (cs1 cs2 : list bp_call) (w : world) :
  run_bp_calls (cs1 ++ cs2) w = run_bp_calls cs2 (run_bp_calls cs1 w).
Proof. apply fold_left_app. Qed.

Lemma run_bp_calls_cons (c : bp_call) (cs : list bp_call) (w : world) :
  run_bp_calls (c :: cs) w = run_bp_calls cs (run_bp_call c w).
Proof. reflexivity. Qed.

(** C1.  Start from a table without a record at [a] and run any calls
    that do not install at [a], then an install at [a], then any
    installs and disables at any addresses.  The table then holds
    exactly one record at [a]; its original word is the [long] that the
    PEEKDATA of that first install returned, read as a 64-bit word, and
    its patched word is INSTALL_BREAKPOINT of it.  The result of that
    PEEKDATA is not checked.  When it was the word in tracee memory at
    [a] just before that install, the original word of the record is
    that word; when it was -1, the record holds the all-ones word.
    Besides, an install at an address that already has a record changes
    the table only by setting [enabled] in the first record at that
    address. *)
Theorem install_keeps_first_words (word_at : kstate -> Z -> Z) (a pid : Z)
  (cs1 cs2 : list bp_call) (w : world) :
  records_at a (b_HEAD w) = [] ->
  forallb (fun c => negb (is_install_at a c)) cs1 = true ->
  let before := kern (os (run_bp_calls cs1 w)) in
  let peeked := fst (sys_peekdata pid a before) in
  let final := b_HEAD (run_bp_calls (cs1 ++ Install pid a :: cs2) w) in
  (exists e,
     records_at a final
     = [mk_bp a (peeked mod 2 ^ 64)
              (INSTALL_BREAKPOINT (peeked mod 2 ^ 64)) e]) /\
  (peeked mod 2 ^ 64 = word_at before a ->
   exists e,
     records_at a final
     = [mk_bp a (word_at before a)
              (INSTALL_BREAKPOINT (word_at before a)) e]) /\
  (peeked = -1 ->
   exists e,
     records_at a final
     = [mk_bp a (2 ^ 64 - 1) (INSTALL_BREAKPOINT (2 ^ 64 - 1)) e]) /\
  (forall pid' w2,
     records_at a (b_HEAD w2) <> [] ->
     exists pre b post,
       b_HEAD w2 = pre ++ b :: post /\ addr b = a /\
       records_at a pre = [] /\
       b_HEAD (register_breakpoint pid' a w2)
       = pre ++ mk_bp a (instruction b) (patched_instruction b) true :: post).
Proof.
  intros Hnil Hcs1. cbn zeta.
  assert (Hsole : exists e,
             records_at a
               (b_HEAD (run_bp_calls (cs1 ++ Install pid a :: cs2) w))
             = [mk_bp a
                  (fst (sys_peekdata pid a (kern (os (run_bp_calls cs1 w))))
                   mod 2 ^ 64)
                  (INSTALL_BREAKPOINT
                     (fst (sys_peekdata pid a
                             (kern (os (run_bp_calls cs1 w)))) mod 2 ^ 64))
                  e]).
  { rewrite run_bp_calls_app, run_bp_calls_cons.
    set (w1 := run_bp_calls cs1 w).
    assert (H1 : records_at a (b_HEAD w1) = [])
      by now apply run_bp_calls_keep_absent.
    apply (@run_bp_calls_keep_sole a _ _ cs2 (run_bp_call (Install pid a) w1)).
    cbn [run_bp_call]. rewrite register_breakpoint_table.
    apply enable_existing_none in H1 as Hen. rewrite Hen. cbn zeta.
    exists true. now rewrite records_at_cons, H1, Z.eqb_refl. }
  split; [exact Hsole|]. split; [|split].
  - intros Hread. rewrite <- Hread. exact Hsole.
  - intros Hfail. rewrite Hfail in Hsole. exact Hsole.
  - intros pid' w2 Hrec. rewrite register_breakpoint_table.
    destruct (enable_existing a (b_HEAD w2)) as [bs|] eqn:Een.
    + apply enable_existing_some in Een.
      destruct Een as (pre & b & post & E & Hb & Hpre & ->).
      exists pre, b, post. unfold set_enabled. rewrite Hb. repeat split;
        assumption.
    + apply enable_existing_none in Een. contradiction.
Qed.

(** C5.  When the table has a record at [address], [disable_breakpoint]
    clears the flag of the first such record and keeps its words, leaves
    every other record and the thread table alone, and issues exactly
    one call: a POKEDATA of the record's patched word at [address].  On a
    memory that behaves as a store of words, the word at [address] is
    then the patched word. *)
Theorem disable_breakpoint_pokes_patched (pid address : Z) (w : world)
  (pre post : list software_breakpoint) (b : software_breakpoint) :
  b_HEAD w = pre ++ b :: post ->
  addr b = address ->
  records_at address pre = [] ->
  let w' := disable_breakpoint pid address w in
  b_HEAD w'
  = pre ++ mk_bp address (instruction b) (patched_instruction b) false :: post /\
  t_HEAD w' = t_HEAD w /\
  emits (os w) (os w')
        [PokeData pid address (patched_instruction b)
           (fst (sys_pokedata pid address (patched_instruction b)
                              (kern (os w))))] /\
  kern (os w')
  = snd (sys_pokedata pid address (patched_instruction b) (kern (os w))) /\
  (forall word_at code,
     word_store word_at code -> code address ->
     word_at (kern (os w')) address = patched_instruction b).
Proof.
  intros E Hb Hpre w'. subst w'. unfold disable_breakpoint.
  destruct (disable_search_spec pid address (b_HEAD w) (os w))
    as [[Hnil _]|(pre' & b' & post' & E' & Hb' & Hpre' & ->)].
  - exfalso. rewrite E, records_at_app, records_at_cons, Hb, Z.eqb_refl in Hnil.
    now destruct (records_at address pre).
  - assert (pre' = pre /\ b' = b /\ post' = post) as (-> & -> & ->).
    { rewrite E in E'. clear - E' Hb Hb' Hpre Hpre'.
      revert pre' E' Hpre'. induction pre as [|p pre IH]; intros pre' E' Hpre'.
      - destruct pre' as [|p' pre']; simpl in E'.
        + injection E' as -> ->. repeat split.
        + injection E' as -> _. rewrite records_at_cons, Hb, Z.eqb_refl in Hpre'.
          discriminate.
      - destruct pre' as [|p' pre']; simpl in E'.
        + injection E' as -> _. rewrite records_at_cons, Hb', Z.eqb_refl in Hpre.
          discriminate.
        + injection E' as -> E'.
          rewrite records_at_cons in Hpre, Hpre'.
          destruct (addr p' =? address); [discriminate|].
          destruct (IH Hpre pre' E' Hpre') as (-> & -> & ->). repeat split. }
    cbn. unfold set_enabled. rewrite Hb. repeat split.
    intros word_at code Hstore Hcode. now apply (poke_hit Hstore).
Qed.

(* ------------------------------------------------------------------ *)
(** ** The phases of [wait_all_and_update_regs] *)

Lemma wait_nodes_app (old : Z) (tr1 tr2 : list event) :
  wait_nodes old (tr1 ++ tr2)
  = wait_nodes old tr1 ++ wait_nodes (status_after old tr1) tr2.
Proof.
  revert old. induction tr1 as [|e tr1 IH]; intros old; simpl;
    [reflexivity|].
  destruct e; simpl; now rewrite ?IH.
Qed.

Lemma status_after_app (old : Z) (tr1 tr2 : list event) :
  status_after old (tr1 ++ tr2) = status_after (status_after old tr1) tr2.
Proof.
  revert old. induction tr1 as [|e tr1 IH]; intros old; simpl;
    [reflexivity|].
  destruct e; simpl; now rewrite ?IH.
Qed.

(** The probe loop pushes the node of each of its waits in front of the
    list, keeps the tids of the table, and issues probe calls only. *)
Lemma stop_others_spec (pid : Z) (ts : list thread) (st : wait_state) :
  exists ev,
    emits (ws_sys st) (ws_sys (snd (stop_others pid ts st))) ev /\
    Forall (fun e => probe_call e = true) ev /\
    map tid (fst (stop_others pid ts st)) = map tid ts /\
    ws_list (snd (stop_others pid ts st))
    = rev (wait_nodes (ws_temp_status st) ev) ++ ws_list st /\
    ws_temp_status (snd (stop_others pid ts st))
    = status_after (ws_temp_status st) ev.
Proof.
  revert st. induction ts as [|t ts IH]; intros st; cbn [stop_others].
  - exists []. cbn. split; [apply emits_refl|]. repeat split. constructor.
  - destruct (negb (tid t =? ts_tid (ws_head st))).
    + pose proof (ptrace_getregs_emits (tid t) (ws_sys st)) as Hg.
      destruct (ptrace_getregs (tid t) (ws_sys st)) as [res s1].
      cbn [fst snd] in Hg. destruct res as [r|].
      * specialize (IH (mk_wait s1 (ws_temp_status st) (ws_head st)
                                (ws_next st))).
        destruct (stop_others pid ts _) as [ts'' st'].
        destruct IH as (ev & Hev & Hall & Htid & Hlist & Hst).
        cbn [fst snd ws_sys ws_temp_status] in *.
        exists (GetRegs (tid t) (Some r) :: ev).
        split; [|split; [|split; [|split]]].
        -- exact (emits_trans Hg Hev).
        -- constructor; [reflexivity|assumption].
        -- cbn. now rewrite Htid.
        -- exact Hlist.
        -- exact Hst.
      * pose proof (tgkill_emits pid (tid t) SIGSTOP s1) as Hk.
        destruct (tgkill pid (tid t) SIGSTOP s1) as [rk s2].
        cbn [fst snd] in Hk.
        pose proof (waitpid_emits (tid t) 0 s2) as Hw.
        destruct (waitpid (tid t) 0 s2) as [wr s3].
        cbn [fst snd] in Hw.
        match goal with
        | |- context [stop_others pid ts ?st1] => specialize (IH st1)
        end.
        destruct (stop_others pid ts _) as [ts'' st'].
        destruct IH as (ev & Hev & Hall & Htid & Hlist & Hst).
        cbn [fst snd ws_sys ws_temp_status] in *.
        exists (GetRegs (tid t) None :: Tgkill pid (tid t) SIGSTOP rk
                :: Waitpid (tid t) 0 (fst wr) (snd wr) :: ev).
        split; [|split; [|split; [|split]]].
        -- exact (emits_trans Hg (emits_trans Hk (emits_trans Hw Hev))).
        -- repeat constructor. assumption.
        -- cbn. now rewrite Htid.
        -- rewrite Hlist. cbn [wait_nodes rev ws_list ws_head ws_next].
           now rewrite <- app_assoc.
        -- exact Hst.
    + specialize (IH st). destruct (stop_others pid ts st) as [ts'' st'].
      destruct IH as (ev & Hev & Hall & Htid & Hlist & Hst).
      cbn [fst snd] in *. exists ev. repeat split; try assumption.
      cbn. now rewrite Htid.
Qed.

(** The drain pushes the node of every poll that reported a thread and
    ends with the poll that reported none. *)
Lemma drain_spec (fuel : nat) (st st' : wait_state) :
  drain fuel st = Some st' ->
  exists ev dry,
    emits (ws_sys st) (ws_sys st') (ev ++ [dry]) /\
    Forall (fun e => drained_call e = true) ev /\
    dry_poll dry = true /\
    ws_list st' = rev (wait_nodes (ws_temp_status st) ev) ++ ws_list st.
Proof.
  revert st. induction fuel as [|fuel IH]; intros st; cbn [drain];
    [discriminate|].
  pose proof (waitpid_emits (-1) (Z.lor WNOHANG __WALL) (ws_sys st)) as Hw.
  destruct (waitpid (-1) (Z.lor WNOHANG __WALL) (ws_sys st)) as [wr s1].
  cbn [fst snd] in Hw.
  destruct (Z.gtb_spec (fst wr) 0) as [Hpos|Hnpos].
  - intros Hd. apply IH in Hd.
    destruct Hd as (ev & dry & Hev & Hall & Hdry & Hlist).
    cbn [ws_sys ws_temp_status] in *.
    exists (Waitpid (-1) (Z.lor WNOHANG __WALL) (fst wr) (snd wr) :: ev), dry.
    split; [|split; [|split]].
    + exact (emits_trans Hw Hev).
    + constructor; [|assumption]. cbn [drained_call].
      rewrite !Z.eqb_refl. cbn [andb]. now apply Z.gtb_lt.
    + assumption.
    + rewrite Hlist. cbn [wait_nodes rev ws_list ws_head ws_next].
      now rewrite <- app_assoc.
  - intros [= <-]. cbn [ws_sys ws_list ws_head ws_next].
    exists [], (Waitpid (-1) (Z.lor WNOHANG __WALL) (fst wr) (snd wr)).
    split; [|split; [|split]].
    + exact Hw.
    + constructor.
    + cbn [dry_poll]. rewrite !Z.eqb_refl. cbn [andb]. now apply Z.leb_le.
    + reflexivity.
Qed.

(** Enough fuel: the drain returns as soon as the polls run dry. *)
Lemma drain_returns (fuel : nat) (st : wait_state) :
  polls_dry fuel (kern (ws_sys st)) = true ->
  exists st', drain fuel st = Some st'.
Proof.
  revert st. induction fuel as [|fuel IH]; intros st; cbn [drain polls_dry];
    [discriminate|].
  cbn [waitpid fst snd].
  destruct (fst (fst (sys_waitpid (-1) (Z.lor WNOHANG __WALL)
                                  (kern (ws_sys st)))) >? 0).
  - intros Hd. apply IH. exact Hd.
  - intros _. eexists. reflexivity.
Qed.

Lemma update_regs_spec (ts : list thread) (s : sys) :
  exists ev,
    emits s (snd (update_regs ts s)) ev /\
    Forall (fun e => is_getregs e = true) ev /\
    map tid (fst (update_regs ts s)) = map tid ts.
Proof.
  revert s. induction ts as [|t ts IH]; intros s; cbn [update_regs].
  - exists []. split; [apply emits_refl|]. split; [constructor|reflexivity].
  - pose proof (ptrace_getregs_emits (tid t) s) as Hg.
    destruct (ptrace_getregs (tid t) s) as [res s1]. cbn [fst snd] in Hg.
    specialize (IH s1). destruct (update_regs ts s1) as [ts'' s2].
    destruct IH as (ev & Hev & Hall & Htid). cbn [fst snd] in *.
    exists (GetRegs (tid t) res :: ev).
    split; [|split].
    + exact (emits_trans Hg Hev).
    + constructor; [reflexivity|assumption].
    + cbn. rewrite Htid. now destruct res.
Qed.

Lemma restore_breakpoints_spec (pid : Z) (bs : list software_breakpoint)
  (s : sys) :
  exists ev,
    emits s (restore_breakpoints pid bs s) ev /\
    Forall (fun e => is_poke e = true) ev /\
    pokes ev = restoring_writes pid bs.
Proof.
  unfold restoring_writes.
  revert s. induction bs as [|b bs IH]; intros s; cbn [restore_breakpoints].
  - exists []. split; [apply emits_refl|]. split; [constructor|reflexivity].
  - destruct (enabled b) eqn:Eb; cbn [filter]; rewrite Eb.
    + pose proof (ptrace_pokedata_emits pid (addr b) (instruction b) s) as Hp.
      destruct (IH (snd (ptrace_pokedata pid (addr b) (instruction b) s)))
        as (ev & Hev & Hall & Hpk).
      eexists (_ :: ev).
      split; [|split].
      * exact (emits_trans Hp Hev).
      * constructor; [reflexivity|assumption].
      * cbn. now rewrite Hpk.
    + apply IH.
Qed.

(* ------------------------------------------------------------------ *)
(** ** [wait_all_and_update_regs] *)

(** The run of [wait_all_and_update_regs] after a successful first wait,
    phase by phase. *)
Lemma wait_all_phases (h0 t0 : Z) (fuel : nat) (pid : Z) (w w' : world)
  (l : list thread_status) :
  wait_all_and_update_regs h0 t0 fuel pid w = Some (Some l, w') ->
  exists r st probe drained dry refresh restore,
    emits (os w) (os w')
          (Waitpid (-1) __WALL r st
           :: probe ++ (drained ++ [dry]) ++ refresh ++ restore) /\
    r <> -1 /\
    Forall (fun e => probe_call e = true) probe /\
    Forall (fun e => drained_call e = true) drained /\
    dry_poll dry = true /\
    Forall (fun e => is_getregs e = true) refresh /\
    Forall (fun e => is_poke e = true) restore /\
    pokes restore = restoring_writes pid (b_HEAD w) /\
    l = rev (wait_nodes (status_after t0 probe) drained)
        ++ rev (wait_nodes t0 probe) ++ [mk_status r (stored h0 st)] /\
    map tid (t_HEAD w') = map tid (t_HEAD w) /\
    b_HEAD w' = b_HEAD w.
Proof.
  unfold wait_all_and_update_regs.
  pose proof (waitpid_emits (-1) __WALL (os w)) as Hw.
  destruct (waitpid (-1) __WALL (os w)) as [wr s1]. cbn [fst snd] in Hw.
  cbn [ts_tid].
  destruct (Z.eqb_spec (fst wr) (-1)) as [E|E]; [discriminate|].
  match goal with
  | |- context [stop_others pid (t_HEAD w) ?st0] =>
      destruct (stop_others_spec pid (t_HEAD w) st0)
        as (probe & Hprobe & Hpall & Htid1 & Hlist1 & Hst1);
      destruct (stop_others pid (t_HEAD w) st0) as [ts1 st1]
  end.
  cbn [fst snd ws_sys ws_temp_status] in *.
  destruct (drain fuel st1) as [st2|] eqn:Ed; [|discriminate].
  apply drain_spec in Ed.
  destruct Ed as (drained & dry & Hdrain & Hdall & Hdry & Hlist2).
  destruct (update_regs_spec ts1 (ws_sys st2)) as (refresh & Hre & Hreall & Htid2).
  destruct (update_regs ts1 (ws_sys st2)) as [ts2 s2]. cbn [fst snd] in *.
  destruct (restore_breakpoints_spec pid (b_HEAD w) s2)
    as (restore & Hrs & Hrsall & Hpk).
  intros [= <- <-]. cbn [os t_HEAD b_HEAD].
  exists (fst wr), (snd wr), probe, drained, dry, refresh, restore.
  split; [|repeat split; try assumption].
  - exact (emits_trans Hw (emits_trans Hprobe
             (emits_trans Hdrain (emits_trans Hre Hrs)))).
  - rewrite Hlist2, Hlist1, Hst1. cbn [ws_list ws_head ws_next].
    reflexivity.
  - now rewrite Htid2, Htid1.
Qed.

(** Enough fuel: after a successful first wait the call returns a list
    as soon as the non-blocking polls run dry. *)
Lemma wait_all_returns (h0 t0 : Z) (fuel : nat) (pid : Z) (w : world) :
  fst (fst (sys_waitpid (-1) __WALL (kern (os w)))) <> -1 ->
  polls_dry fuel (kernel_at_drain h0 t0 pid w) = true ->
  exists l w', wait_all_and_update_regs h0 t0 fuel pid w = Some (Some l, w').
Proof.
  unfold wait_all_and_update_regs, kernel_at_drain.
  cbn [waitpid fst snd ts_tid]. intros Hok.
  destruct (Z.eqb_spec (fst (fst (sys_waitpid (-1) __WALL (kern (os w)))))
                       (-1)) as [E|_]; [contradiction|].
  destruct (stop_others pid (t_HEAD w) _) as [ts1 st1]. cbn [snd].
  intros Hdry. destruct (drain_returns fuel st1 Hdry) as [st2 ->].
  destruct (update_regs ts1 (ws_sys st2)) as [ts2 s2].
  eexists. eexists. reflexivity.
Qed.

(** C7.  The list returned by [wait_all_and_update_regs] is newest
    first.  When the first wait succeeds and the non-blocking polls run
    dry within the fuel, the call returns a list.  Its calls are, in
    order: the first blocking wait on any thread, the probes, the polls
    that reported a thread, the poll that reported none, and then calls
    that are no waits.  The list is made of the nodes of the reporting
    polls, latest first, then the nodes of the waits of the probes,
    latest first, then the node of the first wait as the last element. *)
Theorem wait_all_list_newest_first (h0 t0 : Z) (fuel : nat) (pid : Z)
  (w : world) :
  fst (fst (sys_waitpid (-1) __WALL (kern (os w)))) <> -1 ->
  polls_dry fuel (kernel_at_drain h0 t0 pid w) = true ->
  exists l w',
    wait_all_and_update_regs h0 t0 fuel pid w = Some (Some l, w') /\
    exists r st probe drained dry rest,
      emits (os w) (os w')
            (Waitpid (-1) __WALL r st :: probe ++ drained ++ dry :: rest) /\
      Forall (fun e => probe_call e = true) probe /\
      Forall (fun e => drained_call e = true) drained /\
      dry_poll dry = true /\
      Forall (fun e => is_waitpid e = false) rest /\
      l = rev (wait_nodes (status_after t0 probe) drained)
          ++ rev (wait_nodes t0 probe)
          ++ [mk_status r (stored h0 st)] /\
      rev l = mk_status r (stored h0 st)
              :: wait_nodes t0 (probe ++ drained).
Proof.
  intros Hok Hdry.
  destruct (wait_all_returns h0 t0 fuel pid w Hok Hdry) as (l & w' & Hrun).
  exists l, w'. split; [exact Hrun|].
  apply wait_all_phases in Hrun.
  destruct Hrun as (r & st & probe & drained & dry & refresh & restore
                    & Hev & _ & Hp & Hd & Hdr & Hre & Hrs & _ & Hl & _ & _).
  exists r, st, probe, drained, dry, (refresh ++ restore).
  split; [|split; [|split; [|split; [|split; [|split]]]]]; try assumption.
  - rewrite <- app_assoc in Hev. exact Hev.
  - apply Forall_app. split.
    + eapply Forall_impl; [|exact Hre]. intros e He. now destruct e.
    + eapply Forall_impl; [|exact Hrs]. intros e He. now destruct e.
  - rewrite Hl, !rev_app_distr, !rev_involutive, wait_nodes_app.
    reflexivity.
Qed.

(** C8.  When the first blocking wait returns -1, the call returns the
    NULL list whatever the fuel; that wait is the only call it issues
    (no GETREGS, no SIGSTOP, no POKEDATA), and the thread table and the
    breakpoint table are as before. *)
Theorem wait_all_primary_failure (h0 t0 : Z) (fuel : nat) (pid : Z)
  (w : world) :
  fst (fst (sys_waitpid (-1) __WALL (kern (os w)))) = -1 ->
  exists w',
    wait_all_and_update_regs h0 t0 fuel pid w = Some (None, w') /\
    emits (os w) (os w')
          [Waitpid (-1) __WALL (-1)
                   (snd (fst (sys_waitpid (-1) __WALL (kern (os w)))))] /\
    kern (os w') = snd (sys_waitpid (-1) __WALL (kern (os w))) /\
    t_HEAD w' = t_HEAD w /\
    b_HEAD w' = b_HEAD w.
Proof.
  intros Hfail. unfold wait_all_and_update_regs.
  cbn [waitpid fst snd ts_tid]. rewrite Hfail. cbn [Z.eqb Pos.eqb].
  eexists. split; [reflexivity|]. cbn [os t_HEAD b_HEAD kern].
  repeat split.
Qed.

(* ------------------------------------------------------------------ *)
(** ** Tracee memory under the breakpoint table *)

Lemma addr_inj (bs : list software_breakpoint) (b b' : software_breakpoint) :
  NoDup (map addr bs) -> In b bs -> In b' bs -> addr b = addr b' -> b = b'.
Proof.
  induction bs as [|b0 bs IH]; intros Hnd Hb Hb' E; [destruct Hb|].
  cbn [map] in Hnd. inversion Hnd as [|? ? Hnotin Hnd']; subst.
  destruct Hb as [->|Hb], Hb' as [->|Hb'].
  - reflexivity.
  - exfalso. apply Hnotin. rewrite E. now apply in_map.
  - exfalso. apply Hnotin. rewrite <- E. now apply in_map.
  - now apply IH.
Qed.

Section WordStore.

Variable word_at : kstate -> Z -> Z.
Variable code : Z -> Prop.
Hypothesis store : word_store word_at code.

Lemma stop_others_quiet (pid : Z) (ts : list thread) (st : wait_state)
  (a : Z) :
  code a ->
  word_at (kern (ws_sys (snd (stop_others pid ts st)))) a
  = word_at (kern (ws_sys st)) a.
Proof.
  intros Ha. revert st.
  induction ts as [|t ts IH]; intros st; cbn [stop_others]; [reflexivity|].
  destruct (negb (tid t =? ts_tid (ws_head st))).
  - pose proof (getregs_quiet store (tid t) (kern (ws_sys st)) a Ha) as Hg.
    cbn [ptrace_getregs].
    destruct (fst (sys_getregs (tid t) (kern (ws_sys st)))) as [r|].
    + match goal with
      | |- context [stop_others pid ts ?st1] =>
          specialize (IH st1); destruct (stop_others pid ts st1)
      end.
      cbn [fst snd ws_sys kern] in *. now rewrite IH.
    + cbn [tgkill waitpid fst snd].
      match goal with
      | |- context [stop_others pid ts ?st1] =>
          specialize (IH st1); destruct (stop_others pid ts st1)
      end.
      cbn [fst snd ws_sys kern] in *.
      now rewrite IH, (waitpid_quiet store), (tgkill_quiet store).
  - specialize (IH st). destruct (stop_others pid ts st).
    cbn [snd] in *. exact IH.
Qed.

Lemma drain_quiet (fuel : nat) (st st' : wait_state) (a : Z) :
  code a -> drain fuel st = Some st' ->
  word_at (kern (ws_sys st')) a = word_at (kern (ws_sys st)) a.
Proof.
  intros Ha. revert st.
  induction fuel as [|fuel IH]; intros st; cbn [drain]; [discriminate|].
  cbn [waitpid fst snd].
  destruct (fst (fst (sys_waitpid (-1) (Z.lor WNOHANG __WALL)
                                  (kern (ws_sys st)))) >? 0).
  - intros Hd. apply IH in Hd. cbn [ws_sys kern] in Hd.
    now rewrite Hd, (waitpid_quiet store).
  - intros [= <-]. cbn [ws_sys kern]. now apply (waitpid_quiet store).
Qed.

Lemma update_regs_quiet (ts : list thread) (s : sys) (a : Z) :
  code a ->
  word_at (kern (snd (update_regs ts s))) a = word_at (kern s) a.
Proof.
  intros Ha. revert s.
  induction ts as [|t ts IH]; intros s; cbn [update_regs]; [reflexivity|].
  cbn [ptrace_getregs].
  match goal with
  | |- context [update_regs ts ?s1] =>
      specialize (IH s1); destruct (update_regs ts s1)
  end.
  cbn [snd kern] in *. now rewrite IH, (getregs_quiet store).
Qed.

Lemma flush_regs_quiet (ts : list thread) (s : sys) (a : Z) :
  code a -> word_at (kern (flush_regs ts s)) a = word_at (kern s) a.
Proof.
  intros Ha. revert s.
  induction ts as [|t ts IH]; intros s; cbn [flush_regs]; [reflexivity|].
  rewrite IH. cbn [ptrace_setregs snd kern]. now apply (setregs_quiet store).
Qed.

Lemma cont_threads_quiet (ts : list thread) (s : sys) (a : Z) :
  code a -> word_at (kern (cont_threads ts s)) a = word_at (kern s) a.
Proof.
  intros Ha. revert s.
  induction ts as [|t ts IH]; intros s; cbn [cont_threads]; [reflexivity|].
  rewrite IH. cbn [ptrace_cont snd kern]. now apply (cont_quiet store).
Qed.

Lemma step_off_quiet (bs : list software_breakpoint) (ts : list thread)
  (status : Z) (s : sys) (a : Z) :
  code a ->
  word_at (kern (fst (step_off bs ts status s))) a = word_at (kern s) a.
Proof.
  intros Ha. revert status s.
  induction ts as [|t ts IH]; intros status s; cbn [step_off]; [reflexivity|].
  destruct (bp_hit (INSTRUCTION_POINTER (regs t)) bs); [|apply IH].
  cbn [ptrace_singlestep fst snd].
  destruct (negb (fst (sys_singlestep (tid t) (kern s)) =? 0)).
  - cbn [fst kern]. now apply (singlestep_quiet store).
  - cbn [waitpid fst snd].
    match goal with |- context [if ?c then _ else _] => destruct c end.
    + rewrite IH. cbn [kern].
      now rewrite (waitpid_quiet store), (singlestep_quiet store),
        (waitpid_quiet store), (singlestep_quiet store).
    + rewrite IH. cbn [kern].
      now rewrite (waitpid_quiet store), (singlestep_quiet store).
Qed.

(** After the restoring loop every enabled record has its original word
    in memory, and the words elsewhere are as before. *)
Lemma restore_breakpoints_words (pid : Z) (bs : list software_breakpoint)
  (s : sys) :
  NoDup (map addr bs) ->
  (forall b, In b bs -> code (addr b)) ->
  (forall b, In b bs -> enabled b = true ->
     word_at (kern (restore_breakpoints pid bs s)) (addr b) = instruction b) /\
  (forall a, code a ->
     (forall b, In b bs -> enabled b = true -> addr b <> a) ->
     word_at (kern (restore_breakpoints pid bs s)) a = word_at (kern s) a).
Proof.
  revert s. induction bs as [|b0 bs IH]; intros s Hnd Hcode.
  - split; [intros b []|reflexivity].
  - cbn [map] in Hnd. inversion Hnd as [|? ? Hnotin Hnd']; subst.
    assert (Hcode' : forall b, In b bs -> code (addr b))
      by (intros b Hb; apply Hcode; now right).
    cbn [restore_breakpoints]. destruct (enabled b0) eqn:E0.
    + destruct (IH (snd (ptrace_pokedata pid (addr b0) (instruction b0) s))
                   Hnd' Hcode') as [IHen IHout].
      split.
      * intros b [<-|Hb] Hen; [|now apply IHen].
        rewrite IHout.
        -- cbn [ptrace_pokedata snd kern]. apply (poke_hit store).
           apply Hcode. now left.
        -- apply Hcode. now left.
        -- intros b' Hb' _ E. apply Hnotin. rewrite <- E. now apply in_map.
      * intros a Ha Hout. rewrite IHout; [|assumption|].
        -- cbn [ptrace_pokedata snd kern]. apply (poke_miss store).
           ++ apply Hcode. now left.
           ++ assumption.
           ++ intros ->. apply (Hout b0); [now left|assumption|reflexivity].
        -- intros b' Hb'. apply Hout. now right.
    + destruct (IH s Hnd' Hcode') as [IHen IHout]. split.
      * intros b [<-|Hb] Hen; [congruence|now apply IHen].
      * intros a Ha Hout. apply IHout; [assumption|].
        intros b' Hb'. apply Hout. now right.
Qed.

(** The same for the arming loop, with the patched words. *)
Lemma arm_breakpoints_words (pid : Z) (bs : list software_breakpoint)
  (s : sys) :
  NoDup (map addr bs) ->
  (forall b, In b bs -> code (addr b)) ->
  (forall b, In b bs -> enabled b = true ->
     word_at (kern (arm_breakpoints pid bs s)) (addr b)
     = patched_instruction b) /\
  (forall a, code a ->
     (forall b, In b bs -> enabled b = true -> addr b <> a) ->
     word_at (kern (arm_breakpoints pid bs s)) a = word_at (kern s) a).
Proof.
  revert s. induction bs as [|b0 bs IH]; intros s Hnd Hcode.
  - split; [intros b []|reflexivity].
  - cbn [map] in Hnd. inversion Hnd as [|? ? Hnotin Hnd']; subst.
    assert (Hcode' : forall b, In b bs -> code (addr b))
      by (intros b Hb; apply Hcode; now right).
    cbn [arm_breakpoints]. destruct (enabled b0) eqn:E0.
    + destruct (IH (snd (ptrace_pokedata pid (addr b0)
                           (patched_instruction b0) s))
                   Hnd' Hcode') as [IHen IHout].
      split.
      * intros b [<-|Hb] Hen; [|now apply IHen].
        rewrite IHout.
        -- cbn [ptrace_pokedata snd kern]. apply (poke_hit store).
           apply Hcode. now left.
        -- apply Hcode. now left.
        -- intros b' Hb' _ E. apply Hnotin. rewrite <- E. now apply in_map.
      * intros a Ha Hout. rewrite IHout; [|assumption|].
        -- cbn [ptrace_pokedata snd kern]. apply (poke_miss store).
           ++ apply Hcode. now left.
           ++ assumption.
           ++ intros ->. apply (Hout b0); [now left|assumption|reflexivity].
        -- intros b' Hb'. apply Hout. now right.
    + destruct (IH s Hnd' Hcode') as [IHen IHout]. split.
      * intros b [<-|Hb] Hen; [congruence|now apply IHen].
      * intros a Ha Hout. apply IHout; [assumption|].
        intros b' Hb'. apply Hout. now right.
Qed.

(** The word under a disabled record is not the target of a write to an
    enabled one. *)
Lemma disabled_apart (bs : list software_breakpoint)
  (b b' : software_breakpoint) :
  NoDup (map addr bs) -> In b bs -> enabled b = false ->
  In b' bs -> enabled b' = true -> addr b' <> addr b.
Proof.
  intros Hnd Hb Hdis Hb' Hen E.
  assert (b' = b) by (eapply addr_inj; eassumption).
  subst b'. congruence.
Qed.

End WordStore.

(** The words in memory after a call of [wait_all_and_update_regs] that
    returns a list. *)
Lemma wait_all_words (word_at : kstate -> Z -> Z) (code : Z -> Prop)
  (h0 t0 : Z) (fuel : nat) (pid : Z) (w w' : world)
  (l : list thread_status) :
  word_store word_at code ->
  NoDup (map addr (b_HEAD w)) ->
  (forall b, In b (b_HEAD w) -> code (addr b)) ->
  wait_all_and_update_regs h0 t0 fuel pid w = Some (Some l, w') ->
  (forall b, In b (b_HEAD w) -> enabled b = true ->
     word_at (kern (os w')) (addr b) = instruction b) /\
  (forall a, code a ->
     (forall b, In b (b_HEAD w) -> enabled b = true -> addr b <> a) ->
     word_at (kern (os w')) a = word_at (kern (os w)) a).
Proof.
  intros Hstore Hnd Hcode. unfold wait_all_and_update_regs.
  cbn [waitpid fst snd ts_tid].
  destruct (fst (fst (sys_waitpid (-1) __WALL (kern (os w)))) =? -1);
    [discriminate|].
  match goal with
  | |- context [stop_others pid (t_HEAD w) ?st0] =>
      pose proof (fun a => @stop_others_quiet word_at code Hstore pid
                             (t_HEAD w) st0 a) as Hq1;
      destruct (stop_others pid (t_HEAD w) st0) as [ts1 st1]
  end.
  cbn [snd ws_sys kern] in Hq1.
  destruct (drain fuel st1) as [st2|] eqn:Ed; [|discriminate].
  pose proof (fun a Ha => @drain_quiet word_at code Hstore fuel st1 st2 a Ha Ed)
    as Hq2.
  pose proof (fun a => @update_regs_quiet word_at code Hstore ts1
                         (ws_sys st2) a) as Hq3.
  destruct (update_regs ts1 (ws_sys st2)) as [ts2 s2]. cbn [snd] in Hq3.
  intros [= _ <-]. cbn [os kern].
  destruct (@restore_breakpoints_words word_at code Hstore pid (b_HEAD w) s2
              Hnd Hcode) as [Hen Hout].
  split; [exact Hen|].
  intros a Ha Hap. rewrite Hout, Hq3, Hq2, Hq1 by assumption.
  now apply (waitpid_quiet Hstore).
Qed.

(** Whatever it returns, [wait_all_and_update_regs] keeps the table
    invariant. *)
Lemma wait_all_keeps_ok (word_at : kstate -> Z -> Z) (code : Z -> Prop)
  (h0 t0 : Z) (fuel : nat) (pid : Z) (w w' : world)
  (l : option (list thread_status)) :
  word_store word_at code ->
  bp_table_ok word_at code w ->
  wait_all_and_update_regs h0 t0 fuel pid w = Some (l, w') ->
  bp_table_ok word_at code w'.
Proof.
  intros Hstore (Hnd & Hcode & Hdis) Hrun. destruct l as [l|].
  - destruct (@wait_all_words word_at code h0 t0 fuel pid w w' l Hstore Hnd
                Hcode Hrun) as [_ Hout].
    apply wait_all_phases in Hrun.
    destruct Hrun as (r & st & probe & drained & dry & refresh & restore
                      & _ & _ & _ & _ & _ & _ & _ & _ & _ & _ & Hb).
    unfold bp_table_ok. rewrite Hb.
    split; [assumption|]. split; [assumption|].
    intros b Hin Hd. rewrite Hout.
    + now apply Hdis.
    + now apply Hcode.
    + intros b' Hb' Hen'. eapply disabled_apart; eassumption.
  - revert Hrun. unfold wait_all_and_update_regs.
    cbn [waitpid fst snd ts_tid].
    destruct (fst (fst (sys_waitpid (-1) __WALL (kern (os w)))) =? -1).
    + intros [= <-]. unfold bp_table_ok. cbn [b_HEAD os kern].
      split; [assumption|]. split; [assumption|].
      intros b Hin Hd. rewrite (waitpid_quiet Hstore) by now apply Hcode.
      now apply Hdis.
    + destruct (stop_others pid (t_HEAD w) _) as [ts1 st1].
      destruct (drain fuel st1) as [st2|]; [|discriminate].
      destruct (update_regs ts1 (ws_sys st2)). discriminate.
Qed.

(** C4, for the calls whose first wait succeeds.  Let tracee memory
    behave as a store of words on the breakpoint addresses, the table
    hold one record per address, and the patched word be in memory under
    every disabled record.  When the first wait succeeds and the
    non-blocking polls run dry within the fuel,
    [wait_all_and_update_regs] returns a list, and then the word in
    memory under every enabled record is its original word and the word
    under every disabled record is still its patched word; the POKEDATA
    calls of the run are exactly the writes of the original words of the
    enabled records, in table order. *)
Theorem memory_at_rest (word_at : kstate -> Z -> Z) (code : Z -> Prop)
  (h0 t0 : Z) (fuel : nat) (pid : Z) (w : world) :
  word_store word_at code ->
  bp_table_ok word_at code w ->
  fst (fst (sys_waitpid (-1) __WALL (kern (os w)))) <> -1 ->
  polls_dry fuel (kernel_at_drain h0 t0 pid w) = true ->
  exists l w',
    wait_all_and_update_regs h0 t0 fuel pid w = Some (Some l, w') /\
    b_HEAD w' = b_HEAD w /\
    (forall b, In b (b_HEAD w') -> enabled b = true ->
       word_at (kern (os w')) (addr b) = instruction b) /\
    (forall b, In b (b_HEAD w') -> enabled b = false ->
       word_at (kern (os w')) (addr b) = patched_instruction b) /\
    (exists ev,
       emits (os w) (os w') ev /\
       pokes ev = restoring_writes pid (b_HEAD w)).
Proof.
  intros Hstore (Hnd & Hcode & Hdis) Hok Hdry.
  destruct (wait_all_returns h0 t0 fuel pid w Hok Hdry) as (l & w' & Hrun).
  exists l, w'. split; [exact Hrun|].
  destruct (@wait_all_words word_at code h0 t0 fuel pid w w' l Hstore Hnd
              Hcode Hrun) as [Hen Hout].
  apply wait_all_phases in Hrun.
  destruct Hrun as (r & st & probe & drained & dry & refresh & restore
                    & Hev & _ & Hp & Hd & Hdr & Hre & Hrs & Hpk & _ & _ & Hb).
  split; [exact Hb|]. rewrite Hb.
  split; [exact Hen|]. split.
  - intros b Hin Hd0. rewrite Hout.
    + now apply Hdis.
    + now apply Hcode.
    + intros b' Hb' Hen'. eapply disabled_apart; eassumption.
  - eexists. split; [exact Hev|].
    cbn [pokes]. rewrite !pokes_app, Hpk.
    rewrite (@pokes_none probe), (@pokes_none drained), (@pokes_none refresh).
    + cbn. now destruct dry.
    + eapply Forall_impl; [|exact Hre]. intros e He. now destruct e.
    + eapply Forall_impl; [|exact Hd]. intros e He. now destruct e.
    + eapply Forall_impl; [|exact Hp]. intros e He. now destruct e.
Qed.

(* ------------------------------------------------------------------ *)
(** ** [cont_all_and_set_bps] *)

Lemma step_off_spec (bs : list software_breakpoint) (ts : list thread)
  (status : Z) (s : sys) :
  exists ev,
    emits s (fst (step_off bs ts status s)) ev /\
    Forall (fun e => is_step_or_wait e = true) ev /\
    match snd (step_off bs ts status s) with
    | None =>
        exists ts1 t ts2 pre r,
          ts = ts1 ++ t :: ts2 /\
          sitting_on_bp bs t = true /\
          step_off_trace bs ts1 status pre /\
          ev = pre ++ [SingleStep (tid t) r] /\ r <> 0
    | Some status' =>
        step_off_trace bs ts status ev /\ status' = status_after status ev
    end.
Proof.
  revert status s. induction ts as [|t ts IH]; intros status s;
    cbn [step_off].
  - exists []. split; [apply emits_refl|]. split; [constructor|].
    split; [constructor|reflexivity].
  - destruct (bp_hit (INSTRUCTION_POINTER (regs t)) bs) eqn:Ehit.
    + pose proof (ptrace_singlestep_emits (tid t) s) as H1.
      destruct (ptrace_singlestep (tid t) s) as [r s1]. cbn [fst snd] in H1.
      destruct (Z.eqb_spec r 0) as [->|Hr]; cbn [negb].
      * pose proof (waitpid_emits (tid t) 0 s1) as H2.
        destruct (waitpid (tid t) 0 s1) as [wr s2]. cbn [fst snd] in H2.
        destruct (Z.eqb_spec (stored status (snd wr)) STOPPED_BY_SIGSTOP)
          as [Est|Est].
        -- pose proof (ptrace_singlestep_emits (tid t) s2) as H3.
           destruct (ptrace_singlestep (tid t) s2) as [r2 s3].
           cbn [fst snd] in H3.
           pose proof (waitpid_emits (tid t) 0 s3) as H4.
           destruct (waitpid (tid t) 0 s3) as [wr' s4]. cbn [fst snd] in H4.
           destruct (IH (stored (stored status (snd wr)) (snd wr')) s4)
             as (ev & Hev & Hall & Hres).
           exists ([SingleStep (tid t) 0; Waitpid (tid t) 0 (fst wr) (snd wr);
                    SingleStep (tid t) r2;
                    Waitpid (tid t) 0 (fst wr') (snd wr')] ++ ev).
           split; [|split].
           ++ exact (emits_trans H1 (emits_trans H2 (emits_trans H3
                       (emits_trans H4 Hev)))).
           ++ repeat constructor. assumption.
           ++ destruct (snd (step_off bs ts _ s4)).
              ** destruct Hres as [Htr ->]. split; [|reflexivity].
                 apply sot_step; [assumption| |exact Htr].
                 now apply stepped_twice.
              ** destruct Hres as (ts1 & t' & ts2 & pre & r & -> & Hsit & Htr
                                   & -> & Hr).
                 exists (t :: ts1), t', ts2,
                   ([SingleStep (tid t) 0;
                     Waitpid (tid t) 0 (fst wr) (snd wr);
                     SingleStep (tid t) r2;
                     Waitpid (tid t) 0 (fst wr') (snd wr')] ++ pre), r.
                 split; [reflexivity|]. split; [assumption|].
                 split; [|split; [now rewrite <- app_assoc|assumption]].
                 apply sot_step; [assumption| |exact Htr].
                 now apply stepped_twice.
        -- destruct (IH (stored status (snd wr)) s2) as (ev & Hev & Hall & Hres).
           exists ([SingleStep (tid t) 0; Waitpid (tid t) 0 (fst wr) (snd wr)]
                   ++ ev).
           split; [|split].
           ++ exact (emits_trans H1 (emits_trans H2 Hev)).
           ++ repeat constructor. assumption.
           ++ destruct (snd (step_off bs ts _ s2)).
              ** destruct Hres as [Htr ->]. split; [|reflexivity].
                 apply sot_step; [assumption| |exact Htr].
                 now apply stepped_once.
              ** destruct Hres as (ts1 & t' & ts2 & pre & r & -> & Hsit & Htr
                                   & -> & Hr).
                 exists (t :: ts1), t', ts2,
                   ([SingleStep (tid t) 0;
                     Waitpid (tid t) 0 (fst wr) (snd wr)] ++ pre), r.
                 split; [reflexivity|]. split; [assumption|].
                 split; [|split; [now rewrite <- app_assoc|assumption]].
                 apply sot_step; [assumption| |exact Htr].
                 now apply stepped_once.
      * exists [SingleStep (tid t) r]. cbn [fst snd].
        split; [exact H1|]. split; [repeat constructor|].
        exists [], t, ts, [], r. split; [reflexivity|].
        split; [exact Ehit|]. split; [constructor|].
        split; [reflexivity|assumption].
    + destruct (IH status s) as (ev & Hev & Hall & Hres).
      exists ev. split; [assumption|]. split; [assumption|].
      destruct (snd (step_off bs ts status s)).
      * destruct Hres as [Htr ->]. split; [|reflexivity].
        now apply sot_skip.
      * destruct Hres as (ts1 & t' & ts2 & pre & r & -> & Hsit & Htr
                          & -> & Hr).
        exists (t :: ts1), t', ts2, pre, r.
        split; [reflexivity|]. split; [assumption|].
        split; [|split; [reflexivity|assumption]].
        now apply sot_skip.
Qed.

Lemma arm_breakpoints_spec (pid : Z) (bs : list software_breakpoint)
  (s : sys) :
  exists ev,
    emits s (arm_breakpoints pid bs s) ev /\
    Forall (fun e => is_poke e = true) ev /\
    pokes ev = arming_writes pid bs.
Proof.
  unfold arming_writes.
  revert s. induction bs as [|b bs IH]; intros s; cbn [arm_breakpoints].
  - exists []. split; [apply emits_refl|]. split; [constructor|reflexivity].
  - destruct (enabled b) eqn:Eb; cbn [filter]; rewrite Eb.
    + pose proof (ptrace_pokedata_emits pid (addr b) (patched_instruction b) s)
        as Hp.
      destruct (IH (snd (ptrace_pokedata pid (addr b)
                           (patched_instruction b) s)))
        as (ev & Hev & Hall & Hpk).
      eexists (_ :: ev).
      split; [|split].
      * exact (emits_trans Hp Hev).
      * constructor; [reflexivity|assumption].
      * cbn. now rewrite Hpk.
    + apply IH.
Qed.

Lemma cont_threads_spec (ts : list thread) (s : sys) :
  exists ev,
    emits s (cont_threads ts s) ev /\
    Forall (fun e => is_cont e = true) ev /\
    conts ev = map tid ts.
Proof.
  revert s. induction ts as [|t ts IH]; intros s; cbn [cont_threads].
  - exists []. split; [apply emits_refl|]. split; [constructor|reflexivity].
  - pose proof (ptrace_cont_emits (tid t) s) as Hc.
    destruct (IH (snd (ptrace_cont (tid t) s))) as (ev & Hev & Hall & Hcs).
    eexists (_ :: ev).
    split; [|split].
    + exact (emits_trans Hc Hev).
    + constructor; [reflexivity|assumption].
    + cbn. now rewrite Hcs.
Qed.

(** Counting the steps of one thread in a block. *)
Lemma step_off_block_count (x y status : Z) (blk : list event) :
  step_off_block y status blk ->
  (x <> y -> count_singlesteps x blk = 0%nat) /\
  (x = y -> count_singlesteps x blk = 1%nat \/ count_singlesteps x blk = 2%nat).
Proof.
  unfold count_singlesteps.
  intros [r st Hst|r st r2 r' st' Hst]; cbn [filter is_singlestep_of];
    (destruct (Z.eqb_spec y x) as [E|E]; split; intros H;
     try congruence; cbn; auto).
Qed.

Lemma step_off_trace_absent (bs : list software_breakpoint)
  (ts : list thread) (status : Z) (ev : list event) (x : Z) :
  step_off_trace bs ts status ev ->
  (forall t, In t ts -> tid t <> x) ->
  count_singlesteps x ev = 0%nat.
Proof.
  induction 1 as [status|t ts status ev Hhit Htr IH
                 |t ts status blk ev Hhit Hblk Htr IH]; intros Habs.
  - reflexivity.
  - apply IH. intros t' Ht'. apply Habs. now right.
  - rewrite count_singlesteps_app, IH
      by (intros t' Ht'; apply Habs; now right).
    destruct (step_off_block_count x Hblk) as [H0 _].
    rewrite H0; [reflexivity|].
    intros ->. apply (Habs t); [now left|reflexivity].
Qed.

(** Each thread on a breakpoint is stepped once or twice. *)
Lemma step_off_trace_count (bs : list software_breakpoint)
  (ts : list thread) (status : Z) (ev : list event) (t : thread) :
  step_off_trace bs ts status ev ->
  NoDup (map tid ts) -> In t ts ->
  bp_hit (INSTRUCTION_POINTER (regs t)) bs = true ->
  count_singlesteps (tid t) ev = 1%nat \/ count_singlesteps (tid t) ev = 2%nat.
Proof.
  induction 1 as [status|t0 ts status ev Hhit Htr IH
                 |t0 ts status blk ev Hhit Hblk Htr IH];
    intros Hnd Hin Hsit.
  - destruct Hin.
  - cbn [map] in Hnd. inversion Hnd as [|? ? Hnotin Hnd']; subst.
    destruct Hin as [->|Hin]; [congruence|]. now apply IH.
  - cbn [map] in Hnd. inversion Hnd as [|? ? Hnotin Hnd']; subst.
    rewrite count_singlesteps_app.
    destruct Hin as [->|Hin].
    + rewrite (step_off_trace_absent (x := tid t) Htr).
      * destruct (step_off_block_count (tid t) Hblk) as [_ H1].
        destruct (H1 eq_refl) as [->| ->]; auto.
      * intros t' Ht' E. apply Hnotin. rewrite <- E. now apply in_map.
    + destruct (step_off_block_count (tid t) Hblk) as [H0 _].
      rewrite H0; [now apply IH|].
      intros E. apply Hnotin. rewrite <- E. now apply in_map.
Qed.

(** ... and once only when no wait reports a stop by SIGSTOP. *)
Lemma step_off_trace_once (bs : list software_breakpoint)
  (ts : list thread) (status : Z) (ev : list event) (t : thread) :
  step_off_trace bs ts status ev ->
  status <> STOPPED_BY_SIGSTOP ->
  Forall (fun e => wrote_sigstop e = false) ev ->
  NoDup (map tid ts) -> In t ts ->
  bp_hit (INSTRUCTION_POINTER (regs t)) bs = true ->
  count_singlesteps (tid t) ev = 1%nat.
Proof.
  induction 1 as [status|t0 ts status ev Hhit Htr IH
                 |t0 ts status blk ev Hhit Hblk Htr IH];
    intros Hst Hall Hnd Hin Hsit.
  - destruct Hin.
  - cbn [map] in Hnd. inversion Hnd as [|? ? Hnotin Hnd']; subst.
    destruct Hin as [->|Hin]; [congruence|]. now apply IH.
  - cbn [map] in Hnd. inversion Hnd as [|? ? Hnotin Hnd']; subst.
    apply Forall_app in Hall. destruct Hall as [Hall1 Hall2].
    destruct Hblk as [r st Hne|r st r2 r' st' Heq].
    + rewrite count_singlesteps_app.
      destruct Hin as [->|Hin].
      * rewrite (step_off_trace_absent (x := tid t) Htr).
        -- unfold count_singlesteps. cbn. now rewrite Z.eqb_refl.
        -- intros t' Ht' E. apply Hnotin. rewrite <- E. now apply in_map.
      * assert (Hx : tid t0 <> tid t).
        { intros E. apply Hnotin. rewrite E. now apply in_map. }
        unfold count_singlesteps at 1. cbn.
        destruct (Z.eqb_spec (tid t0) (tid t)); [contradiction|]. cbn.
        apply IH; try assumption.
    + exfalso. inversion Hall1 as [|? ? _ Hall1']; subst.
      inversion Hall1' as [|? ? Hw _]; subst.
      destruct st as [v|]; cbn in Heq, Hw.
      * apply Z.eqb_neq in Hw. contradiction.
      * contradiction.
Qed.

(** Two nodes of a table without duplicate tids, one before and one
    after a place of the table, have different tids. *)
Lemma tids_apart (ts1 ts2 : list thread) (t t' : thread) :
  NoDup (map tid (ts1 ++ ts2)) -> In t ts1 -> In t' ts2 -> tid t <> tid t'.
Proof.
  induction ts1 as [|t0 ts1 IH]; intros Hnd Hin Hin' E; [destruct Hin|].
  cbn [app map] in Hnd. inversion Hnd as [|? ? Hnotin Hnd']; subst.
  destruct Hin as [->|Hin].
  - apply Hnotin. rewrite E. apply in_map, in_or_app. now right.
  - now apply (IH Hnd' Hin Hin').
Qed.

Lemma count_singlesteps_one (x y r : Z) :
  count_singlesteps x [SingleStep y r] = if y =? x then 1%nat else 0%nat.
Proof. unfold count_singlesteps. cbn. now destruct (y =? x). Qed.

(** The steps of each thread in a step-off that gives up at the thread
    [t]: the threads before [t] are stepped as in a loop that runs to
    its end, [t] has the one failed step, the threads after [t] have
    none. *)
Lemma step_off_gave_up_counts (bs : list software_breakpoint)
  (ts1 ts2 : list thread) (t : thread) (pre : list event) (r : Z) :
  NoDup (map tid (ts1 ++ t :: ts2)) ->
  step_off_trace bs ts1 0 pre ->
  let stepoff := pre ++ [SingleStep (tid t) r] in
  (forall t', In t' ts1 -> sitting_on_bp bs t' = true ->
     (count_singlesteps (tid t') stepoff = 1%nat \/
      count_singlesteps (tid t') stepoff = 2%nat) /\
     (Forall (fun e => wrote_sigstop e = false) stepoff ->
      count_singlesteps (tid t') stepoff = 1%nat)) /\
  count_singlesteps (tid t) stepoff = 1%nat /\
  (forall t', In t' ts2 -> count_singlesteps (tid t') stepoff = 0%nat).
Proof.
  intros Hnd Htr. cbn zeta.
  assert (Hnd1 : NoDup (map tid ts1)).
  { rewrite map_app in Hnd. now apply NoDup_app_remove_r in Hnd. }
  assert (Hfront : forall t', In t' ts1 -> tid t' <> tid t).
  { intros t' Hin. apply (@tids_apart ts1 (t :: ts2) t' t Hnd Hin).
    now left. }
  assert (Hback : forall t', In t' ts2 -> tid t' <> tid t).
  { intros t' Hin E. rewrite map_app in Hnd. apply NoDup_app_remove_l in Hnd.
    cbn [map] in Hnd. inversion Hnd as [|? ? Hnotin _]; subst.
    apply Hnotin. rewrite <- E. now apply in_map. }
  split; [|split].
  - intros t' Hin Hsit.
    rewrite count_singlesteps_app, count_singlesteps_one.
    destruct (Z.eqb_spec (tid t) (tid t')) as [E|_];
      [exfalso; now apply (Hfront t' Hin)|].
    rewrite Nat.add_0_r. split.
    + eapply step_off_trace_count; eassumption.
    + intros Hno. apply Forall_app in Hno. destruct Hno as [Hno _].
      eapply step_off_trace_once; try eassumption. discriminate.
  - rewrite count_singlesteps_app, count_singlesteps_one, Z.eqb_refl.
    rewrite (step_off_trace_absent (x := tid t) Htr); [reflexivity|].
    intros t' Hin. now apply Hfront.
  - intros t' Hin.
    rewrite count_singlesteps_app, count_singlesteps_one.
    destruct (Z.eqb_spec (tid t) (tid t')) as [E|_];
      [exfalso; now apply (Hback t' Hin)|].
    rewrite (step_off_trace_absent (x := tid t') Htr); [reflexivity|].
    intros t'' Hin'' E.
    apply (@tids_apart ts1 (t :: ts2) t'' t' Hnd Hin''); [now right|exact E].
Qed.

(** C2, with the second step and the early return of the source.  In a
    thread table with distinct tids, a call of [cont_all_and_set_bps]
    issues, in this order: one SETREGS per thread, the flush; the
    single-steps and waits of the step-off; POKEDATA calls; CONT calls.

    Either the step-off ran to its end: every thread whose cached
    instruction pointer is the address of a record has been stepped and
    waited for, once or twice (twice when the status after the first
    wait is 4991, and once only when no wait reports it), the threads in
    table order; the POKEDATA calls are then the writes of the patched
    words of the enabled records and the CONT calls go to every thread of
    the table, and the call returns the content of [status] after these
    waits.

    Or the first SINGLESTEP of a thread [t] on a breakpoint failed: that
    failed call is the last call, the function returns -1, and no
    POKEDATA and no CONT is issued.  The threads before [t] in the table
    have been stepped as above, [t] has the one failed step, and the
    threads after [t] are not stepped. *)
Theorem cont_all_steps_off_then_arms (pid : Z) (w : world) :
  NoDup (map tid (t_HEAD w)) ->
  exists flush stepoff arm go,
    emits (os w) (os (snd (cont_all_and_set_bps pid w)))
          (flush ++ stepoff ++ arm ++ go) /\
    Forall (fun e => is_setregs e = true) flush /\
    setregs_calls flush = t_HEAD w /\
    Forall (fun e => is_step_or_wait e = true) stepoff /\
    Forall (fun e => is_poke e = true) arm /\
    Forall (fun e => is_cont e = true) go /\
    ((step_off_trace (b_HEAD w) (t_HEAD w) 0 stepoff /\
      pokes arm = arming_writes pid (b_HEAD w) /\
      conts go = map tid (t_HEAD w) /\
      fst (cont_all_and_set_bps pid w) = status_after 0 stepoff /\
      forall t, In t (t_HEAD w) -> sitting_on_bp (b_HEAD w) t = true ->
        (count_singlesteps (tid t) stepoff = 1%nat \/
         count_singlesteps (tid t) stepoff = 2%nat) /\
        (Forall (fun e => wrote_sigstop e = false) stepoff ->
         count_singlesteps (tid t) stepoff = 1%nat)) \/
     (exists ts1 t ts2 pre r,
        t_HEAD w = ts1 ++ t :: ts2 /\
        sitting_on_bp (b_HEAD w) t = true /\
        step_off_trace (b_HEAD w) ts1 0 pre /\
        stepoff = pre ++ [SingleStep (tid t) r] /\ r <> 0 /\
        arm = [] /\ go = [] /\
        fst (cont_all_and_set_bps pid w) = -1 /\
        (forall t', In t' ts1 -> sitting_on_bp (b_HEAD w) t' = true ->
           (count_singlesteps (tid t') stepoff = 1%nat \/
            count_singlesteps (tid t') stepoff = 2%nat) /\
           (Forall (fun e => wrote_sigstop e = false) stepoff ->
            count_singlesteps (tid t') stepoff = 1%nat)) /\
        count_singlesteps (tid t) stepoff = 1%nat /\
        (forall t', In t' ts2 ->
           count_singlesteps (tid t') stepoff = 0%nat))).
Proof.
  intros Hnd. unfold cont_all_and_set_bps.
  destruct (flush_regs_emits (t_HEAD w) (os w)) as (flush & Hf & Hfall & Hcalls).
  destruct (step_off_spec (b_HEAD w) (t_HEAD w) 0 (flush_regs (t_HEAD w) (os w)))
    as (stepoff & Hs & Hsall & Hres).
  destruct (step_off (b_HEAD w) (t_HEAD w) 0 (flush_regs (t_HEAD w) (os w)))
    as [s2 [status|]]; cbn [fst snd] in *.
  - destruct (arm_breakpoints_spec pid (b_HEAD w) s2)
      as (arm & Ha & Haall & Hpk).
    destruct (cont_threads_spec (t_HEAD w) (arm_breakpoints pid (b_HEAD w) s2))
      as (go & Hg & Hgall & Hcs).
    destruct Hres as [Htr Hst].
    exists flush, stepoff, arm, go.
    split; [exact (emits_trans Hf (emits_trans Hs (emits_trans Ha Hg)))|].
    repeat (split; [assumption|]).
    left. repeat (split; [assumption|]).
    intros t Hin Hsit. split.
    + eapply step_off_trace_count; eassumption.
    + intros Hno. eapply step_off_trace_once; try eassumption. discriminate.
  - destruct Hres as (ts1 & t & ts2 & pre & r & Ets & Hsit & Htr & -> & Hr).
    exists flush, (pre ++ [SingleStep (tid t) r]), [], [].
    split; [rewrite !app_nil_r; exact (emits_trans Hf Hs)|].
    repeat (split; [assumption || constructor|]).
    right. exists ts1, t, ts2, pre, r.
    rewrite Ets in Hnd.
    destruct (@step_off_gave_up_counts (b_HEAD w) ts1 ts2 t pre r Hnd Htr)
      as (Hbefore & Hat & Hafter).
    split; [exact Ets|]. split; [exact Hsit|]. split; [exact Htr|].
    split; [reflexivity|]. split; [exact Hr|].
    split; [reflexivity|]. split; [reflexivity|]. split; [reflexivity|].
    split; [exact Hbefore|]. split; [exact Hat|exact Hafter].
Qed.

(* ------------------------------------------------------------------ *)
(** ** The loop of [step_until] *)

Lemma int_wrap_small (z : Z) : INT_MIN <= z <= INT_MAX -> int_wrap z = z.
Proof.
  unfold int_wrap, INT_MIN, INT_MAX. intros H.
  rewrite Z.mod_small by lia. lia.
Qed.

Lemma step_until_loop_stops (fuel : nat) (x address max_steps : Z)
  (cur : user_regs_struct) (s : sys) (count : Z) :
  keep_stepping max_steps count = false ->
  step_until_loop fuel x address max_steps cur s count
  = Some (mk_step_result cur s 0 count).
Proof. intros H. destruct fuel; cbn [step_until_loop]; now rewrite H. Qed.

(** C6.  One iteration of the loop of [step_until] whose SINGLESTEP
    succeeds.  Let [ip] be the instruction pointer in the cached
    registers after the GETREGS that follows the step and the wait.
    If [ip] is the target address the loop is left and 0 is returned,
    also when [ip] is the instruction pointer cached before the step.
    Otherwise, if [ip] is the instruction pointer cached before the
    step, the loop goes on with the same count.  Otherwise it goes on
    with the count incremented by one. *)
Theorem step_until_iteration (fuel : nat) (x address max_steps : Z)
  (cur : user_regs_struct) (s : sys) (count : Z) :
  keep_stepping max_steps count = true ->
  fst (ptrace_singlestep x s) = 0 ->
  let s2 := snd (waitpid x 0 (snd (ptrace_singlestep x s))) in
  let s3 := snd (ptrace_getregs x s2) in
  let cur' := match fst (ptrace_getregs x s2) with
              | Some r => r
              | None => cur
              end in
  let previous_ip := INSTRUCTION_POINTER cur in
  let ip := INSTRUCTION_POINTER cur' in
  (ip = address ->
   step_until_loop (S fuel) x address max_steps cur s count
   = Some (mk_step_result cur' s3 0 count)) /\
  (ip <> address -> ip = previous_ip ->
   step_until_loop (S fuel) x address max_steps cur s count
   = step_until_loop fuel x address max_steps cur' s3 count) /\
  (ip <> address -> ip <> previous_ip ->
   INT_MIN <= count < INT_MAX ->
   step_until_loop (S fuel) x address max_steps cur s count
   = step_until_loop fuel x address max_steps cur' s3 (count + 1)).
Proof.
  intros Hkeep Hstep. cbn zeta. cbn [step_until_loop]. rewrite Hkeep.
  destruct (ptrace_singlestep x s) as [r s1]. cbn [fst snd] in *. subst r.
  cbn [Z.eqb negb].
  destruct (waitpid x 0 s1) as [wr s2]. cbn [snd].
  destruct (ptrace_getregs x s2) as [res s3]. cbn [fst snd].
  set (cur' := match res with Some r' => r' | None => cur end).
  split; [|split].
  - intros ->. now rewrite Z.eqb_refl.
  - intros Hne Heq. apply Z.eqb_neq in Hne. rewrite Hne.
    now rewrite Heq, Z.eqb_refl.
  - intros Hne Hne' Hrange. apply Z.eqb_neq in Hne, Hne'.
    rewrite Hne, Hne'. rewrite int_wrap_small; [reflexivity|].
    unfold INT_MIN, INT_MAX in *. lia.
Qed.

(** A bounded run: the final count is the number of counted steps of the
    trace, it does not exceed the bound, and -1 is returned only while
    the bound is not reached. *)
Lemma step_until_loop_bounded (fuel : nat) (x address max_steps : Z)
  (cur : user_regs_struct) (s : sys) (count : Z) (res : step_result) :
  max_steps <> -1 -> max_steps <= INT_MAX -> 0 <= count ->
  step_until_loop fuel x address max_steps cur s count = Some res ->
  count <= sr_count res <= Z.max count max_steps /\
  (sr_ret res = 0 \/ (sr_ret res = -1 /\ sr_count res < max_steps)) /\
  exists ev,
    emits s (sr_sys res) ev /\
    sr_count res = count + counted_steps address (INSTRUCTION_POINTER cur) ev.
Proof.
  intros Hms Hmax. revert cur s count.
  induction fuel as [|fuel IH]; intros cur s count Hc;
    cbn [step_until_loop];
    (destruct (keep_stepping max_steps count) eqn:Hkeep;
     [|intros [= <-]; cbn [sr_count sr_ret sr_sys]; split; [lia|];
       split; [now left|]; exists []; split; [apply emits_refl|cbn; lia]]).
  - discriminate.
  - assert (Hlt : count < max_steps).
    { unfold keep_stepping in Hkeep. apply orb_true_iff in Hkeep.
      destruct Hkeep as [H|H]; [apply Z.eqb_eq in H; contradiction|].
      now apply Z.ltb_lt. }
    pose proof (ptrace_singlestep_emits x s) as H1.
    destruct (ptrace_singlestep x s) as [r s1]. cbn [fst snd] in H1.
    destruct (Z.eqb_spec r 0) as [->|Hr]; cbn [negb].
    + pose proof (waitpid_emits x 0 s1) as H2.
      destruct (waitpid x 0 s1) as [wr s2]. cbn [fst snd] in H2.
      pose proof (ptrace_getregs_emits x s2) as H3.
      destruct (ptrace_getregs x s2) as [got s3]. cbn [fst snd] in H3.
      set (cur' := match got with Some r' => r' | None => cur end).
      pose proof (emits_trans H1 (emits_trans H2 H3)) as H123.
      cbn [app] in H123.
      destruct (Z.eqb_spec (INSTRUCTION_POINTER cur') address) as [Ea|Ea].
      * intros [= <-]. cbn [sr_count sr_ret sr_sys].
        split; [lia|]. split; [now left|].
        eexists. split; [exact H123|]. cbn [counted_steps].
        subst cur'. destruct got as [r'|]; cbn [counted_steps].
        -- rewrite Ea, Z.eqb_refl. cbn [orb]. lia.
        -- lia.
      * destruct (Z.eqb_spec (INSTRUCTION_POINTER cur')
                             (INSTRUCTION_POINTER cur)) as [Ep|Ep].
        -- intros Hrun. apply IH in Hrun; [|assumption].
           destruct Hrun as (Hb & Hret & ev & Hev & Hcount).
           split; [assumption|]. split; [assumption|].
           eexists. split; [exact (emits_trans H123 Hev)|].
           rewrite Hcount. cbn [app counted_steps].
           subst cur'. destruct got as [r'|]; cbn [counted_steps].
           ++ apply Z.eqb_neq in Ea. rewrite Ea, Ep, Z.eqb_refl.
              cbn [orb]. lia.
           ++ reflexivity.
        -- rewrite int_wrap_small by (unfold INT_MIN, INT_MAX in *; lia).
           intros Hrun. apply IH in Hrun; [|lia].
           destruct Hrun as (Hb & Hret & ev & Hev & Hcount).
           split; [lia|]. split; [assumption|].
           eexists. split; [exact (emits_trans H123 Hev)|].
           rewrite Hcount. cbn [app counted_steps].
           subst cur'. destruct got as [r'|]; cbn [counted_steps].
           ++ apply Z.eqb_neq in Ea. apply Z.eqb_neq in Ep.
              rewrite Ea, Ep. cbn [orb]. lia.
           ++ now elim Ep.
    + intros [= <-]. cbn [sr_count sr_ret sr_sys].
      split; [lia|]. split; [right; split; [reflexivity|assumption]|].
      eexists. split; [exact H1|]. cbn. lia.
Qed.

(** An unbounded run is left only by reaching the target or by a failed
    single-step, which is then its last call. *)
Lemma step_until_loop_unbounded (fuel : nat) (x address : Z)
  (cur : user_regs_struct) (s : sys) (count : Z) (res : step_result) :
  step_until_loop fuel x address (-1) cur s count = Some res ->
  (sr_ret res = -1 /\
   exists ev r, emits s (sr_sys res) (ev ++ [SingleStep x r]) /\ r <> 0) \/
  (sr_ret res = 0 /\ INSTRUCTION_POINTER (sr_regs res) = address).
Proof.
  revert cur s count.
  induction fuel as [|fuel IH]; intros cur s count; cbn [step_until_loop];
    change (keep_stepping (-1) count) with true; cbn iota.
  - discriminate.
  - pose proof (ptrace_singlestep_emits x s) as H1.
    destruct (ptrace_singlestep x s) as [r s1]. cbn [fst snd] in H1.
    destruct (Z.eqb_spec r 0) as [->|Hr]; cbn [negb].
    + pose proof (waitpid_emits x 0 s1) as H2.
      destruct (waitpid x 0 s1) as [wr s2]. cbn [fst snd] in H2.
      pose proof (ptrace_getregs_emits x s2) as H3.
      destruct (ptrace_getregs x s2) as [got s3]. cbn [fst snd] in H3.
      set (cur' := match got with Some r' => r' | None => cur end).
      pose proof (emits_trans H1 (emits_trans H2 H3)) as H123.
      destruct (Z.eqb_spec (INSTRUCTION_POINTER cur') address) as [Ea|Ea].
      * intros [= <-]. right. split; [reflexivity|exact Ea].
      * assert (Hrec : forall c,
                  step_until_loop fuel x address (-1) cur' s3 c = Some res ->
                  (sr_ret res = -1 /\
                   exists ev r, emits s (sr_sys res) (ev ++ [SingleStep x r])
                                /\ r <> 0) \/
                  (sr_ret res = 0 /\
                   INSTRUCTION_POINTER (sr_regs res) = address)).
        { intros c Hrun. apply IH in Hrun.
          destruct Hrun as [(Hret & ev & r & Hev & Hr)|Hreach];
            [left|now right].
          split; [assumption|].
          match type of H123 with
          | emits _ _ ?pre => exists (pre ++ ev), r
          end.
          split; [|assumption].
          rewrite <- app_assoc. exact (emits_trans H123 Hev). }
        destruct (INSTRUCTION_POINTER cur' =? INSTRUCTION_POINTER cur);
          apply Hrec.
    + intros [= <-]. left. split; [reflexivity|].
      exists [], r. split; [exact H1|assumption].
Qed.

(** While the tracee advances without reaching the target, an unbounded
    run is still going after any number of iterations ... *)
Lemma step_until_loop_unbounded_runs (n : nat) (x address : Z)
  (cur : user_regs_struct) (s : sys) (count : Z) :
  advances n x address (INSTRUCTION_POINTER cur) (kern s) = true ->
  step_until_loop n x address (-1) cur s count = None.
Proof.
  revert cur s count.
  induction n as [|n IH]; intros cur s count; cbn [step_until_loop advances];
    change (keep_stepping (-1) count) with true; cbn iota.
  - reflexivity.
  - cbn [ptrace_singlestep waitpid ptrace_getregs fst snd kern].
    destruct (fst (sys_getregs x _)) as [r|] eqn:Eg; [|discriminate].
    intros H. apply andb_true_iff in H. destruct H as [H Hadv].
    apply andb_true_iff in H. destruct H as [H Hp].
    apply andb_true_iff in H. destruct H as [H0 Ha].
    rewrite H0. cbn [negb].
    apply negb_true_iff in Ha, Hp. rewrite Ha, Hp.
    apply IH. exact Hadv.
Qed.

(** ... and a bounded run returns 0 when the bound is exhausted. *)
Lemma step_until_loop_exhausts (n : nat) (x address max_steps : Z)
  (cur : user_regs_struct) (s : sys) (count : Z) :
  0 <= count -> count + Z.of_nat n = max_steps -> max_steps <= INT_MAX ->
  advances n x address (INSTRUCTION_POINTER cur) (kern s) = true ->
  exists res,
    step_until_loop n x address max_steps cur s count = Some res /\
    sr_ret res = 0 /\ sr_count res = max_steps.
Proof.
  intros Hc Hsum Hmax. revert cur s count Hc Hsum.
  induction n as [|n IH]; intros cur s count Hc Hsum.
  - intros _. rewrite step_until_loop_stops.
    + eexists. split; [reflexivity|]. cbn. split; [reflexivity|lia].
    + unfold keep_stepping. apply orb_false_iff. split.
      * apply Z.eqb_neq. lia.
      * apply Z.ltb_ge. lia.
  - cbn [step_until_loop advances].
    assert (Hkeep : keep_stepping max_steps count = true).
    { unfold keep_stepping. apply orb_true_iff. right. apply Z.ltb_lt. lia. }
    rewrite Hkeep.
    cbn [ptrace_singlestep waitpid ptrace_getregs fst snd kern].
    destruct (fst (sys_getregs x _)) as [r|] eqn:Eg; [|discriminate].
    intros H. apply andb_true_iff in H. destruct H as [H Hadv].
    apply andb_true_iff in H. destruct H as [H Hp].
    apply andb_true_iff in H. destruct H as [H0 Ha].
    rewrite H0. cbn [negb].
    apply negb_true_iff in Ha, Hp. rewrite Ha, Hp.
    rewrite int_wrap_small by (unfold INT_MIN, INT_MAX in *; lia).
    apply IH; [lia|lia|exact Hadv].
Qed.

(* ------------------------------------------------------------------ *)
(** ** [step_until] on a registered thread *)

Lemma tid_inj (ts : list thread) (t t' : thread) :
  NoDup (map tid ts) -> In t ts -> In t' ts -> tid t = tid t' -> t = t'.
Proof.
  induction ts as [|t0 ts IH]; intros Hnd Ht Ht' E; [destruct Ht|].
  cbn [map] in Hnd. inversion Hnd as [|? ? Hnotin Hnd']; subst.
  destruct Ht as [->|Ht], Ht' as [->|Ht'].
  - reflexivity.
  - exfalso. apply Hnotin. rewrite E. now apply in_map.
  - exfalso. apply Hnotin. rewrite <- E. now apply in_map.
  - now apply IH.
Qed.

(** In a table without duplicate tids the flush loop ends with
    [stepping_thread] on the one node of that tid. *)
Lemma step_until_flush_finds (x : Z) (ts : list thread) (s : sys)
  (t0 : thread) :
  NoDup (map tid ts) -> In t0 ts -> tid t0 = x ->
  exists i,
    fst (step_until_flush x ts 0%nat None s) = Some (i, t0) /\
    nth_error ts i = Some t0.
Proof.
  intros Hnd Hin Hx.
  destruct (@step_until_flush_present x ts 0%nat None s) as (j & t & Hf).
  { now exists t0. }
  destruct (step_until_flush_found _ _ _ _ _ Hf)
    as [H|(n & -> & Hn & Ht)]; [discriminate|].
  assert (t = t0).
  { apply (@tid_inj ts t t0 Hnd);
      [eapply nth_error_In; eassumption|assumption|congruence]. }
  subst t. exists n. split; assumption.
Qed.

Lemma store_regs_same (i : nat) (ts : list thread) (t : thread) :
  nth_error ts i = Some t -> store_regs i (regs t) ts = ts.
Proof.
  revert i. induction ts as [|t0 ts IH]; intros [|i]; cbn; try discriminate.
  - intros [= ->]. now destruct t.
  - intros H. now rewrite IH.
Qed.

Lemma store_regs_In (i : nat) (r : user_regs_struct) (ts : list thread)
  (t : thread) :
  nth_error ts i = Some t -> In (mk_thread (tid t) r) (store_regs i r ts).
Proof.
  revert i. induction ts as [|t0 ts IH]; intros [|i]; cbn; try discriminate.
  - intros [= ->]. now left.
  - intros H. right. now apply IH.
Qed.

Lemma counted_steps_app (address ip : Z) (tr1 tr2 : list event) :
  Forall (fun e => is_getregs e = false) tr1 ->
  counted_steps address ip (tr1 ++ tr2) = counted_steps address ip tr2.
Proof.
  induction 1 as [|e tr1 He _ IH]; cbn [app]; [reflexivity|].
  destruct e; cbn [counted_steps]; try assumption. discriminate.
Qed.

(** C3, with the sentinel of the source.  For a thread [t0] of the
    table, [ip0] its cached instruction pointer and [k0] the kernel
    after the flush:
    - with [max_steps = -1] the loop has no bound: a run returns only -1,
      its last call being a failed single-step, or 0 with the thread's
      cached instruction pointer at the target, and as long as the
      tracee advances without reaching the target the run is still going;
    - with [max_steps >= 0] a run that returns has counted at most
      [max_steps] steps, the count being that of the steps of its trace
      that changed the instruction pointer, and it returns 0 unless a
      single-step failed before the bound was reached; when the tracee
      advances [max_steps] times without reaching the target, the run
      returns 0 with the bound exhausted;
    - with [max_steps < -1] the call returns 0 right after the flush,
      whatever the fuel, without any step. *)
Theorem step_until_step_budget (x address max_steps : Z) (w : world)
  (t0 : thread) :
  NoDup (map tid (t_HEAD w)) -> In t0 (t_HEAD w) -> tid t0 = x ->
  max_steps <= INT_MAX ->
  let ip0 := INSTRUCTION_POINTER (regs t0) in
  let k0 := kernel_after_flush (t_HEAD w) (kern (os w)) in
  (max_steps = -1 ->
   (forall fuel ret count w',
      step_until_run fuel x address max_steps w = Some (ret, count, w') ->
      (ret = -1 /\
       exists ev r,
         emits (os w) (os w') (ev ++ [SingleStep x r]) /\ r <> 0) \/
      (ret = 0 /\
       exists t, In t (t_HEAD w') /\ tid t = x /\
                 INSTRUCTION_POINTER (regs t) = address)) /\
   (forall n,
      advances n x address ip0 k0 = true ->
      step_until_run n x address max_steps w = None)) /\
  (0 <= max_steps ->
   (forall fuel ret count w',
      step_until_run fuel x address max_steps w = Some (ret, count, w') ->
      0 <= count <= max_steps /\
      (ret = 0 \/ (ret = -1 /\ count < max_steps)) /\
      exists ev,
        emits (os w) (os w') ev /\
        count = counted_steps address ip0 ev) /\
   (advances (Z.to_nat max_steps) x address ip0 k0 = true ->
    exists w',
      step_until_run (Z.to_nat max_steps) x address max_steps w
      = Some (0, max_steps, w'))) /\
  (max_steps < -1 ->
   forall fuel,
     step_until_run fuel x address max_steps w
     = Some (0, 0, mk_world (flush_regs (t_HEAD w) (os w))
                            (t_HEAD w) (b_HEAD w))).
Proof.
  intros Hnd Hin Hx Hmax ip0 k0. subst ip0 k0.
  destruct (@step_until_flush_finds x (t_HEAD w) (os w) t0 Hnd Hin Hx)
    as (i & Hfst & Hnth).
  pose proof (@step_until_flush_sys x (t_HEAD w) 0%nat None (os w)) as Hsnd.
  unfold step_until_run.
  destruct (step_until_flush x (t_HEAD w) 0%nat None (os w)) as [st s1].
  cbn [fst snd] in Hfst, Hsnd. subst st s1.
  rewrite <- flush_regs_kern.
  split; [|split].
  - intros ->. split.
    + intros fuel ret count w'.
      destruct (step_until_loop fuel x address (-1) (regs t0) _ 0)
        as [res|] eqn:Eloop; [|discriminate].
      intros [= <- <- <-].
      destruct (@step_until_loop_unbounded _ _ _ _ _ _ _ Eloop)
        as [(H & ev & r & Hev & Hr)|[H Hip]]; [left|right].
      { split; [assumption|].
        destruct (flush_regs_emits (t_HEAD w) (os w)) as (fl & Hfl & _).
        exists (fl ++ ev), r. split; [|assumption]. cbn [os].
        rewrite <- app_assoc. exact (emits_trans Hfl Hev). }
      split; [assumption|].
      exists (mk_thread (tid t0) (sr_regs res)). cbn [t_HEAD tid regs].
      split; [now apply store_regs_In|]. split; assumption.
    + intros n Hadv. now rewrite step_until_loop_unbounded_runs.
  - intros Hpos. split.
    + intros fuel ret count w'.
      destruct (step_until_loop fuel x address max_steps (regs t0) _ 0)
        as [res|] eqn:Eloop; [|discriminate].
      intros [= <- <- <-].
      destruct (@step_until_loop_bounded fuel x address max_steps (regs t0)
                  (flush_regs (t_HEAD w) (os w)) 0 res)
        as (Hb & Hret & ev & Hev & Hcount); try assumption; try lia.
      split; [lia|]. split; [assumption|].
      destruct (flush_regs_emits (t_HEAD w) (os w)) as (fl & Hfl & Hflall & _).
      exists (fl ++ ev). cbn [os]. split; [exact (emits_trans Hfl Hev)|].
      rewrite counted_steps_app; [lia|].
      eapply Forall_impl; [|exact Hflall]. intros e He. now destruct e.
    + intros Hadv.
      destruct (@step_until_loop_exhausts (Z.to_nat max_steps) x address
                  max_steps (regs t0) (flush_regs (t_HEAD w) (os w)) 0)
        as (res & -> & Hret & Hcount); try assumption; try lia.
      eexists. now rewrite Hret, Hcount.
  - intros Hneg fuel. rewrite step_until_loop_stops.
    + cbn [sr_ret sr_count sr_sys sr_regs].
      now rewrite (@store_regs_same i (t_HEAD w) t0 Hnth).
    + unfold keep_stepping. apply orb_false_iff. split.
      * apply Z.eqb_neq. lia.
      * apply Z.ltb_ge. lia.
Qed.

(* ------------------------------------------------------------------ *)
(** ** The invariants of the two tables *)

(** [register_thread] keeps the tids of the thread table distinct. *)
Lemma register_thread_nodup (fresh : user_regs_struct) (x : Z) (w : world) :
  NoDup (map tid (t_HEAD w)) ->
  NoDup (map tid (t_HEAD (register_thread fresh x w))).
Proof.
  intros Hnd. unfold register_thread.
  destruct (existsb (has_tid x) (t_HEAD w)) eqn:Ex; [assumption|].
  destruct (ptrace_getregs x (os w)) as [res s1]. cbn [t_HEAD map].
  assert (Htid : tid (refreshed (mk_thread x fresh) res) = x)
    by now destruct res.
  rewrite Htid. constructor; [|assumption].
  intros Hin. apply in_map_iff in Hin. destruct Hin as (t & Ht & Hin).
  assert (Hex : existsb (has_tid x) (t_HEAD w) = true).
  { apply existsb_exists. exists t. split; [assumption|].
    unfold has_tid. now apply Z.eqb_eq. }
  congruence.
Qed.

Lemma register_breakpoint_kern (pid a : Z) (w : world) :
  kern (os (register_breakpoint pid a w))
  = snd (sys_pokedata pid a
           (INSTALL_BREAKPOINT (uint64 (fst (sys_peekdata pid a (kern (os w))))))
           (snd (sys_peekdata pid a (kern (os w))))).
Proof.
  unfold register_breakpoint. cbn.
  now destruct (enable_existing a (b_HEAD w)).
Qed.

(** The records of a table in which the flag of one record was set. *)
Lemma In_flip (e : bool) (pre post : list software_breakpoint)
  (b0 b : software_breakpoint) :
  NoDup (map addr (pre ++ b0 :: post)) ->
  In b (pre ++ set_enabled e b0 :: post) ->
  b = set_enabled e b0 \/ (In b (pre ++ b0 :: post) /\ addr b <> addr b0).
Proof.
  intros Hnd Hin. rewrite map_app in Hnd. cbn [map] in Hnd.
  apply NoDup_remove_2 in Hnd.
  apply in_app_or in Hin. destruct Hin as [Hin|[<-|Hin]].
  - right. split; [apply in_or_app; now left|].
    intros E. apply Hnd. apply in_or_app. left. rewrite <- E. now apply in_map.
  - now left.
  - right. split; [apply in_or_app; right; now right|].
    intros E. apply Hnd. apply in_or_app. right. rewrite <- E. now apply in_map.
Qed.

Lemma map_addr_flip (e : bool) (pre post : list software_breakpoint)
  (b0 : software_breakpoint) :
  map addr (pre ++ set_enabled e b0 :: post) = map addr (pre ++ b0 :: post).
Proof. now rewrite !map_app. Qed.

Section TableInvariant.

Variable word_at : kstate -> Z -> Z.
Variable code : Z -> Prop.
Hypothesis store : word_store word_at code.

Lemma register_breakpoint_keeps_ok (pid a : Z) (w : world) :
  code a ->
  bp_table_ok word_at code w ->
  bp_table_ok word_at code (register_breakpoint pid a w).
Proof.
  intros Ha (Hnd & Hcode & Hdis). unfold bp_table_ok.
  rewrite register_breakpoint_kern, register_breakpoint_table.
  assert (Hmiss : forall a', code a' -> a' <> a ->
            word_at (snd (sys_pokedata pid a
               (INSTALL_BREAKPOINT
                  (uint64 (fst (sys_peekdata pid a (kern (os w))))))
               (snd (sys_peekdata pid a (kern (os w)))))) a'
            = word_at (kern (os w)) a').
  { intros a' Ha' Hne.
    rewrite (poke_miss store) by assumption.
    now apply (peek_quiet store). }
  destruct (enable_existing a (b_HEAD w)) as [bs|] eqn:Een.
  - apply enable_existing_some in Een.
    destruct Een as (pre & b0 & post & E & Hb0 & Hpre & ->).
    rewrite E in *. split; [|split].
    + now rewrite map_addr_flip.
    + intros b Hin. destruct (@In_flip _ _ _ _ _ Hnd Hin) as [->|[Hin' _]].
      * cbn [set_enabled addr]. apply Hcode. apply in_or_app. right. now left.
      * now apply Hcode.
    + intros b Hin Hd. destruct (@In_flip _ _ _ _ _ Hnd Hin) as [->|[Hin' Hne]].
      * discriminate Hd.
      * rewrite Hmiss; [now apply Hdis|now apply Hcode|congruence].
  - apply enable_existing_none in Een.
    pose proof (proj1 (records_at_nil a (b_HEAD w)) Een) as Hfree.
    cbn zeta. split; [|split].
    + cbn [map addr]. constructor; [|assumption].
      intros Hin. apply in_map_iff in Hin. destruct Hin as (b & Hb & Hin).
      now apply (Hfree b).
    + intros b [<-|Hin]; [assumption|now apply Hcode].
    + intros b [<-|Hin] Hd; [discriminate Hd|].
      rewrite Hmiss; [now apply Hdis|now apply Hcode|now apply Hfree].
Qed.

Lemma disable_breakpoint_keeps_ok (pid a : Z) (w : world) :
  bp_table_ok word_at code w ->
  bp_table_ok word_at code (disable_breakpoint pid a w).
Proof.
  intros (Hnd & Hcode & Hdis). unfold bp_table_ok, disable_breakpoint.
  destruct (disable_search_spec pid a (b_HEAD w) (os w))
    as [[_ ->]|(pre & b0 & post & E & Hb0 & Hpre & ->)].
  - cbn [b_HEAD os]. repeat split; assumption.
  - cbn [b_HEAD os ptrace_pokedata snd kern]. rewrite E in *.
    assert (Hc0 : code a).
    { rewrite <- Hb0. apply Hcode. apply in_or_app. right. now left. }
    split; [|split].
    + now rewrite map_addr_flip.
    + intros b Hin. destruct (@In_flip _ _ _ _ _ Hnd Hin) as [->|[Hin' _]].
      * cbn [set_enabled addr]. now rewrite Hb0.
      * now apply Hcode.
    + intros b Hin Hd. destruct (@In_flip _ _ _ _ _ Hnd Hin) as [->|[Hin' Hne]].
      * cbn [set_enabled addr patched_instruction]. rewrite Hb0.
        now apply (poke_hit store).
      * rewrite (poke_miss store); [now apply Hdis|assumption
                                   |now apply Hcode|congruence].
Qed.

(** Memory in flight: after a call of [cont_all_and_set_bps] that did
    not give up, the patched word is in memory under every enabled
    record; in any case the table invariant is kept. *)
Lemma cont_all_keeps_ok (pid : Z) (w : world) :
  bp_table_ok word_at code w ->
  let w' := snd (cont_all_and_set_bps pid w) in
  bp_table_ok word_at code w' /\
  (snd (step_off (b_HEAD w) (t_HEAD w) 0 (flush_regs (t_HEAD w) (os w)))
   <> None ->
   forall b, In b (b_HEAD w') -> enabled b = true ->
     word_at (kern (os w')) (addr b) = patched_instruction b).
Proof.
  intros (Hnd & Hcode & Hdis). cbn zeta. unfold cont_all_and_set_bps.
  pose proof (fun a Ha => @step_off_quiet word_at code store (b_HEAD w)
                (t_HEAD w) 0 (flush_regs (t_HEAD w) (os w)) a Ha) as Hq.
  destruct (step_off (b_HEAD w) (t_HEAD w) 0 (flush_regs (t_HEAD w) (os w)))
    as [s2 [status|]]; cbn [fst snd os b_HEAD] in *.
  - destruct (@arm_breakpoints_words word_at code store pid (b_HEAD w) s2
                Hnd Hcode) as [Hen Hout].
    assert (Hc : forall a, code a ->
              word_at (kern (cont_threads (t_HEAD w)
                               (arm_breakpoints pid (b_HEAD w) s2))) a
              = word_at (kern (arm_breakpoints pid (b_HEAD w) s2)) a)
      by (intros a Ha; now apply (@cont_threads_quiet word_at code store)).
    split.
    + split; [assumption|]. split; [assumption|].
      intros b Hin Hd. rewrite Hc by now apply Hcode.
      rewrite Hout;
        [|now apply Hcode
         |intros b' Hb' Hen'; eapply disabled_apart; eassumption].
      rewrite Hq by now apply Hcode.
      rewrite (@flush_regs_quiet word_at code store) by now apply Hcode.
      now apply Hdis.
    + intros _ b Hin Hen'. rewrite Hc by now apply Hcode. now apply Hen.
  - split; [|intros H; now elim H].
    split; [assumption|]. split; [assumption|].
    intros b Hin Hd. rewrite Hq by now apply Hcode.
    rewrite (@flush_regs_quiet word_at code store) by now apply Hcode.
    now apply Hdis.
Qed.

End TableInvariant.

(* ------------------------------------------------------------------ *)
(** ** [step_until] on a tid that is not in the thread table *)

(** C9.  When no node of the thread table has the requested tid,
    [step_until] returns -1 whatever the fuel, issues no single-step, and
    leaves the thread table and the breakpoint table as they were. *)
Theorem step_until_no_such_thread (fuel : nat) (x address max_steps : Z)
  (w : world) :
  (forall t, In t (t_HEAD w) -> tid t <> x) ->
  exists w',
    step_until fuel x address max_steps w = Some (-1, w') /\
    t_HEAD w' = t_HEAD w /\
    b_HEAD w' = b_HEAD w /\
    exists ev,
      emits (os w) (os w') ev /\
      Forall (fun e => is_singlestep e = false) ev.
Proof.
  intros Habs. unfold step_until, step_until_run.
  pose proof (@step_until_flush_absent x (t_HEAD w) 0%nat None (os w) Habs)
    as Hfst.
  pose proof (@step_until_flush_sys x (t_HEAD w) 0%nat None (os w)) as Hsnd.
  destruct (step_until_flush x (t_HEAD w) 0%nat None (os w)) as [st s1].
  simpl in Hfst, Hsnd. subst st s1.
  eexists. split; [reflexivity|]. simpl.
  split; [reflexivity|]. split; [reflexivity|].
  destruct (flush_regs_emits (t_HEAD w) (os w)) as (ev & Hev & Hall & _).
  exists ev. split; [assumption|].
  eapply Forall_impl; [|exact Hall].
  intros e He. now destruct e.
Qed.

(** C10.  The flush comes before the lookup: a call that fails because
    the tid is absent has issued one SETREGS per node of the thread
    table, in table order and with the cached registers, and nothing
    else; the kernel is in the state these calls leave. *)
Theorem step_until_flushes_before_lookup (fuel : nat)
  (x address max_steps : Z) (w : world) :
  (forall t, In t (t_HEAD w) -> tid t <> x) ->
  exists w' ev,
    step_until fuel x address max_steps w = Some (-1, w') /\
    emits (os w) (os w') ev /\
    Forall (fun e => is_setregs e = true) ev /\
    setregs_calls ev = t_HEAD w /\
    kern (os w') = kernel_after_flush (t_HEAD w) (kern (os w)).
Proof.
  intros Habs. unfold step_until, step_until_run.
  pose proof (@step_until_flush_absent x (t_HEAD w) 0%nat None (os w) Habs)
    as Hfst.
  pose proof (@step_until_flush_sys x (t_HEAD w) 0%nat None (os w)) as Hsnd.
  destruct (step_until_flush x (t_HEAD w) 0%nat None (os w)) as [st s1].
  simpl in Hfst, Hsnd. subst st s1.
  destruct (flush_regs_emits (t_HEAD w) (os w)) as (ev & Hev & Hall & Hcalls).
  eexists. exists ev. split; [reflexivity|]. simpl.
  split; [assumption|]. split; [assumption|]. split; [assumption|].
  apply flush_regs_kern.
Qed.

End Facts.

(* ================================================================== *)
(** * The properties at work on the mock *)

Section OnTheMock.
Import Mock Scenario.

(** Running the mock: replace a closed term by its value. *)
Ltac evaluate t :=
  let v := eval vm_compute in t in change t with v in *.

(** The memory of the mock is a store of words at every address. *)
Lemma mock_word_store : word_store mock_word_at (fun _ => True).
Proof.
  constructor; unfold mock_word_at; cbn;
    unfold mock_pokedata, mock_peekdata, mock_setregs, mock_getregs,
      mock_singlestep, mock_cont, mock_waitpid, mock_tgkill.
  - intros pid a d k _. cbn. now rewrite Z.eqb_refl.
  - intros pid a d k a' _ _ Hne. cbn.
    destruct (Z.eqb_spec a a'); [congruence|reflexivity].
  - reflexivity.
  - intros t r k a _. now destruct (mem t (m_running k)).
  - intros t k a _. now destruct (mem t (m_running k)).
  - intros t k a _. now destruct (mem t (m_gone k)).
  - reflexivity.
  - reflexivity.
  - reflexivity.
Qed.

Lemma step_until_no_such_thread_witness :
  exists w',
    step_until 3 9 0x4000F0 5 (attached 0xE0 [] []) = Some (-1, w') /\
    t_HEAD w' = t_HEAD (attached 0xE0 [] []) /\
    b_HEAD w' = b_HEAD (attached 0xE0 [] []) /\
    exists ev,
      emits (os (attached 0xE0 [] [])) (os w') ev /\
      Forall (fun e => is_singlestep e = false) ev.
Proof.
  apply (@step_until_no_such_thread x86_64 mock_kernel 3 9 0x4000F0 5
           (attached 0xE0 [] [])).
  intros t [<-|[]]. simpl. discriminate.
Defined.

Lemma step_until_flushes_before_lookup_witness :
  exists w' ev,
    step_until 3 9 0x4000F0 5 (attached 0xE0 [] []) = Some (-1, w') /\
    emits (os (attached 0xE0 [] [])) (os w') ev /\
    Forall (fun e => is_setregs e = true) ev /\
    setregs_calls ev = t_HEAD (attached 0xE0 [] []) /\
    kern (os w')
    = kernel_after_flush (t_HEAD (attached 0xE0 [] []))
                         (kern (os (attached 0xE0 [] []))).
Proof.
  apply (@step_until_flushes_before_lookup x86_64 mock_kernel 3 9 0x4000F0 5
           (attached 0xE0 [] [])).
  intros t [<-|[]]. simpl. discriminate.
Defined.

(** Scenario for C1: a disable before the first install at [X], then a
    disable and a second install.  PEEKDATA reads the word of the mock,
    and the one record holds that word. *)
Lemma install_keeps_first_words_witness :
  let w := attached 0x400100 [] [] in
  let before := kern (os (run_bp_calls [Disable pid X] w)) in
  mock_word_at before X = 0x1122334455667788 /\
  exists e,
    records_at X
      (b_HEAD (run_bp_calls
                 ([Disable pid X]
                  ++ Install pid X :: [Disable pid X; Install pid X]) w))
    = [mk_bp X (mock_word_at before X)
             (INSTALL_BREAKPOINT (mock_word_at before X)) e].
Proof.
  cbn zeta. split; [reflexivity|].
  exact (proj1 (proj2 (@install_keeps_first_words x86_64 mock_kernel
                         mock_word_at X pid
                         [Disable pid X] [Disable pid X; Install pid X]
                         (attached 0x400100 [] []) eq_refl eq_refl))
               eq_refl).
Defined.

(** The claim C1 as it is worded fails when the PEEKDATA of the first
    install fails.  On the byte-addressed mock, with the tracee running,
    PEEKDATA returns -1: the one record at [X] stores the all-ones word
    as the original, while the word in tracee memory at [X] before (and
    after) the install is 0x8877665544332211. *)
Lemma install_stores_failed_peek :
  let w := ByteMock.running_tracee in
  let w' := run_bp_calls [Install pid X] w in
  records_at X (b_HEAD w) = [] /\
  ByteMock.byte_word_at (kern (os w)) X = 0x8877665544332211 /\
  ByteMock.byte_word_at (kern (os w')) X = 0x8877665544332211 /\
  records_at X (b_HEAD w')
  = [mk_bp X 0xFFFFFFFFFFFFFFFF 0xFFFFFFFFFFFFFFCC true] /\
  (forall e,
     records_at X (b_HEAD w')
     <> [mk_bp X (ByteMock.byte_word_at (kern (os w)) X)
               (INSTALL_BREAKPOINT (ByteMock.byte_word_at (kern (os w)) X))
               e]).
Proof.
  cbn zeta.
  assert (Hbefore : ByteMock.byte_word_at
                      (kern (os ByteMock.running_tracee)) X
                    = 0x8877665544332211) by (vm_compute; reflexivity).
  assert (Hrec : records_at X
                   (b_HEAD (run_bp_calls [Install pid X]
                              ByteMock.running_tracee))
                 = [mk_bp X 0xFFFFFFFFFFFFFFFF 0xFFFFFFFFFFFFFFCC true])
    by (vm_compute; reflexivity).
  rewrite Hbefore, Hrec.
  split; [vm_compute; reflexivity|]. split; [reflexivity|].
  split; [vm_compute; reflexivity|]. split; [reflexivity|].
  intros e E. discriminate E.
Qed.

(** Scenario for C5: disabling the breakpoint installed at [X]. *)
Lemma disable_breakpoint_pokes_patched_witness :
  let w := installed 0x400100 [] [] in
  let w' := disable_breakpoint pid X w in
  b_HEAD w' = [mk_bp X 0x1122334455667788 0x11223344556677CC false] /\
  t_HEAD w' = t_HEAD w /\
  emits (os w) (os w') [PokeData pid X 0x11223344556677CC 0] /\
  kern (os w') = snd (sys_pokedata pid X 0x11223344556677CC (kern (os w))) /\
  (forall word_at code,
     word_store word_at code -> code X ->
     word_at (kern (os w')) X = 0x11223344556677CC).
Proof.
  exact (@disable_breakpoint_pokes_patched x86_64 mock_kernel pid X
           (installed 0x400100 [] []) []
           [] (mk_bp X 0x1122334455667788 0x11223344556677CC true)
           eq_refl eq_refl eq_refl).
Defined.

(** Scenario S2 of the specification, for C2: the thread sits on the
    breakpoint; it is stepped once, then the trap is written, then the
    thread is continued. *)
Lemma cont_all_steps_off_then_arms_witness :
  let w := installed X [] [] in
  exists flush stepoff arm go,
    emits (os w) (os (snd (cont_all_and_set_bps pid w)))
          (flush ++ stepoff ++ arm ++ go) /\
    Forall (fun e => is_setregs e = true) flush /\
    setregs_calls flush = t_HEAD w /\
    Forall (fun e => is_step_or_wait e = true) stepoff /\
    Forall (fun e => is_poke e = true) arm /\
    Forall (fun e => is_cont e = true) go /\
    ((step_off_trace (b_HEAD w) (t_HEAD w) 0 stepoff /\
      pokes arm = arming_writes pid (b_HEAD w) /\
      conts go = map tid (t_HEAD w) /\
      fst (cont_all_and_set_bps pid w) = status_after 0 stepoff /\
      forall t, In t (t_HEAD w) -> sitting_on_bp (b_HEAD w) t = true ->
        (count_singlesteps (tid t) stepoff = 1%nat \/
         count_singlesteps (tid t) stepoff = 2%nat) /\
        (Forall (fun e => wrote_sigstop e = false) stepoff ->
         count_singlesteps (tid t) stepoff = 1%nat)) \/
     (exists ts1 t ts2 pre r,
        t_HEAD w = ts1 ++ t :: ts2 /\
        sitting_on_bp (b_HEAD w) t = true /\
        step_off_trace (b_HEAD w) ts1 0 pre /\
        stepoff = pre ++ [SingleStep (tid t) r] /\ r <> 0 /\
        arm = [] /\ go = [] /\
        fst (cont_all_and_set_bps pid w) = -1 /\
        (forall t', In t' ts1 -> sitting_on_bp (b_HEAD w) t' = true ->
           (count_singlesteps (tid t') stepoff = 1%nat \/
            count_singlesteps (tid t') stepoff = 2%nat) /\
           (Forall (fun e => wrote_sigstop e = false) stepoff ->
            count_singlesteps (tid t') stepoff = 1%nat)) /\
        count_singlesteps (tid t) stepoff = 1%nat /\
        (forall t', In t' ts2 ->
           count_singlesteps (tid t') stepoff = 0%nat))).
Proof.
  apply (@cont_all_steps_off_then_arms x86_64 mock_kernel pid
           (installed X [] [])).
  cbn. constructor; [intros []|constructor].
Defined.

(** The early return on the mock: threads 9, 8 and 7 sit on the
    breakpoint and thread 8 is gone.  Thread 9 is stepped and waited
    for, the step of thread 8 fails and is the last call: thread 7 is
    not stepped, the trap is not written, nobody is continued, and the
    call returns -1. *)
Lemma cont_all_gives_up_at_gone_thread :
  let w := second_thread_gone in
  fst (cont_all_and_set_bps pid w) = -1 /\
  emits (os w) (os (snd (cont_all_and_set_bps pid w)))
        ([@SetRegs x86_64 9 (mk_regs64 X 0) 0;
          SetRegs 8 (mk_regs64 X 0) 0;
          SetRegs 7 (mk_regs64 X 0) 0]
         ++ [SingleStep 9 0; Waitpid 9 0 9 (Some STOPPED_BY_SIGTRAP);
             SingleStep 8 (-1)]).
Proof. cbn zeta. split; reflexivity. Qed.

(** The claim C2 as it is worded fails: when the wait after the step
    reports a stop by SIGSTOP (status 4991), the thread on the breakpoint
    is stepped twice before the trap is written. *)
Lemma cont_all_steps_twice_after_sigstop :
  let w := installed X [] [(T, Some STOPPED_BY_SIGSTOP)] in
  sitting_on_bp (b_HEAD w) (@mk_thread x86_64 T (mk_regs64 X 0)) = true /\
  t_HEAD w = [@mk_thread x86_64 T (mk_regs64 X 0)] /\
  emits (os w) (os (snd (cont_all_and_set_bps pid w)))
        ([@SetRegs x86_64 T (mk_regs64 X 0) 0;
          SingleStep T 0; Waitpid T 0 T (Some STOPPED_BY_SIGSTOP);
          SingleStep T 0; Waitpid T 0 T (Some STOPPED_BY_SIGTRAP)]
         ++ PokeData pid X 0x11223344556677CC 0 :: [Continue T 0]) /\
  count_singlesteps T
    [@SetRegs x86_64 T (mk_regs64 X 0) 0;
     SingleStep T 0; Waitpid T 0 T (Some STOPPED_BY_SIGSTOP);
     SingleStep T 0; Waitpid T 0 T (Some STOPPED_BY_SIGTRAP)] <> 1%nat.
Proof.
  cbn zeta. split; [reflexivity|]. split; [reflexivity|].
  split; [reflexivity|]. vm_compute. discriminate.
Qed.

(** Scenario S3 of the specification, for C3: five steps, each moving
    the instruction pointer by two, none reaching the target. *)
Lemma step_until_step_budget_witness :
  exists w',
    step_until_run 5 T 0x4000F0 5 (attached 0xE0 [] []) = Some (0, 5, w').
Proof.
  destruct (@step_until_step_budget x86_64 mock_kernel T 0x4000F0 5
              (attached 0xE0 [] []) (@mk_thread x86_64 T (mk_regs64 0xE0 0)))
    as (_ & Hbounded & _).
  - cbn. constructor; [intros []|constructor].
  - now left.
  - reflexivity.
  - discriminate.
  - apply Hbounded; [discriminate|reflexivity].
Defined.

(** The claim C3 as it is worded fails for negative bounds other than
    -1: with [max_steps = -2] the call returns 0 at once, without a
    single step, although the thread is not at the target and would
    advance when stepped. *)
Lemma step_until_negative_budget_returns_at_once :
  let w := attached 0xE0 [] [] in
  advances 10 T 0x4000F0 0xE0
           (kernel_after_flush (t_HEAD w) (kern (os w))) = true /\
  exists w',
    step_until_run 10 T 0x4000F0 (-2) w = Some (0, 0, w') /\
    t_HEAD w' = [@mk_thread x86_64 T (mk_regs64 0xE0 0)] /\
    trace (os w') = [@SetRegs x86_64 T (mk_regs64 0xE0 0) 0].
Proof.
  cbn zeta. split; [reflexivity|].
  eexists. split; [reflexivity|]. split; reflexivity.
Qed.

(** Scenario S1 of the specification, for C4: the tracee runs into the
    breakpoint, the wait succeeds, and the original word is back. *)
Lemma memory_at_rest_witness :
  let w := running 0x400100 [] [(T, Some STOPPED_BY_SIGTRAP)] in
  exists l w',
    wait_all_and_update_regs 0 0 1 pid w = Some (Some l, w') /\
    l = [mk_status T STOPPED_BY_SIGTRAP] /\
    mock_word_at (kern (os w')) X = word /\
    b_HEAD w' = b_HEAD w /\
    (forall b, In b (b_HEAD w') -> enabled b = true ->
       mock_word_at (kern (os w')) (addr b) = instruction b) /\
    (forall b, In b (b_HEAD w') -> enabled b = false ->
       mock_word_at (kern (os w')) (addr b) = patched_instruction b) /\
    (exists ev,
       emits (os w) (os w') ev /\
       pokes ev = restoring_writes pid (b_HEAD w)).
Proof.
  cbn zeta.
  destruct (@memory_at_rest x86_64 mock_kernel mock_word_at (fun _ => True)
              0 0 1%nat pid
              (running 0x400100 [] [(T, Some STOPPED_BY_SIGTRAP)])
              mock_word_store) as (l & w' & Hrun & Hprops).
  - evaluate (running 0x400100 [] [(T, Some STOPPED_BY_SIGTRAP)]).
    split; [|split].
    + cbn. constructor; [intros []|constructor].
    + intros b _. exact I.
    + intros b [<-|[]] Hd. discriminate Hd.
  - vm_compute. discriminate.
  - vm_compute. reflexivity.
  - exists l, w'. split; [exact Hrun|].
    evaluate (wait_all_and_update_regs 0 0 1 pid
                (running 0x400100 [] [(T, Some STOPPED_BY_SIGTRAP)])).
    injection Hrun as <- <-.
    split; [reflexivity|]. split; [reflexivity|]. exact Hprops.
Defined.

(** The claim C4 as it is worded fails for a call whose first wait
    fails: the list is NULL, nothing is written, and the trap is still
    in memory under the enabled record. *)
Lemma memory_not_at_rest_after_failed_wait :
  let w := running 0x400100 [] [(-1, None)] in
  bp_table_ok mock_word_at (fun _ => True) w /\
  exists res,
    wait_all_and_update_regs 0 0 1 pid w = Some res /\
    fst res = None /\
    b_HEAD (snd res)
    = [mk_bp X 0x1122334455667788 0x11223344556677CC true] /\
    mock_word_at (kern (os (snd res))) X = 0x11223344556677CC /\
    mock_word_at (kern (os (snd res))) X <> 0x1122334455667788.
Proof.
  cbn zeta. split.
  - evaluate (running 0x400100 [] [(-1, None)]).
    split; [|split].
    + cbn. constructor; [intros []|constructor].
    + intros b _. exact I.
    + intros b [<-|[]] Hd. discriminate Hd.
  - evaluate (wait_all_and_update_regs 0 0 1 pid
                (running 0x400100 [] [(-1, None)])).
    eexists. split; [reflexivity|]. cbn [fst snd b_HEAD os kern].
    split; [reflexivity|]. split; [reflexivity|].
    split; [reflexivity|]. vm_compute. discriminate.
Qed.

(** Why C4 needs a store of words: on the byte-addressed mock, with
    breakpoints at [X + 1] and [X], whose words share seven bytes, a run
    and a successful wait leave under the enabled record at [X] a word
    that is not its original word. *)
Lemma memory_not_at_rest_on_overlapping_words :
  let w := snd (cont_all_and_set_bps pid ByteMock.overlapping) in
  exists l w',
    wait_all_and_update_regs 0 0 2 pid w = Some (Some l, w') /\
    b_HEAD w' = [mk_bp X 0x887766554433CC11 0x887766554433CCCC true;
                 mk_bp (X + 1) 0x9988776655443322 0x99887766554433CC true] /\
    ByteMock.byte_word_at (kern (os w')) X = 0x8877665544332211.
Proof.
  cbn zeta.
  evaluate (wait_all_and_update_regs 0 0 2 pid
              (snd (cont_all_and_set_bps pid ByteMock.overlapping))).
  eexists. eexists. split; [reflexivity|].
  cbn [b_HEAD os kern]. split; reflexivity.
Qed.

(** One iteration on the mock, for C6: the step moves the instruction
    pointer from 0xE0 to 0xE2, which is not the target. *)
Lemma step_until_iteration_witness :
  let s := os (attached 0xE0 [] []) in
  let cur := mk_regs64 0xE0 0 in
  let s3 := snd (ptrace_getregs T
                   (snd (waitpid T 0 (snd (ptrace_singlestep T s))))) in
  step_until_loop 3 T 0x4000F0 5 cur s 0
  = step_until_loop 2 T 0x4000F0 5 (mk_regs64 0xE2 0) s3 1.
Proof.
  cbn zeta.
  destruct (@step_until_iteration x86_64 mock_kernel 2 T 0x4000F0 5
              (mk_regs64 0xE0 0) (os (attached 0xE0 [] [])) 0
              eq_refl eq_refl) as (_ & _ & Hcounted).
  apply Hcounted.
  - discriminate.
  - discriminate.
  - unfold INT_MIN, INT_MAX. lia.
Defined.

(** Scenario S5 of the specification with a drained event, for C7:
    thread 7 reports first, 9 and 8 are stopped by SIGSTOP, thread 10 is
    picked up by the drain. *)
Lemma wait_all_list_newest_first_witness :
  exists l w',
    wait_all_and_update_regs 0 0 3 pid three_threads = Some (Some l, w') /\
    l = [mk_status 10 STOPPED_BY_SIGTRAP; mk_status 8 STOPPED_BY_SIGSTOP;
         mk_status 9 STOPPED_BY_SIGSTOP; mk_status 7 STOPPED_BY_SIGTRAP] /\
    exists r st probe drained dry rest,
      emits (os three_threads) (os w')
            (Waitpid (-1) __WALL r st :: probe ++ drained ++ dry :: rest) /\
      Forall (fun e => probe_call e = true) probe /\
      Forall (fun e => drained_call e = true) drained /\
      dry_poll dry = true /\
      Forall (fun e => is_waitpid e = false) rest /\
      l = rev (wait_nodes (status_after 0 probe) drained)
          ++ rev (wait_nodes 0 probe) ++ [mk_status r (stored 0 st)] /\
      rev l = mk_status r (stored 0 st) :: wait_nodes 0 (probe ++ drained).
Proof.
  destruct (@wait_all_list_newest_first x86_64 mock_kernel 0 0 3%nat pid
              three_threads) as (l & w' & Hrun & Hprops).
  - vm_compute. discriminate.
  - vm_compute. reflexivity.
  - exists l, w'. split; [exact Hrun|]. split; [|exact Hprops].
    evaluate (wait_all_and_update_regs 0 0 3 pid three_threads).
    now injection Hrun as <- _.
Defined.

Lemma wait_all_primary_failure_witness :
  let w := running 0x400100 [] [(-1, None)] in
  exists w',
    wait_all_and_update_regs 0 0 1 pid w = Some (None, w') /\
    emits (os w) (os w') [Waitpid (-1) __WALL (-1) None] /\
    kern (os w') = snd (sys_waitpid (-1) __WALL (kern (os w))) /\
    t_HEAD w' = t_HEAD w /\
    b_HEAD w' = b_HEAD w.
Proof.
  exact (@wait_all_primary_failure x86_64 mock_kernel 0 0 1%nat pid
           (running 0x400100 [] [(-1, None)]) eq_refl).
Defined.

End OnTheMock.

(* ================================================================== *)
(** * Further properties of the interface *)

Section Interface.

Context {A : Arch} {K : Kernel user_regs_struct}.

(* ------------------------------------------------------------------ *)
(** ** The thread table *)

Lemma has_tid_absent (x : Z) (ts : list thread) :
  existsb (has_tid x) ts = false <-> (forall t, In t ts -> tid t <> x).
Proof.
  induction ts as [|t ts IH]; cbn [existsb].
  - split; [intros _ t []|reflexivity].
  - unfold has_tid at 1. rewrite orb_false_iff, IH. split.
    + intros [Ht Hts] t' [<-|Hin]; [now apply Z.eqb_neq|now apply Hts].
    + intros H. split.
      * apply Z.eqb_neq. apply H. now left.
      * intros t' Hin. apply H. now right.
Qed.

Lemma refreshed_tid (t : thread) (res : option user_regs_struct) :
  tid (refreshed t res) = tid t.
Proof. now destruct res. Qed.

Lemma register_thread_has (fresh : user_regs_struct) (x : Z) (w : world) :
  existsb (has_tid x) (t_HEAD (register_thread fresh x w)) = true.
Proof.
  unfold register_thread.
  destruct (existsb (has_tid x) (t_HEAD w)) eqn:Ex; [assumption|].
  destruct (ptrace_getregs x (os w)) as [res s1]. cbn [t_HEAD existsb].
  unfold has_tid at 1. rewrite refreshed_tid. cbn [tid].
  now rewrite Z.eqb_refl.
Qed.

(** X1.  Registering a tid a second time changes nothing and issues no
    call, whatever the first registration found: [register_thread] after
    [register_thread] of the same tid is the first one alone. *)
Theorem register_thread_twice (fresh fresh' : user_regs_struct) (x : Z)
  (w : world) :
  register_thread fresh' x (register_thread fresh x w)
  = register_thread fresh x w.
Proof.
  pose proof (register_thread_has fresh x w) as Hhas.
  set (w1 := register_thread fresh x w) in *.
  unfold register_thread. now rewrite Hhas.
Qed.

(** X2.  [register_thread] keeps the tids of the table distinct, keeps
    every node that was there, ends with a node for the tid, touches no
    breakpoint record, and issues at most one call, a GETREGS of the
    tid, and only when the tid was not registered. *)
Theorem register_thread_keeps_table (fresh : user_regs_struct) (x : Z)
  (w : world) :
  NoDup (map tid (t_HEAD w)) ->
  let w' := register_thread fresh x w in
  NoDup (map tid (t_HEAD w')) /\
  (exists t, In t (t_HEAD w') /\ tid t = x) /\
  (forall t, In t (t_HEAD w) -> In t (t_HEAD w')) /\
  b_HEAD w' = b_HEAD w /\
  ((exists t, In t (t_HEAD w) /\ tid t = x) /\ w' = w \/
   (forall t, In t (t_HEAD w) -> tid t <> x) /\
   emits (os w) (os w') [GetRegs x (fst (sys_getregs x (kern (os w))))]).
Proof.
  intros Hnd. cbn zeta. unfold register_thread.
  destruct (existsb (has_tid x) (t_HEAD w)) eqn:Ex.
  - apply existsb_exists in Ex. destruct Ex as (t & Hin & Ht).
    unfold has_tid in Ht. apply Z.eqb_eq in Ht.
    split; [assumption|]. split; [now exists t|].
    split; [now intros|]. split; [reflexivity|].
    left. split; [now exists t|reflexivity].
  - pose proof (proj1 (has_tid_absent x (t_HEAD w)) Ex) as Habs.
    cbn [ptrace_getregs].
    cbn [t_HEAD b_HEAD os map]. rewrite refreshed_tid. cbn [tid].
    split; [|split; [|split; [|split]]].
    + constructor; [|assumption].
      intros Hin. apply in_map_iff in Hin. destruct Hin as (t & Ht & Hin).
      now apply (Habs t).
    + eexists. split; [now left|]. now rewrite refreshed_tid.
    + intros t Hin. now right.
    + reflexivity.
    + right. split; [exact Habs|reflexivity].
Qed.

Lemma unlink_thread_In (x : Z) (ts : list thread) (t : thread) :
  NoDup (map tid ts) ->
  In t (unlink_thread x ts) <-> In t ts /\ tid t <> x.
Proof.
  induction ts as [|t0 ts IH]; intros Hnd; cbn [unlink_thread].
  - split; [intros []|intros [[] _]].
  - cbn [map] in Hnd. inversion Hnd as [|? ? Hnotin Hnd']; subst.
    destruct (Z.eqb_spec (tid t0) x) as [E|E].
    + split.
      * intros Hin. split; [now right|].
        intros Ht. apply Hnotin. rewrite E, <- Ht. now apply in_map.
      * intros [[<-|Hin] Hne]; [contradiction|assumption].
    + cbn [In]. rewrite IH by assumption. split.
      * intros [<-|[Hin Hne]]; [split; [now left|assumption]|].
        split; [now right|assumption].
      * intros [[<-|Hin] Hne]; [now left|right; now split].
Qed.

Lemma unlink_thread_absent (x : Z) (ts : list thread) :
  (forall t, In t ts -> tid t <> x) -> unlink_thread x ts = ts.
Proof.
  induction ts as [|t0 ts IH]; intros Habs; cbn [unlink_thread];
    [reflexivity|].
  destruct (Z.eqb_spec (tid t0) x) as [E|E].
  - exfalso. apply (Habs t0); [now left|assumption].
  - rewrite IH; [reflexivity|]. intros t Hin. apply Habs. now right.
Qed.

Lemma unlink_thread_nodup (x : Z) (ts : list thread) :
  NoDup (map tid ts) -> NoDup (map tid (unlink_thread x ts)).
Proof.
  induction ts as [|t0 ts IH]; intros Hnd; cbn [unlink_thread];
    [assumption|].
  cbn [map] in Hnd. inversion Hnd as [|? ? Hnotin Hnd']; subst.
  destruct (tid t0 =? x); [assumption|].
  cbn [map]. constructor; [|now apply IH].
  intros Hin. apply in_map_iff in Hin. destruct Hin as (t & Ht & Hin).
  apply unlink_thread_In in Hin; [|assumption].
  apply Hnotin. rewrite <- Ht. apply in_map. tauto.
Qed.

(** X3.  In a table with distinct tids, [unregister_thread] removes the
    node of the tid and no other node: the nodes left are those of the
    other tids.  It issues no call, keeps the tids distinct and leaves
    the breakpoint table alone; for a tid that is not registered it
    changes nothing. *)
Theorem unregister_thread_removes (x : Z) (w : world) :
  NoDup (map tid (t_HEAD w)) ->
  let w' := unregister_thread x w in
  (forall t, In t (t_HEAD w') <-> In t (t_HEAD w) /\ tid t <> x) /\
  NoDup (map tid (t_HEAD w')) /\
  os w' = os w /\
  b_HEAD w' = b_HEAD w /\
  ((forall t, In t (t_HEAD w) -> tid t <> x) -> t_HEAD w' = t_HEAD w).
Proof.
  intros Hnd. cbn zeta. unfold unregister_thread. cbn [t_HEAD os b_HEAD].
  split; [|split; [|split; [|split]]].
  - intros t. now apply unlink_thread_In.
  - now apply unlink_thread_nodup.
  - reflexivity.
  - reflexivity.
  - apply unlink_thread_absent.
Qed.

(** X4.  Registering a tid that is not in the table and unregistering
    it again gives back the thread table as it was; the only call of
    the two operations is the GETREGS of the registration. *)
Theorem register_then_unregister_thread (fresh : user_regs_struct) (x : Z)
  (w : world) :
  (forall t, In t (t_HEAD w) -> tid t <> x) ->
  let w' := unregister_thread x (register_thread fresh x w) in
  t_HEAD w' = t_HEAD w /\
  b_HEAD w' = b_HEAD w /\
  emits (os w) (os w') [GetRegs x (fst (sys_getregs x (kern (os w))))].
Proof.
  intros Habs. cbn zeta. unfold register_thread.
  rewrite (proj2 (has_tid_absent x (t_HEAD w)) Habs).
  cbn [ptrace_getregs]. unfold unregister_thread.
  cbn [t_HEAD b_HEAD os unlink_thread].
  rewrite refreshed_tid. cbn [tid]. rewrite Z.eqb_refl.
  repeat split.
Qed.

(* ------------------------------------------------------------------ *)
(** ** The breakpoint table *)

Lemma unlink_breakpoint_In (a : Z) (bs : list software_breakpoint)
  (b : software_breakpoint) :
  NoDup (map addr bs) ->
  In b (unlink_breakpoint a bs) <-> In b bs /\ addr b <> a.
Proof.
  induction bs as [|b0 bs IH]; intros Hnd; cbn [unlink_breakpoint].
  - split; [intros []|intros [[] _]].
  - cbn [map] in Hnd. inversion Hnd as [|? ? Hnotin Hnd']; subst.
    destruct (Z.eqb_spec (addr b0) a) as [E|E].
    + split.
      * intros Hin. split; [now right|].
        intros Hb. apply Hnotin. rewrite E, <- Hb. now apply in_map.
      * intros [[<-|Hin] Hne]; [contradiction|assumption].
    + cbn [In]. rewrite IH by assumption. split.
      * intros [<-|[Hin Hne]]; [split; [now left|assumption]|].
        split; [now right|assumption].
      * intros [[<-|Hin] Hne]; [now left|right; now split].
Qed.

Lemma unlink_breakpoint_absent (a : Z) (bs : list software_breakpoint) :
  records_at a bs = [] -> unlink_breakpoint a bs = bs.
Proof.
  induction bs as [|b0 bs IH]; cbn [unlink_breakpoint]; [reflexivity|].
  rewrite records_at_cons. destruct (addr b0 =? a); [discriminate|].
  intros H. now rewrite IH.
Qed.

Lemma unlink_breakpoint_sub (a : Z) (bs : list software_breakpoint)
  (b : software_breakpoint) :
  In b (unlink_breakpoint a bs) -> In b bs.
Proof.
  induction bs as [|b0 bs IH]; cbn [unlink_breakpoint]; [intros []|].
  destruct (addr b0 =? a).
  - intros Hin. now right.
  - intros [<-|Hin]; [now left|right; now apply IH].
Qed.

Lemma unlink_breakpoint_nodup (a : Z) (bs : list software_breakpoint) :
  NoDup (map addr bs) -> NoDup (map addr (unlink_breakpoint a bs)).
Proof.
  induction bs as [|b0 bs IH]; intros Hnd; cbn [unlink_breakpoint];
    [assumption|].
  cbn [map] in Hnd. inversion Hnd as [|? ? Hnotin Hnd']; subst.
  destruct (addr b0 =? a); [assumption|].
  cbn [map]. constructor; [|now apply IH].
  intros Hin. apply in_map_iff in Hin. destruct Hin as (b & Hb & Hin).
  apply unlink_breakpoint_sub in Hin.
  apply Hnotin. rewrite <- Hb. now apply in_map.
Qed.

Lemma register_breakpoint_os (pid a : Z) (w : world) :
  os (register_breakpoint pid a w)
  = snd (ptrace_pokedata pid a
           (INSTALL_BREAKPOINT (uint64 (fst (ptrace_peekdata pid a (os w)))))
           (snd (ptrace_peekdata pid a (os w)))).
Proof.
  unfold register_breakpoint. cbn [ptrace_peekdata ptrace_pokedata fst snd].
  now destruct (enable_existing a (b_HEAD w)).
Qed.

Lemma register_breakpoint_threads (pid a : Z) (w : world) :
  t_HEAD (register_breakpoint pid a w) = t_HEAD w.
Proof.
  unfold register_breakpoint. cbn [ptrace_peekdata ptrace_pokedata fst snd].
  now destruct (enable_existing a (b_HEAD w)).
Qed.

(** X5.  In a table with one record per address,
    [unregister_breakpoint] removes the record at the address and no
    other record.  It issues no call, so the tracee memory is not
    restored by it; it keeps the addresses distinct and leaves the
    thread table alone; where no record is at the address it changes
    nothing. *)
Theorem unregister_breakpoint_removes (a : Z) (w : world) :
  NoDup (map addr (b_HEAD w)) ->
  let w' := unregister_breakpoint a w in
  (forall b, In b (b_HEAD w') <-> In b (b_HEAD w) /\ addr b <> a) /\
  NoDup (map addr (b_HEAD w')) /\
  os w' = os w /\
  t_HEAD w' = t_HEAD w /\
  (records_at a (b_HEAD w) = [] -> b_HEAD w' = b_HEAD w).
Proof.
  intros Hnd. cbn zeta. unfold unregister_breakpoint.
  cbn [t_HEAD os b_HEAD].
  split; [|split; [|split; [|split]]].
  - intros b. now apply unlink_breakpoint_In.
  - now apply unlink_breakpoint_nodup.
  - reflexivity.
  - reflexivity.
  - apply unlink_breakpoint_absent.
Qed.

(** X6.  Installing a breakpoint where the table has no record and
    removing it again gives back both tables, but not the memory: the
    calls of the two operations are the PEEKDATA and the POKEDATA of the
    install, and on a memory that behaves as a store of words the word
    at the address is left as INSTALL_BREAKPOINT of the word read. *)
Theorem register_then_unregister_breakpoint (pid a : Z) (w : world) :
  records_at a (b_HEAD w) = [] ->
  let w' := unregister_breakpoint a (register_breakpoint pid a w) in
  let peeked := fst (sys_peekdata pid a (kern (os w))) in
  let patched := INSTALL_BREAKPOINT (uint64 peeked) in
  b_HEAD w' = b_HEAD w /\
  t_HEAD w' = t_HEAD w /\
  (exists ret,
     emits (os w) (os w') [PeekData pid a peeked; PokeData pid a patched ret]) /\
  (forall word_at code,
     word_store word_at code -> code a ->
     word_at (kern (os w')) a = patched).
Proof.
  intros Hnil. cbn zeta. unfold unregister_breakpoint.
  cbn [b_HEAD t_HEAD os].
  rewrite register_breakpoint_table, register_breakpoint_os,
    register_breakpoint_threads.
  rewrite (proj2 (enable_existing_none a (b_HEAD w)) Hnil). cbn zeta.
  cbn [unlink_breakpoint addr]. rewrite Z.eqb_refl.
  split; [reflexivity|]. split; [reflexivity|]. split.
  - eexists. unfold emits. cbn. now rewrite <- app_assoc.
  - intros word_at code Hstore Ha. cbn. now apply (poke_hit Hstore).
Qed.

(** X7.  [disable_breakpoint] at an address without a record does
    nothing at all: no call, no change of either table. *)
Theorem disable_breakpoint_absent (pid a : Z) (w : world) :
  records_at a (b_HEAD w) = [] ->
  disable_breakpoint pid a w = w.
Proof.
  intros Hnil. unfold disable_breakpoint.
  destruct (disable_search_spec pid a (b_HEAD w) (os w))
    as [[_ ->]|(pre & b & post & E & Hb & Hpre & _)].
  - now destruct w.
  - exfalso. rewrite E, records_at_app, records_at_cons, Hb, Z.eqb_refl in Hnil.
    now destruct (records_at a pre).
Qed.

(** X8.  Disabling a breakpoint and installing it again gives back the
    record with its stored words and [enabled] set, every other record
    being as before; when the record was enabled, the table is the one
    before the two calls. *)
Theorem disable_then_register_breakpoint (pid pid' a : Z) (w : world)
  (pre post : list software_breakpoint) (b : software_breakpoint) :
  b_HEAD w = pre ++ b :: post ->
  addr b = a ->
  records_at a pre = [] ->
  let w' := register_breakpoint pid' a (disable_breakpoint pid a w) in
  b_HEAD w'
  = pre ++ mk_bp a (instruction b) (patched_instruction b) true :: post /\
  (enabled b = true -> b_HEAD w' = b_HEAD w).
Proof.
  intros E Hb Hpre. cbn zeta.
  assert (Htable : b_HEAD (disable_breakpoint pid a w)
                   = pre ++ set_enabled false b :: post).
  { rewrite disable_breakpoint_table.
    destruct (disable_search_spec pid a (b_HEAD w) (os w))
      as [[Hnil _]|(pre' & b' & post' & E' & Hb' & Hpre' & ->)].
    - exfalso.
      rewrite E, records_at_app, records_at_cons, Hb, Z.eqb_refl in Hnil.
      now destruct (records_at a pre).
    - cbn [fst]. rewrite E in E'.
      assert (Hsame : pre' = pre /\ b' = b /\ post' = post).
      { clear - E' Hb Hb' Hpre Hpre'.
        revert pre' E' Hpre'.
        induction pre as [|p pre IH]; intros pre' E' Hpre'.
        - destruct pre' as [|p' pre']; cbn in E'.
          + injection E' as -> ->. repeat split.
          + injection E' as -> _.
            rewrite records_at_cons, Hb, Z.eqb_refl in Hpre'. discriminate.
        - destruct pre' as [|p' pre']; cbn in E'.
          + injection E' as -> _.
            rewrite records_at_cons, Hb', Z.eqb_refl in Hpre. discriminate.
          + injection E' as -> E'.
            rewrite records_at_cons in Hpre, Hpre'.
            destruct (addr p' =? a); [discriminate|].
            destruct (IH Hpre pre' E' Hpre') as (-> & -> & ->).
            repeat split. }
      now destruct Hsame as (-> & -> & ->). }
  assert (Hen : enable_existing a (pre ++ set_enabled false b :: post)
                = Some (pre ++ set_enabled true b :: post)).
  { clear - Hb Hpre. induction pre as [|p pre IH]; cbn [app enable_existing].
    - cbn [set_enabled addr]. now rewrite Hb, Z.eqb_refl.
    - rewrite records_at_cons in Hpre.
      destruct (addr p =? a); [discriminate|]. now rewrite IH. }
  assert (Hres : b_HEAD (register_breakpoint pid' a
                           (disable_breakpoint pid a w))
                 = pre ++ mk_bp a (instruction b) (patched_instruction b) true
                       :: post).
  { rewrite register_breakpoint_table, Htable, Hen.
    unfold set_enabled. now rewrite Hb. }
  split; [exact Hres|].
  intros Hon. rewrite Hres, E. destruct b as [ba bi bp be].
  cbn in *. now subst.
Qed.

(** X9.  [register_breakpoint] reports no failure and always leaves an
    enabled record at the address.  When the table has no record there
    and PEEKDATA fails with -1, the record it creates holds the all-ones
    word as the original instruction. *)
Theorem register_breakpoint_always_records (pid a : Z) (w : world) :
  (exists b,
     In b (b_HEAD (register_breakpoint pid a w)) /\
     addr b = a /\ enabled b = true) /\
  (records_at a (b_HEAD w) = [] ->
   fst (sys_peekdata pid a (kern (os w))) = -1 ->
   b_HEAD (register_breakpoint pid a w)
   = mk_bp a (2 ^ 64 - 1) (INSTALL_BREAKPOINT (2 ^ 64 - 1)) true
     :: b_HEAD w).
Proof.
  rewrite register_breakpoint_table. split.
  - destruct (enable_existing a (b_HEAD w)) as [bs|] eqn:Een.
    + apply enable_existing_some in Een.
      destruct Een as (pre & b & post & _ & Hb & _ & ->).
      exists (set_enabled true b). split; [|split].
      * apply in_or_app. right. now left.
      * exact Hb.
      * reflexivity.
    + cbn zeta. eexists. split; [now left|]. split; reflexivity.
  - intros Hnil Hfail.
    rewrite (proj2 (enable_existing_none a (b_HEAD w)) Hnil). cbn zeta.
    rewrite Hfail. reflexivity.
Qed.

(* ------------------------------------------------------------------ *)
(** ** [singlestep] and [cont_all_and_set_bps] *)

(** X10.  [singlestep] first writes back the cached registers of every
    thread of the table, in table order, and then issues one SINGLESTEP
    of the requested tid, whose result it returns.  It does not look the
    tid up: this holds whether or not the tid is registered.  Both
    tables are left as they were. *)
Theorem singlestep_flushes_then_steps (x : Z) (w : world) :
  exists flush,
    emits (os w) (os (snd (singlestep x w)))
          (flush ++ [SingleStep x (fst (singlestep x w))]) /\
    Forall (fun e => is_setregs e = true) flush /\
    setregs_calls flush = t_HEAD w /\
    t_HEAD (snd (singlestep x w)) = t_HEAD w /\
    b_HEAD (snd (singlestep x w)) = b_HEAD w.
Proof.
  unfold singlestep.
  destruct (flush_regs_emits (t_HEAD w) (os w)) as (flush & Hf & Hall & Hcalls).
  pose proof (ptrace_singlestep_emits x (flush_regs (t_HEAD w) (os w))) as Hs.
  destruct (ptrace_singlestep x (flush_regs (t_HEAD w) (os w))) as [r s2].
  cbn [fst snd os t_HEAD b_HEAD] in *.
  exists flush. split; [exact (emits_trans Hf Hs)|]. repeat split; assumption.
Qed.

Lemma step_or_wait_not_setregs (ev : list event) :
  Forall (fun e => is_step_or_wait e = true) ev ->
  Forall (fun e => is_setregs e = false) ev.
Proof. apply Forall_impl. intros e He. now destruct e. Qed.

Lemma poke_not_setregs (ev : list event) :
  Forall (fun e => is_poke e = true) ev ->
  Forall (fun e => is_setregs e = false) ev.
Proof. apply Forall_impl. intros e He. now destruct e. Qed.

Lemma cont_not_setregs (ev : list event) :
  Forall (fun e => is_cont e = true) ev ->
  Forall (fun e => is_setregs e = false) ev.
Proof. apply Forall_impl. intros e He. now destruct e. Qed.

(** X11.  [cont_all_and_set_bps] starts by writing back the cached
    registers of every thread, in table order, and issues no SETREGS
    afterwards; the tables are left as they were.  Its calls after the
    flush and its return value are one of two.  When the first
    SINGLESTEP of a thread [t] sitting on a breakpoint fails, after the
    threads before [t] have been stepped off, that failed call is the
    last call, nothing is armed, nobody is continued, and the return
    value is -1.  When none fails, the step-off runs over the whole
    thread table, the patched words of the enabled records are written,
    every thread is continued, and the return value is the content of
    [status] after the waits of the step-off. *)
Theorem cont_all_flushes_and_returns_status (pid : Z) (w : world) :
  exists flush stepoff arm go,
    emits (os w) (os (snd (cont_all_and_set_bps pid w)))
          (flush ++ stepoff ++ arm ++ go) /\
    Forall (fun e => is_setregs e = true) flush /\
    setregs_calls flush = t_HEAD w /\
    Forall (fun e => is_setregs e = false) (stepoff ++ arm ++ go) /\
    t_HEAD (snd (cont_all_and_set_bps pid w)) = t_HEAD w /\
    b_HEAD (snd (cont_all_and_set_bps pid w)) = b_HEAD w /\
    ((exists ts1 t ts2 pre r,
        t_HEAD w = ts1 ++ t :: ts2 /\
        sitting_on_bp (b_HEAD w) t = true /\
        step_off_trace (b_HEAD w) ts1 0 pre /\
        stepoff = pre ++ [SingleStep (tid t) r] /\ r <> 0 /\
        arm = [] /\ go = [] /\
        fst (cont_all_and_set_bps pid w) = -1) \/
     (step_off_trace (b_HEAD w) (t_HEAD w) 0 stepoff /\
      Forall (fun e => is_poke e = true) arm /\
      pokes arm = arming_writes pid (b_HEAD w) /\
      Forall (fun e => is_cont e = true) go /\
      conts go = map tid (t_HEAD w) /\
      fst (cont_all_and_set_bps pid w) = status_after 0 stepoff)).
Proof.
  unfold cont_all_and_set_bps.
  destruct (flush_regs_emits (t_HEAD w) (os w)) as (flush & Hf & Hfall & Hcalls).
  destruct (step_off_spec (b_HEAD w) (t_HEAD w) 0
              (flush_regs (t_HEAD w) (os w)))
    as (stepoff & Hs & Hsall & Hres).
  destruct (step_off (b_HEAD w) (t_HEAD w) 0 (flush_regs (t_HEAD w) (os w)))
    as [s2 [status|]]; cbn [fst snd os t_HEAD b_HEAD] in *.
  - destruct (arm_breakpoints_spec pid (b_HEAD w) s2)
      as (arm & Ha & Haall & Hpk).
    destruct (cont_threads_spec (t_HEAD w) (arm_breakpoints pid (b_HEAD w) s2))
      as (go & Hg & Hgall & Hcs).
    destruct Hres as [Htr Hst].
    exists flush, stepoff, arm, go.
    split; [exact (emits_trans Hf (emits_trans Hs (emits_trans Ha Hg)))|].
    split; [exact Hfall|]. split; [exact Hcalls|].
    split.
    { apply Forall_app. split; [now apply step_or_wait_not_setregs|].
      apply Forall_app. split;
        [now apply poke_not_setregs|now apply cont_not_setregs]. }
    split; [reflexivity|]. split; [reflexivity|].
    right. split; [exact Htr|]. split; [exact Haall|]. split; [exact Hpk|].
    split; [exact Hgall|]. split; [exact Hcs|exact Hst].
  - destruct Hres as (ts1 & t & ts2 & pre & r & Ets & Hsit & Htr & -> & Hr).
    exists flush, (pre ++ [SingleStep (tid t) r]), [], [].
    split; [rewrite !app_nil_r; exact (emits_trans Hf Hs)|].
    split; [exact Hfall|]. split; [exact Hcalls|].
    split; [rewrite !app_nil_r; now apply step_or_wait_not_setregs|].
    split; [reflexivity|]. split; [reflexivity|].
    left. exists ts1, t, ts2, pre, r.
    split; [exact Ets|]. split; [exact Hsit|]. split; [exact Htr|].
    split; [reflexivity|]. split; [exact Hr|].
    split; [reflexivity|]. split; reflexivity.
Qed.

Lemma step_off_nobody (bs : list software_breakpoint) (ts : list thread)
  (status : Z) (s : sys) :
  (forall t, In t ts -> sitting_on_bp bs t = false) ->
  step_off bs ts status s = (s, Some status).
Proof.
  unfold sitting_on_bp. revert s.
  induction ts as [|t ts IH]; intros s Hno; cbn [step_off]; [reflexivity|].
  rewrite (Hno t) by now left. apply IH. intros t' Hin. apply Hno. now right.
Qed.

(** X12.  When no thread of the table has its cached instruction
    pointer at the address of a record (in particular when the
    breakpoint table is empty), [cont_all_and_set_bps] steps nobody and
    waits for nobody: its calls are the flush, the writes of the patched
    words of the enabled records, and one CONT per thread, and it
    returns 0. *)
Theorem cont_all_without_step_off (pid : Z) (w : world) :
  (forall t, In t (t_HEAD w) -> sitting_on_bp (b_HEAD w) t = false) ->
  fst (cont_all_and_set_bps pid w) = 0 /\
  exists flush arm go,
    emits (os w) (os (snd (cont_all_and_set_bps pid w)))
          (flush ++ arm ++ go) /\
    Forall (fun e => is_setregs e = true) flush /\
    setregs_calls flush = t_HEAD w /\
    Forall (fun e => is_poke e = true) arm /\
    pokes arm = arming_writes pid (b_HEAD w) /\
    Forall (fun e => is_cont e = true) go /\
    conts go = map tid (t_HEAD w) /\
    (b_HEAD w = [] -> arm = []).
Proof.
  intros Hno. unfold cont_all_and_set_bps.
  rewrite (@step_off_nobody (b_HEAD w) (t_HEAD w) 0
             (flush_regs (t_HEAD w) (os w)) Hno).
  cbn [fst snd os].
  split; [reflexivity|].
  destruct (flush_regs_emits (t_HEAD w) (os w)) as (flush & Hf & Hfall & Hcalls).
  destruct (arm_breakpoints_spec pid (b_HEAD w) (flush_regs (t_HEAD w) (os w)))
    as (arm & Ha & Haall & Hpk).
  destruct (cont_threads_spec (t_HEAD w)
              (arm_breakpoints pid (b_HEAD w) (flush_regs (t_HEAD w) (os w))))
    as (go & Hg & Hgall & Hcs).
  exists flush, arm, go.
  split; [exact (emits_trans Hf (emits_trans Ha Hg))|].
  repeat (split; [assumption|]).
  intros Hempty. rewrite Hempty in Ha. cbn [arm_breakpoints] in Ha.
  pose proof (emits_refl (flush_regs (t_HEAD w) (os w))) as Hr.
  exact (emits_inj Ha Hr).
Qed.

(** X13.  Memory in flight.  On a memory that behaves as a store of
    words, with one record per address and the patched word under every
    disabled record: after [cont_all_and_set_bps], either the call gave
    up with -1 and the words at the breakpoint addresses are as before,
    or the patched word is in memory under every enabled record.  In
    both cases the patched word is still under every disabled record. *)
Theorem memory_in_flight (word_at : kstate -> Z -> Z) (code : Z -> Prop)
  (pid : Z) (w : world) :
  word_store word_at code ->
  bp_table_ok word_at code w ->
  let w' := snd (cont_all_and_set_bps pid w) in
  bp_table_ok word_at code w' /\
  ((fst (cont_all_and_set_bps pid w) = -1 /\
    forall a, code a -> word_at (kern (os w')) a = word_at (kern (os w)) a) \/
   (forall b, In b (b_HEAD w) -> enabled b = true ->
      word_at (kern (os w')) (addr b) = patched_instruction b)).
Proof.
  intros Hstore Hok. cbn zeta.
  destruct (@cont_all_keeps_ok _ _ word_at code Hstore pid w Hok) as [Hok' Hen].
  split; [exact Hok'|].
  revert Hen. unfold cont_all_and_set_bps.
  pose proof (fun a Ha => @step_off_quiet _ _ word_at code Hstore (b_HEAD w)
                (t_HEAD w) 0 (flush_regs (t_HEAD w) (os w)) a Ha) as Hq.
  destruct (step_off (b_HEAD w) (t_HEAD w) 0 (flush_regs (t_HEAD w) (os w)))
    as [s2 [status|]]; cbn [fst snd os b_HEAD kern] in *; intros Hen.
  - right. apply Hen. discriminate.
  - left. split; [reflexivity|]. intros a Ha.
    rewrite Hq by assumption.
    now apply (@flush_regs_quiet _ _ word_at code Hstore).
Qed.

(* ------------------------------------------------------------------ *)
(** ** [step_until] *)

Lemma step_until_loop_drives (fuel : nat) (x address max_steps : Z)
  (cur : user_regs_struct) (s : sys) (count : Z) (res : step_result) :
  step_until_loop fuel x address max_steps cur s count = Some res ->
  (sr_ret res = 0 \/ sr_ret res = -1) /\
  exists ev,
    emits s (sr_sys res) ev /\
    Forall (fun e => drives x e = true) ev.
Proof.
  revert cur s count.
  induction fuel as [|fuel IH]; intros cur s count; cbn [step_until_loop];
    (destruct (keep_stepping max_steps count);
     [|intros [= <-]; split; [now left|]; exists [];
       split; [apply emits_refl|constructor]]).
  - discriminate.
  - pose proof (ptrace_singlestep_emits x s) as H1.
    destruct (ptrace_singlestep x s) as [r s1]. cbn [fst snd] in H1.
    destruct (negb (r =? 0)).
    + intros [= <-]. split; [now right|].
      eexists. split; [exact H1|]. constructor; [|constructor].
      cbn. apply Z.eqb_refl.
    + pose proof (waitpid_emits x 0 s1) as H2.
      destruct (waitpid x 0 s1) as [wr s2]. cbn [fst snd] in H2.
      pose proof (ptrace_getregs_emits x s2) as H3.
      destruct (ptrace_getregs x s2) as [got s3]. cbn [fst snd] in H3.
      set (cur' := match got with Some r' => r' | None => cur end).
      pose proof (emits_trans H1 (emits_trans H2 H3)) as H123.
      assert (Hthree : Forall (fun e => drives x e = true)
                ([SingleStep x r] ++ [Waitpid x 0 (fst wr) (snd wr)]
                 ++ [GetRegs x got])).
      { repeat constructor; cbn; rewrite ?Z.eqb_refl; reflexivity. }
      destruct (INSTRUCTION_POINTER cur' =? address).
      * intros [= <-]. split; [now left|].
        eexists. split; [exact H123|exact Hthree].
      * assert (Hrec : forall c,
                  step_until_loop fuel x address max_steps cur' s3 c
                  = Some res ->
                  (sr_ret res = 0 \/ sr_ret res = -1) /\
                  exists ev,
                    emits s (sr_sys res) ev /\
                    Forall (fun e => drives x e = true) ev).
        { intros c Hrun. apply IH in Hrun.
          destruct Hrun as (Hret & ev & Hev & Hall).
          split; [assumption|]. eexists.
          split; [exact (emits_trans H123 Hev)|].
          apply Forall_app. split; assumption. }
        destruct (INSTRUCTION_POINTER cur' =? INSTRUCTION_POINTER cur);
          apply Hrec.
Qed.

Lemma store_regs_tids (i : nat) (r : user_regs_struct) (ts : list thread) :
  map tid (store_regs i r ts) = map tid ts.
Proof.
  revert i. induction ts as [|t ts IH]; intros [|i]; cbn; try reflexivity.
  now rewrite IH.
Qed.

Lemma store_regs_others (i : nat) (r : user_regs_struct) (ts : list thread)
  (ti t : thread) (x : Z) :
  nth_error ts i = Some ti -> tid ti = x ->
  In t ts -> tid t <> x -> In t (store_regs i r ts).
Proof.
  revert i. induction ts as [|t0 ts IH]; intros [|i]; cbn;
    try discriminate.
  - intros [= ->] Hx [<-|Hin] Hne; [contradiction|now right].
  - intros Hn Hx [<-|Hin] Hne; [now left|right; now apply IH].
Qed.

(** X14.  [step_until] drives the requested thread only.  A call that
    returns has returned 0 or -1; after the flush of the cached
    registers of every thread its calls are SINGLESTEP, blocking waits
    and GETREGS of the requested tid and nothing else (no POKEDATA, no
    CONT, no signal).  The breakpoint table, the tids of the thread
    table and the nodes of the other tids are as before. *)
Theorem step_until_drives_only_target (fuel : nat) (x address max_steps : Z)
  (w w' : world) (ret : Z) :
  step_until fuel x address max_steps w = Some (ret, w') ->
  (ret = 0 \/ ret = -1) /\
  b_HEAD w' = b_HEAD w /\
  map tid (t_HEAD w') = map tid (t_HEAD w) /\
  (forall t, In t (t_HEAD w) -> tid t <> x -> In t (t_HEAD w')) /\
  exists flush ev,
    emits (os w) (os w') (flush ++ ev) /\
    Forall (fun e => is_setregs e = true) flush /\
    setregs_calls flush = t_HEAD w /\
    Forall (fun e => drives x e = true) ev.
Proof.
  unfold step_until, step_until_run.
  pose proof (@step_until_flush_sys _ _ x (t_HEAD w) 0%nat None (os w)) as Hsnd.
  pose proof (@step_until_flush_found _ _ x (t_HEAD w) 0%nat None (os w))
    as Hfound.
  destruct (step_until_flush x (t_HEAD w) 0%nat None (os w)) as [st s1].
  cbn [fst snd] in Hsnd, Hfound. subst s1.
  destruct (flush_regs_emits (t_HEAD w) (os w)) as (flush & Hf & Hfall & Hcalls).
  destruct st as [[i t]|].
  - destruct (Hfound i t eq_refl) as [H|(n & -> & Hn & Hx)]; [discriminate|].
    cbn [Nat.add] in *.
    destruct (step_until_loop fuel x address max_steps (regs t)
                (flush_regs (t_HEAD w) (os w)) 0) as [res|] eqn:Eloop;
      [|discriminate].
    intros [= <- <-]. cbn [b_HEAD t_HEAD os].
    destruct (step_until_loop_drives _ _ _ _ _ _ _ Eloop)
      as (Hret & ev & Hev & Hall).
    split; [assumption|]. split; [reflexivity|].
    split; [apply store_regs_tids|]. split.
    + intros t' Hin Hne.
      exact (@store_regs_others n (sr_regs res) (t_HEAD w) t t' x Hn Hx
               Hin Hne).
    + exists flush, ev. split; [exact (emits_trans Hf Hev)|].
      repeat split; assumption.
  - intros [= <- <-]. cbn [b_HEAD t_HEAD os].
    split; [now right|]. split; [reflexivity|]. split; [reflexivity|].
    split; [now intros|].
    exists flush, []. rewrite app_nil_r. repeat split; try assumption.
    constructor.
Qed.

Lemma step_until_loop_stuck (n : nat) (x address max_steps : Z)
  (cur : user_regs_struct) (s : sys) (count : Z) :
  keep_stepping max_steps count = true ->
  stuck n x address (INSTRUCTION_POINTER cur) (kern s) = true ->
  step_until_loop n x address max_steps cur s count = None.
Proof.
  intros Hkeep. revert cur s.
  induction n as [|n IH]; intros cur s; cbn [step_until_loop stuck];
    rewrite Hkeep; [reflexivity|].
  cbn [ptrace_singlestep waitpid ptrace_getregs fst snd kern].
  intros H. apply andb_true_iff in H. destruct H as [H Hrest].
  apply andb_true_iff in H. destruct H as [H Hsame].
  apply andb_true_iff in H. destruct H as [H0 Hne].
  rewrite H0. cbn [negb]. apply negb_true_iff in Hne.
  destruct (fst (sys_getregs x _)) as [r|] eqn:Eg.
  - apply Z.eqb_eq in Hsame. rewrite Hsame, Hne, Z.eqb_refl.
    apply IH. now rewrite Hsame.
  - rewrite Hne, Z.eqb_refl. now apply IH.
Qed.

(** X15.  A thread that does not move hangs [step_until], bound or no
    bound.  When the loop is entered ([max_steps] is -1 or positive) and
    each SINGLESTEP succeeds but the instruction pointer read back is
    the cached one, not the target, or cannot be read, the step counter
    never moves: after any number [n] of such steps the call has not
    returned. *)
Theorem step_until_hangs_on_stuck_thread (n : nat) (x address max_steps : Z)
  (w : world) (t0 : thread) :
  NoDup (map tid (t_HEAD w)) -> In t0 (t_HEAD w) -> tid t0 = x ->
  max_steps = -1 \/ 0 < max_steps ->
  stuck n x address (INSTRUCTION_POINTER (regs t0))
        (kernel_after_flush (t_HEAD w) (kern (os w))) = true ->
  step_until n x address max_steps w = None.
Proof.
  intros Hnd Hin Hx Hms Hstuck.
  destruct (@step_until_flush_finds _ _ x (t_HEAD w) (os w) t0 Hnd Hin Hx)
    as (i & Hfst & Hnth).
  pose proof (@step_until_flush_sys _ _ x (t_HEAD w) 0%nat None (os w)) as Hsnd.
  unfold step_until, step_until_run.
  destruct (step_until_flush x (t_HEAD w) 0%nat None (os w)) as [st s1].
  cbn [fst snd] in Hfst, Hsnd. subst st s1.
  rewrite step_until_loop_stuck; [reflexivity| |].
  - unfold keep_stepping. apply orb_true_iff.
    destruct Hms as [->|Hpos]; [now left|right; now apply Z.ltb_lt].
  - now rewrite flush_regs_kern.
Qed.

Lemma step_until_loop_S (fuel : nat) (x address max_steps : Z)
  (cur : user_regs_struct) (s : sys) (count : Z) :
  step_until_loop (S fuel) x address max_steps cur s count
  = if keep_stepping max_steps count then
      let '(r, s1) := ptrace_singlestep x s in
      if negb (r =? 0) then Some (mk_step_result cur s1 (-1) count)
      else
        let '(_, s2) := waitpid x 0 s1 in
        let previous_ip := INSTRUCTION_POINTER cur in
        let '(res, s3) := ptrace_getregs x s2 in
        let cur' := match res with Some r' => r' | None => cur end in
        if INSTRUCTION_POINTER cur' =? address then
          Some (mk_step_result cur' s3 0 count)
        else if INSTRUCTION_POINTER cur' =? previous_ip then
          step_until_loop fuel x address max_steps cur' s3 count
        else
          step_until_loop fuel x address max_steps cur' s3
                          (int_wrap (count + 1))
    else Some (mk_step_result cur s 0 count).
Proof. reflexivity. Qed.

Lemma step_until_loop_arrives (n : nat) (x address max_steps : Z)
  (cur : user_regs_struct) (s : sys) (count : Z) :
  0 <= count -> count + Z.of_nat n <= INT_MAX ->
  max_steps = -1 \/ count + Z.of_nat n < max_steps ->
  arrives n x address (INSTRUCTION_POINTER cur) (kern s) = true ->
  exists res,
    step_until_loop (S n) x address max_steps cur s count = Some res /\
    sr_ret res = 0 /\ sr_count res = count + Z.of_nat n /\
    INSTRUCTION_POINTER (sr_regs res) = address.
Proof.
  revert cur s count.
  induction n as [|n IH]; intros cur s count Hc Hmax Hms;
    rewrite step_until_loop_S; cbn [arrives];
    (assert (Hkeep : keep_stepping max_steps count = true)
       by (unfold keep_stepping; apply orb_true_iff;
           destruct Hms as [->|Hlt]; [now left|right; apply Z.ltb_lt; lia]));
    rewrite Hkeep;
    cbn [ptrace_singlestep waitpid ptrace_getregs fst snd kern];
    (destruct (fst (sys_getregs x _)) as [r|] eqn:Eg; [|discriminate]).
  - intros H. apply andb_true_iff in H. destruct H as [H0 Ha].
    rewrite H0. cbn [negb]. rewrite Ha.
    eexists. split; [reflexivity|]. cbn [sr_ret sr_count sr_regs].
    apply Z.eqb_eq in Ha. repeat split; [lia|assumption].
  - intros H. apply andb_true_iff in H. destruct H as [H Hrest].
    apply andb_true_iff in H. destruct H as [H Hp].
    apply andb_true_iff in H. destruct H as [H0 Ha].
    rewrite H0. cbn [negb]. apply negb_true_iff in Ha, Hp. rewrite Ha, Hp.
    rewrite int_wrap_small by (unfold INT_MIN, INT_MAX in *; lia).
    match goal with
    | |- context [step_until_loop (S n) x address max_steps r ?s3 (count + 1)]
      => destruct (IH r s3 (count + 1)) as (res & Hrun & Hret & Hcount & Hip)
    end.
    + lia.
    + lia.
    + destruct Hms as [->|Hlt]; [now left|right; lia].
    + exact Hrest.
    + exists res. split; [exact Hrun|].
      repeat split; [assumption|lia|assumption].
Qed.

(** X16.  A thread that gets to the target makes [step_until] return 0.
    When the tracee advances [n] times without reaching the target and
    the next step reaches it, with [n] below the bound or no bound
    ([max_steps = -1]), the call returns 0 after [n + 1] steps; it has
    counted [n] steps, and the cached instruction pointer of the thread
    is the target. *)
Theorem step_until_returns_at_target (n : nat) (x address max_steps : Z)
  (w : world) (t0 : thread) :
  NoDup (map tid (t_HEAD w)) -> In t0 (t_HEAD w) -> tid t0 = x ->
  Z.of_nat n <= INT_MAX ->
  max_steps = -1 \/ Z.of_nat n < max_steps ->
  arrives n x address (INSTRUCTION_POINTER (regs t0))
          (kernel_after_flush (t_HEAD w) (kern (os w))) = true ->
  exists w',
    step_until_run (S n) x address max_steps w = Some (0, Z.of_nat n, w') /\
    step_until (S n) x address max_steps w = Some (0, w') /\
    exists t, In t (t_HEAD w') /\ tid t = x /\
              INSTRUCTION_POINTER (regs t) = address.
Proof.
  intros Hnd Hin Hx Hmax Hms Harr.
  destruct (@step_until_flush_finds _ _ x (t_HEAD w) (os w) t0 Hnd Hin Hx)
    as (i & Hfst & Hnth).
  pose proof (@step_until_flush_sys _ _ x (t_HEAD w) 0%nat None (os w)) as Hsnd.
  unfold step_until, step_until_run.
  destruct (step_until_flush x (t_HEAD w) 0%nat None (os w)) as [st s1].
  cbn [fst snd] in Hfst, Hsnd. subst st s1.
  rewrite <- flush_regs_kern in Harr.
  destruct (@step_until_loop_arrives n x address max_steps (regs t0)
              (flush_regs (t_HEAD w) (os w)) 0)
    as (res & -> & Hret & Hcount & Hip); try assumption; try lia.
  rewrite Hret, Hcount. cbn [Z.add].
  eexists. split; [reflexivity|]. split; [reflexivity|].
  exists (mk_thread (tid t0) (sr_regs res)). cbn [t_HEAD tid regs].
  split; [now apply store_regs_In|]. split; assumption.
Qed.

(** X17.  A SINGLESTEP that fails at the first iteration makes
    [step_until] return -1 at once: after the flush that SINGLESTEP is
    the only call (no wait, no GETREGS), and both tables, with the
    cached registers of the thread, are as before. *)
Theorem step_until_first_step_fails (fuel : nat) (x address max_steps : Z)
  (w : world) (t0 : thread) :
  NoDup (map tid (t_HEAD w)) -> In t0 (t_HEAD w) -> tid t0 = x ->
  max_steps = -1 \/ 0 < max_steps ->
  fst (sys_singlestep x (kernel_after_flush (t_HEAD w) (kern (os w)))) <> 0 ->
  exists w' flush r,
    step_until (S fuel) x address max_steps w = Some (-1, w') /\
    t_HEAD w' = t_HEAD w /\
    b_HEAD w' = b_HEAD w /\
    emits (os w) (os w') (flush ++ [SingleStep x r]) /\
    r <> 0 /\
    Forall (fun e => is_setregs e = true) flush.
Proof.
  intros Hnd Hin Hx Hms Hfail.
  destruct (@step_until_flush_finds _ _ x (t_HEAD w) (os w) t0 Hnd Hin Hx)
    as (i & Hfst & Hnth).
  pose proof (@step_until_flush_sys _ _ x (t_HEAD w) 0%nat None (os w)) as Hsnd.
  unfold step_until, step_until_run.
  destruct (step_until_flush x (t_HEAD w) 0%nat None (os w)) as [st s1].
  cbn [fst snd] in Hfst, Hsnd. subst st s1.
  rewrite <- flush_regs_kern in Hfail.
  cbn [step_until_loop].
  assert (Hkeep : keep_stepping max_steps 0 = true).
  { unfold keep_stepping. apply orb_true_iff.
    destruct Hms as [->|Hpos]; [now left|right; now apply Z.ltb_lt]. }
  rewrite Hkeep.
  pose proof (ptrace_singlestep_emits x (flush_regs (t_HEAD w) (os w))) as H1.
  assert (Hr : fst (ptrace_singlestep x (flush_regs (t_HEAD w) (os w))) <> 0)
    by exact Hfail.
  destruct (ptrace_singlestep x (flush_regs (t_HEAD w) (os w))) as [r s1].
  cbn [fst snd] in H1, Hr.
  apply Z.eqb_neq in Hr as Hr'. rewrite Hr'. cbn [negb].
  cbn [sr_ret sr_count sr_sys sr_regs].
  destruct (flush_regs_emits (t_HEAD w) (os w)) as (flush & Hf & Hfall & _).
  eexists. exists flush, r. split; [reflexivity|]. cbn [t_HEAD b_HEAD os].
  split; [now apply store_regs_same|]. split; [reflexivity|].
  split; [exact (emits_trans Hf H1)|]. split; assumption.
Qed.

(* ------------------------------------------------------------------ *)
(** ** [wait_all_and_update_regs] *)

Lemma stop_others_probe (pid : Z) (ts : list thread) (st : wait_state) :
  exists ev,
    emits (ws_sys st) (ws_sys (snd (stop_others pid ts st))) ev /\
    probe_trace pid (ts_tid (ws_head st)) ts ev.
Proof.
  revert st. induction ts as [|t ts IH]; intros st; cbn [stop_others].
  - exists []. split; [apply emits_refl|constructor].
  - destruct (Z.eqb_spec (tid t) (ts_tid (ws_head st))) as [E|E]; cbn [negb].
    + specialize (IH st). destruct (stop_others pid ts st) as [ts'' st'].
      destruct IH as (ev & Hev & Htr). cbn [snd] in *.
      exists ev. split; [assumption|]. now apply probe_skip.
    + pose proof (ptrace_getregs_emits (tid t) (ws_sys st)) as Hg.
      destruct (ptrace_getregs (tid t) (ws_sys st)) as [res s1].
      cbn [fst snd] in Hg. destruct res as [r|].
      * specialize (IH (mk_wait s1 (ws_temp_status st) (ws_head st)
                                (ws_next st))).
        destruct (stop_others pid ts _) as [ts'' st'].
        destruct IH as (ev & Hev & Htr). cbn [snd ws_sys ws_head] in *.
        exists (GetRegs (tid t) (Some r) :: ev).
        split; [exact (emits_trans Hg Hev)|]. now apply probe_stopped.
      * pose proof (tgkill_emits pid (tid t) SIGSTOP s1) as Hk.
        destruct (tgkill pid (tid t) SIGSTOP s1) as [rk s2].
        cbn [fst snd] in Hk.
        pose proof (waitpid_emits (tid t) 0 s2) as Hw.
        destruct (waitpid (tid t) 0 s2) as [wr s3].
        cbn [fst snd] in Hw.
        match goal with
        | |- context [stop_others pid ts ?st1] => specialize (IH st1)
        end.
        destruct (stop_others pid ts _) as [ts'' st'].
        destruct IH as (ev & Hev & Htr).
        cbn [snd ws_sys ws_head ts_tid] in *.
        exists (GetRegs (tid t) None :: Tgkill pid (tid t) SIGSTOP rk
                :: Waitpid (tid t) 0 (fst wr) (snd wr) :: ev).
        split; [exact (emits_trans Hg (emits_trans Hk (emits_trans Hw Hev)))|].
        now apply probe_signalled.
Qed.

Lemma update_regs_refreshes (ts : list thread) (s : sys) :
  exists ev,
    emits s (snd (update_regs ts s)) ev /\
    Forall2 refreshed_by (fst (update_regs ts s)) ev.
Proof.
  revert s. induction ts as [|t ts IH]; intros s; cbn [update_regs].
  - exists []. split; [apply emits_refl|constructor].
  - pose proof (ptrace_getregs_emits (tid t) s) as Hg.
    destruct (ptrace_getregs (tid t) s) as [res s1]. cbn [fst snd] in Hg.
    specialize (IH s1). destruct (update_regs ts s1) as [ts'' s2].
    destruct IH as (ev & Hev & Hall). cbn [fst snd] in *.
    exists (GetRegs (tid t) res :: ev).
    split; [exact (emits_trans Hg Hev)|].
    constructor; [|assumption].
    exists res. rewrite refreshed_tid. split; [reflexivity|].
    intros r ->. reflexivity.
Qed.

(** The run of a call that returns a list, with the structure of the
    probes and of the final register refresh. *)
Lemma wait_all_structure (h0 t0 : Z) (fuel : nat) (pid : Z) (w w' : world)
  (l : list thread_status) :
  wait_all_and_update_regs h0 t0 fuel pid w = Some (Some l, w') ->
  exists r st probe polls refresh restore,
    emits (os w) (os w')
          (Waitpid (-1) __WALL r st :: probe ++ polls ++ refresh ++ restore) /\
    probe_trace pid r (t_HEAD w) probe /\
    Forall (fun e => is_waitpid e = true) polls /\
    Forall2 refreshed_by (t_HEAD w') refresh /\
    Forall (fun e => is_poke e = true) restore.
Proof.
  unfold wait_all_and_update_regs.
  pose proof (waitpid_emits (-1) __WALL (os w)) as Hw.
  destruct (waitpid (-1) __WALL (os w)) as [wr s1]. cbn [fst snd] in Hw.
  cbn [ts_tid].
  destruct (fst wr =? -1); [discriminate|].
  match goal with
  | |- context [stop_others pid (t_HEAD w) ?st0] =>
      destruct (stop_others_probe pid (t_HEAD w) st0) as (probe & Hprobe & Htr);
      destruct (stop_others pid (t_HEAD w) st0) as [ts1 st1]
  end.
  cbn [fst snd ws_sys ws_head ts_tid] in *.
  destruct (drain fuel st1) as [st2|] eqn:Ed; [|discriminate].
  apply drain_spec in Ed.
  destruct Ed as (drained & dry & Hdrain & Hdall & Hdry & _).
  destruct (update_regs_refreshes ts1 (ws_sys st2)) as (refresh & Hre & Hall).
  destruct (update_regs ts1 (ws_sys st2)) as [ts2 s2]. cbn [fst snd] in *.
  destruct (restore_breakpoints_spec pid (b_HEAD w) s2)
    as (restore & Hrs & Hrsall & _).
  intros [= _ <-]. cbn [os t_HEAD].
  exists (fst wr), (snd wr), probe, (drained ++ [dry]), refresh, restore.
  split; [|split; [|split; [|split]]]; try assumption.
  - exact (emits_trans Hw (emits_trans Hprobe
             (emits_trans Hdrain (emits_trans Hre Hrs)))).
  - apply Forall_app. split.
    + eapply Forall_impl; [|exact Hdall]. intros e He. now destruct e.
    + constructor; [now destruct dry|constructor].
Qed.

(** X18.  The register cache after a stop.  When the first wait
    succeeds and the non-blocking polls run dry within the fuel,
    [wait_all_and_update_regs] returns a list; after its last wait it
    issues one GETREGS per thread of the table, in table order, and the
    cached registers of every thread whose GETREGS succeeded are the
    ones that call returned.  The thread table keeps its tids and their
    order, and the breakpoint table is as before. *)
Theorem wait_all_refreshes_registers (h0 t0 : Z) (fuel : nat) (pid : Z)
  (w : world) :
  fst (fst (sys_waitpid (-1) __WALL (kern (os w)))) <> -1 ->
  polls_dry fuel (kernel_at_drain h0 t0 pid w) = true ->
  exists l w' before refresh restore,
    wait_all_and_update_regs h0 t0 fuel pid w = Some (Some l, w') /\
    emits (os w) (os w') (before ++ refresh ++ restore) /\
    Forall2 refreshed_by (t_HEAD w') refresh /\
    Forall (fun e => is_poke e = true) restore /\
    map tid (t_HEAD w') = map tid (t_HEAD w) /\
    b_HEAD w' = b_HEAD w.
Proof.
  intros Hok Hdry.
  destruct (@wait_all_returns _ _ h0 t0 fuel pid w Hok Hdry)
    as (l & w' & Hrun).
  destruct (wait_all_structure _ _ _ _ _ Hrun)
    as (r & st & probe & polls & refresh & restore
        & Hev & _ & _ & Hre & Hrs).
  apply wait_all_phases in Hrun as Hph.
  destruct Hph as (_ & _ & _ & _ & _ & _ & _ & _ & _ & _ & _ & _ & _ & _
                   & _ & _ & Htid & Hb).
  exists l, w', (Waitpid (-1) __WALL r st :: probe ++ polls), refresh, restore.
  split; [exact Hrun|]. split.
  - cbn [app]. rewrite <- app_assoc. exact Hev.
  - repeat split; assumption.
Qed.

(** X19.  Whom [wait_all_and_update_regs] signals.  In a call that
    returns a list, the calls between the first wait and the polls go
    through the thread table in order: a thread whose tid is the one
    returned by the latest wait so far is passed over; any other thread
    gets a GETREGS, and only when that GETREGS fails a SIGSTOP, sent
    with [tgkill] to that pid and tid, followed by a blocking wait for
    that tid.  No other signal is sent in the call. *)
Theorem wait_all_signals_running_threads_only (h0 t0 : Z) (fuel : nat)
  (pid : Z) (w : world) :
  fst (fst (sys_waitpid (-1) __WALL (kern (os w)))) <> -1 ->
  polls_dry fuel (kernel_at_drain h0 t0 pid w) = true ->
  exists l w' r st probe rest,
    wait_all_and_update_regs h0 t0 fuel pid w = Some (Some l, w') /\
    emits (os w) (os w') (Waitpid (-1) __WALL r st :: probe ++ rest) /\
    probe_trace pid r (t_HEAD w) probe /\
    Forall (fun e => is_tgkill e = false) rest.
Proof.
  intros Hok Hdry.
  destruct (@wait_all_returns _ _ h0 t0 fuel pid w Hok Hdry)
    as (l & w' & Hrun).
  destruct (wait_all_structure _ _ _ _ _ Hrun)
    as (r & st & probe & polls & refresh & restore
        & Hev & Htr & Hpolls & Hre & Hrs).
  exists l, w', r, st, probe, (polls ++ refresh ++ restore).
  split; [exact Hrun|]. split; [exact Hev|]. split; [exact Htr|].
  apply Forall_app. split; [|apply Forall_app; split].
  - eapply Forall_impl; [|exact Hpolls]. intros e He. now destruct e.
  - clear - Hre. induction Hre as [|t e ts ev (res & -> & _) _ IH];
      constructor; [reflexivity|assumption].
  - eapply Forall_impl; [|exact Hrs]. intros e He. now destruct e.
Qed.

(* ------------------------------------------------------------------ *)
(** ** What every call of the interface keeps *)

Lemma wait_all_tids (h0 t0 : Z) (fuel : nat) (pid : Z) (w w' : world)
  (l : option (list thread_status)) :
  wait_all_and_update_regs h0 t0 fuel pid w = Some (l, w') ->
  map tid (t_HEAD w') = map tid (t_HEAD w).
Proof.
  destruct l as [l|].
  - intros Hrun. apply wait_all_phases in Hrun.
    destruct Hrun as (_ & _ & _ & _ & _ & _ & _ & _ & _ & _ & _ & _ & _ & _
                      & _ & _ & Htid & _).
    exact Htid.
  - unfold wait_all_and_update_regs.
    destruct (waitpid (-1) __WALL (os w)) as [wr s1]. cbn [ts_tid].
    destruct (fst wr =? -1).
    + now intros [= <-].
    + destruct (stop_others pid (t_HEAD w) _) as [ts1 st1].
      destruct (drain fuel st1) as [st2|]; [|discriminate].
      destruct (update_regs ts1 (ws_sys st2)). discriminate.
Qed.

Section Kept.

Variable word_at : kstate -> Z -> Z.
Variable code : Z -> Prop.
Hypothesis store : word_store word_at code.

Lemma bp_table_ok_transfer (w w' : world) :
  b_HEAD w' = b_HEAD w ->
  (forall a, code a -> word_at (kern (os w')) a = word_at (kern (os w)) a) ->
  bp_table_ok word_at code w -> bp_table_ok word_at code w'.
Proof.
  intros Hb Hmem (Hnd & Hcode & Hdis). unfold bp_table_ok. rewrite Hb.
  split; [assumption|]. split; [assumption|].
  intros b Hin Hd. rewrite Hmem by now apply Hcode. now apply Hdis.
Qed.

Lemma step_until_loop_quiet (fuel : nat) (x address max_steps : Z)
  (cur : user_regs_struct) (s : sys) (count : Z) (res : step_result)
  (a : Z) :
  code a ->
  step_until_loop fuel x address max_steps cur s count = Some res ->
  word_at (kern (sr_sys res)) a = word_at (kern s) a.
Proof.
  intros Ha. revert cur s count.
  induction fuel as [|fuel IH]; intros cur s count; cbn [step_until_loop];
    (destruct (keep_stepping max_steps count);
     [|now intros [= <-]]).
  - discriminate.
  - cbn [ptrace_singlestep waitpid ptrace_getregs fst snd].
    destruct (negb (fst (sys_singlestep x (kern s)) =? 0)).
    + intros [= <-]. cbn [sr_sys kern]. now apply (singlestep_quiet store).
    + assert (Hthree :
        word_at (snd (sys_getregs x (snd (sys_waitpid x 0
                   (snd (sys_singlestep x (kern s))))))) a
        = word_at (kern s) a).
      { now rewrite (getregs_quiet store), (waitpid_quiet store),
          (singlestep_quiet store). }
      match goal with
      | |- context [if INSTRUCTION_POINTER ?c =? address then _ else _] =>
          set (cur' := c)
      end.
      destruct (INSTRUCTION_POINTER cur' =? address).
      * intros [= <-]. cbn [sr_sys kern]. exact Hthree.
      * destruct (INSTRUCTION_POINTER cur' =? INSTRUCTION_POINTER cur);
          intros Hrun; apply IH in Hrun; cbn [kern] in Hrun;
          now rewrite Hrun.
Qed.

Lemma step_until_keeps (fuel : nat) (x address max_steps : Z) (w w' : world)
  (ret : Z) :
  step_until fuel x address max_steps w = Some (ret, w') ->
  b_HEAD w' = b_HEAD w /\
  map tid (t_HEAD w') = map tid (t_HEAD w) /\
  (forall a, code a -> word_at (kern (os w')) a = word_at (kern (os w)) a).
Proof.
  unfold step_until, step_until_run.
  pose proof (@step_until_flush_sys _ _ x (t_HEAD w) 0%nat None (os w)) as Hsnd.
  destruct (step_until_flush x (t_HEAD w) 0%nat None (os w)) as [st s1].
  cbn [snd] in Hsnd. subst s1.
  destruct st as [[i t]|].
  - destruct (step_until_loop fuel x address max_steps (regs t)
                (flush_regs (t_HEAD w) (os w)) 0) as [res|] eqn:Eloop;
      [|discriminate].
    intros [= _ <-]. cbn [b_HEAD t_HEAD os].
    split; [reflexivity|]. split; [apply store_regs_tids|].
    intros a Ha.
    rewrite (@step_until_loop_quiet fuel x address max_steps (regs t)
               (flush_regs (t_HEAD w) (os w)) 0 res a Ha Eloop).
    now apply (@flush_regs_quiet _ _ word_at code store).
  - intros [= _ <-]. cbn [b_HEAD t_HEAD os].
    split; [reflexivity|]. split; [reflexivity|].
    intros a Ha. now apply (@flush_regs_quiet _ _ word_at code store).
Qed.

(** X20.  The invariants of the two tables hold across the whole
    interface.  On a memory that behaves as a store of words, let the
    tids of the thread table be distinct, the breakpoint table hold one
    record per address, and the patched word be in memory under every
    disabled record.  Then the same is true after any sequence of calls
    of [register_thread], [unregister_thread], [free_thread_list],
    [register_breakpoint] (at addresses of [code]),
    [unregister_breakpoint], [disable_breakpoint], [free_breakpoints],
    [singlestep], [step_until], [cont_all_and_set_bps] and
    [wait_all_and_update_regs] that returns. *)
Theorem interface_keeps_tables (cs : list api_call) (w w' : world) :
  Forall (installs_in code) cs ->
  NoDup (map tid (t_HEAD w)) ->
  bp_table_ok word_at code w ->
  run_api cs w = Some w' ->
  NoDup (map tid (t_HEAD w')) /\ bp_table_ok word_at code w'.
Proof.
  intros Hcs. revert w.
  induction Hcs as [|c cs Hc _ IH]; intros w Hnd Hok; cbn [run_api].
  - intros [= <-]. split; assumption.
  - destruct (run_api_call c w) as [w1|] eqn:Ecall; [|discriminate].
    intros Hrun. apply (IH w1); [| |exact Hrun].
    + destruct c; cbn [run_api_call] in Ecall.
      * injection Ecall as <-. now apply register_thread_nodup.
      * injection Ecall as <-. now apply unlink_thread_nodup.
      * injection Ecall as <-. constructor.
      * injection Ecall as <-. now rewrite register_breakpoint_threads.
      * injection Ecall as <-. exact Hnd.
      * injection Ecall as <-. unfold disable_breakpoint.
        now destruct (disable_search pid a (b_HEAD w) (os w)).
      * injection Ecall as <-. exact Hnd.
      * injection Ecall as <-. exact Hnd.
      * destruct (step_until fuel x address max_steps w) as [[ret w2]|] eqn:Es;
          [|discriminate].
        injection Ecall as <-.
        destruct (@step_until_keeps fuel x address max_steps w w2 ret Es)
          as (_ & Htid & _).
        now rewrite Htid.
      * injection Ecall as <-. unfold cont_all_and_set_bps.
        now destruct (step_off _ _ _ _) as [s2 [status|]].
      * destruct (wait_all_and_update_regs head_status0 temp_status0 fuel
                    pid w) as [[l w2]|] eqn:Ew; [|discriminate].
        injection Ecall as <-.
        now rewrite (@wait_all_tids head_status0 temp_status0 fuel pid w w2 l
                       Ew).
    + destruct c; cbn [run_api_call installs_in] in Ecall, Hc.
      * injection Ecall as <-.
        apply (@bp_table_ok_transfer w); [| |exact Hok].
        -- unfold register_thread.
           destruct (existsb (has_tid x) (t_HEAD w)); [reflexivity|].
           now destruct (ptrace_getregs x (os w)).
        -- intros a Ha. unfold register_thread.
           destruct (existsb (has_tid x) (t_HEAD w)); [reflexivity|].
           cbn [ptrace_getregs os kern]. now apply (getregs_quiet store).
      * injection Ecall as <-. exact Hok.
      * injection Ecall as <-. exact Hok.
      * injection Ecall as <-.
        now apply (@register_breakpoint_keeps_ok _ _ word_at code store).
      * injection Ecall as <-. destruct Hok as (Hbnd & Hcode & Hdis).
        unfold bp_table_ok, unregister_breakpoint. cbn [b_HEAD os].
        split; [now apply unlink_breakpoint_nodup|]. split.
        -- intros b Hin. apply Hcode. eapply unlink_breakpoint_sub; eassumption.
        -- intros b Hin. apply Hdis. eapply unlink_breakpoint_sub; eassumption.
      * injection Ecall as <-.
        now apply (@disable_breakpoint_keeps_ok _ _ word_at code store).
      * injection Ecall as <-. unfold bp_table_ok, free_breakpoints.
        cbn [b_HEAD]. split; [constructor|]. split; intros b [].
      * injection Ecall as <-.
        apply (@bp_table_ok_transfer w); [reflexivity| |exact Hok].
        intros a Ha. cbn [os kern].
        rewrite (singlestep_quiet store) by assumption.
        now apply (@flush_regs_quiet _ _ word_at code store).
      * destruct (step_until fuel x address max_steps w) as [[ret w2]|] eqn:Es;
          [|discriminate].
        injection Ecall as <-.
        destruct (@step_until_keeps fuel x address max_steps w w2 ret Es)
          as (Hb & _ & Hmem).
        now apply (@bp_table_ok_transfer w).
      * injection Ecall as <-.
        now apply (@cont_all_keeps_ok _ _ word_at code store).
      * destruct (wait_all_and_update_regs head_status0 temp_status0 fuel
                    pid w) as [[l w2]|] eqn:Ew; [|discriminate].
        injection Ecall as <-.
        exact (@wait_all_keeps_ok _ _ word_at code head_status0 temp_status0
                 fuel pid w w2 l store Hok Ew).
Qed.

End Kept.

End Interface.

(* ================================================================== *)
(** * The further properties at work on the mock *)

Section InterfaceOnTheMock.
Import Mock Scenario.

(** Running the mock: replace a closed term by its value. *)
Ltac evaluate t :=
  let v := eval vm_compute in t in change t with v in *.

Lemma register_thread_keeps_table_witness :
  let w := attached 0xE0 [] [] in
  let w' := register_thread (mk_regs64 0 0) 8 w in
  NoDup (map tid (t_HEAD w')) /\
  (exists t, In t (t_HEAD w') /\ tid t = 8) /\
  (forall t, In t (t_HEAD w) -> In t (t_HEAD w')) /\
  b_HEAD w' = b_HEAD w /\
  ((exists t, In t (t_HEAD w) /\ tid t = 8) /\ w' = w \/
   (forall t, In t (t_HEAD w) -> tid t <> 8) /\
   emits (os w) (os w') [GetRegs 8 (fst (sys_getregs 8 (kern (os w))))]).
Proof.
  apply (@register_thread_keeps_table x86_64 mock_kernel (mk_regs64 0 0) 8
           (attached 0xE0 [] [])).
  cbn. constructor; [intros []|constructor].
Defined.

Lemma unregister_thread_removes_witness :
  let w := attached 0xE0 [] [] in
  let w' := unregister_thread T w in
  (forall t, In t (t_HEAD w') <-> In t (t_HEAD w) /\ tid t <> T) /\
  NoDup (map tid (t_HEAD w')) /\
  os w' = os w /\
  b_HEAD w' = b_HEAD w /\
  ((forall t, In t (t_HEAD w) -> tid t <> T) -> t_HEAD w' = t_HEAD w).
Proof.
  apply (@unregister_thread_removes x86_64 mock_kernel T
           (attached 0xE0 [] [])).
  cbn. constructor; [intros []|constructor].
Defined.

Lemma register_then_unregister_thread_witness :
  let w := attached 0xE0 [] [] in
  let w' := unregister_thread 8 (register_thread (mk_regs64 0 0) 8 w) in
  t_HEAD w' = t_HEAD w /\
  b_HEAD w' = b_HEAD w /\
  emits (os w) (os w') [GetRegs 8 (fst (sys_getregs 8 (kern (os w))))].
Proof.
  apply (@register_then_unregister_thread x86_64 mock_kernel (mk_regs64 0 0)
           8 (attached 0xE0 [] [])).
  intros t [<-|[]]. cbn. discriminate.
Defined.

Lemma unregister_breakpoint_removes_witness :
  let w := installed 0x400100 [] [] in
  let w' := unregister_breakpoint X w in
  (forall b, In b (b_HEAD w') <-> In b (b_HEAD w) /\ addr b <> X) /\
  NoDup (map addr (b_HEAD w')) /\
  os w' = os w /\
  t_HEAD w' = t_HEAD w /\
  (records_at X (b_HEAD w) = [] -> b_HEAD w' = b_HEAD w).
Proof.
  apply (@unregister_breakpoint_removes x86_64 mock_kernel X
           (installed 0x400100 [] [])).
  cbn. constructor; [intros []|constructor].
Defined.

Lemma register_then_unregister_breakpoint_witness :
  let w := attached 0x400100 [] [] in
  let w' := unregister_breakpoint X (register_breakpoint pid X w) in
  b_HEAD w' = b_HEAD w /\
  t_HEAD w' = t_HEAD w /\
  (exists ret,
     emits (os w) (os w')
           [PeekData pid X 0x1122334455667788;
            PokeData pid X 0x11223344556677CC ret]) /\
  (forall word_at code,
     word_store word_at code -> code X ->
     word_at (kern (os w')) X = 0x11223344556677CC).
Proof.
  exact (@register_then_unregister_breakpoint x86_64 mock_kernel pid X
           (attached 0x400100 [] []) eq_refl).
Defined.

Lemma disable_breakpoint_absent_witness :
  disable_breakpoint pid X (attached 0x400100 [] [])
  = attached 0x400100 [] [].
Proof.
  exact (@disable_breakpoint_absent x86_64 mock_kernel pid X
           (attached 0x400100 [] []) eq_refl).
Defined.

Lemma disable_then_register_breakpoint_witness :
  let w := installed 0x400100 [] [] in
  let w' := register_breakpoint pid X (disable_breakpoint pid X w) in
  b_HEAD w' = [mk_bp X 0x1122334455667788 0x11223344556677CC true] /\
  (true = true -> b_HEAD w' = b_HEAD w).
Proof.
  exact (@disable_then_register_breakpoint x86_64 mock_kernel pid pid X
           (installed 0x400100 [] []) [] []
           (mk_bp X 0x1122334455667788 0x11223344556677CC true)
           eq_refl eq_refl eq_refl).
Defined.

Lemma register_breakpoint_always_records_witness :
  b_HEAD (register_breakpoint pid X unreadable)
  = [mk_bp X 0xFFFFFFFFFFFFFFFF 0xFFFFFFFFFFFFFFCC true].
Proof.
  exact (proj2 (@register_breakpoint_always_records x86_64 mock_kernel pid X
                  unreadable) eq_refl eq_refl).
Defined.

Lemma cont_all_without_step_off_witness :
  let w := installed 0x400100 [] [] in
  fst (cont_all_and_set_bps pid w) = 0 /\
  exists flush arm go,
    emits (os w) (os (snd (cont_all_and_set_bps pid w)))
          (flush ++ arm ++ go) /\
    Forall (fun e => is_setregs e = true) flush /\
    setregs_calls flush = t_HEAD w /\
    Forall (fun e => is_poke e = true) arm /\
    pokes arm = arming_writes pid (b_HEAD w) /\
    Forall (fun e => is_cont e = true) go /\
    conts go = map tid (t_HEAD w) /\
    (b_HEAD w = [] -> arm = []).
Proof.
  apply (@cont_all_without_step_off x86_64 mock_kernel pid
           (installed 0x400100 [] [])).
  intros t [<-|[]]. reflexivity.
Defined.

Lemma memory_in_flight_witness :
  let w := installed 0x400100 [] [] in
  let w' := snd (cont_all_and_set_bps pid w) in
  bp_table_ok mock_word_at (fun _ => True) w' /\
  ((fst (cont_all_and_set_bps pid w) = -1 /\
    forall a, True ->
      mock_word_at (kern (os w')) a = mock_word_at (kern (os w)) a) \/
   (forall b, In b (b_HEAD w) -> enabled b = true ->
      mock_word_at (kern (os w')) (addr b) = patched_instruction b)).
Proof.
  apply (@memory_in_flight x86_64 mock_kernel mock_word_at (fun _ => True)
           pid (installed 0x400100 [] []) mock_word_store).
  evaluate (installed 0x400100 [] []).
  split; [|split].
  - cbn. constructor; [intros []|constructor].
  - intros b _. exact I.
  - intros b [<-|[]] Hd. discriminate Hd.
Defined.

Lemma step_until_drives_only_target_witness :
  let w := attached 0xE0 [] [] in
  match step_until 5 T 0x4000F0 5 w with
  | Some (ret, w') =>
      (ret = 0 \/ ret = -1) /\
      b_HEAD w' = b_HEAD w /\
      map tid (t_HEAD w') = map tid (t_HEAD w) /\
      (forall t, In t (t_HEAD w) -> tid t <> T -> In t (t_HEAD w')) /\
      exists flush ev,
        emits (os w) (os w') (flush ++ ev) /\
        Forall (fun e => is_setregs e = true) flush /\
        setregs_calls flush = t_HEAD w /\
        Forall (fun e => drives T e = true) ev
  | None => False
  end.
Proof.
  cbn zeta.
  destruct (step_until 5 T 0x4000F0 5 (attached 0xE0 [] []))
    as [[ret w']|] eqn:E.
  - exact (@step_until_drives_only_target x86_64 mock_kernel 5 T 0x4000F0 5
             (attached 0xE0 [] []) w' ret E).
  - evaluate (step_until 5 T 0x4000F0 5 (attached 0xE0 [] [])).
    discriminate E.
Defined.

(** Scenario for X15: three steps that leave the instruction pointer
    where it is, with a bound of one step. *)
Lemma step_until_hangs_on_stuck_thread_witness :
  step_until 3 T 0x4000F0 1 (attached 0xE0 [0; 0; 0] []) = None.
Proof.
  apply (@step_until_hangs_on_stuck_thread x86_64 mock_kernel 3 T 0x4000F0 1
           (attached 0xE0 [0; 0; 0] []) (@mk_thread x86_64 T (mk_regs64 0xE0 0))).
  - cbn. constructor; [intros []|constructor].
  - now left.
  - reflexivity.
  - right. reflexivity.
  - vm_compute. reflexivity.
Defined.

(** Scenario for X16: the second step reaches the target. *)
Lemma step_until_returns_at_target_witness :
  exists w',
    step_until_run 2 T 0xE4 (-1) (attached 0xE0 [] []) = Some (0, 1, w') /\
    step_until 2 T 0xE4 (-1) (attached 0xE0 [] []) = Some (0, w') /\
    exists t, In t (t_HEAD w') /\ tid t = T /\
              INSTRUCTION_POINTER (regs t) = 0xE4.
Proof.
  apply (@step_until_returns_at_target x86_64 mock_kernel 1 T 0xE4 (-1)
           (attached 0xE0 [] []) (@mk_thread x86_64 T (mk_regs64 0xE0 0))).
  - cbn. constructor; [intros []|constructor].
  - now left.
  - reflexivity.
  - discriminate.
  - now left.
  - vm_compute. reflexivity.
Defined.

Lemma step_until_first_step_fails_witness :
  exists w' flush r,
    step_until 3 T 0x4000F0 5 gone_thread = Some (-1, w') /\
    t_HEAD w' = t_HEAD gone_thread /\
    b_HEAD w' = b_HEAD gone_thread /\
    emits (os gone_thread) (os w') (flush ++ [SingleStep T r]) /\
    r <> 0 /\
    Forall (fun e => is_setregs e = true) flush.
Proof.
  apply (@step_until_first_step_fails x86_64 mock_kernel 2 T 0x4000F0 5
           gone_thread (@mk_thread x86_64 T (mk_regs64 0xE0 0))).
  - cbn. constructor; [intros []|constructor].
  - now left.
  - reflexivity.
  - right. reflexivity.
  - vm_compute. discriminate.
Defined.

Lemma wait_all_refreshes_registers_witness :
  exists l w' before refresh restore,
    wait_all_and_update_regs 0 0 3 pid three_threads = Some (Some l, w') /\
    emits (os three_threads) (os w') (before ++ refresh ++ restore) /\
    Forall2 refreshed_by (t_HEAD w') refresh /\
    Forall (fun e => is_poke e = true) restore /\
    map tid (t_HEAD w') = map tid (t_HEAD three_threads) /\
    b_HEAD w' = b_HEAD three_threads.
Proof.
  apply (@wait_all_refreshes_registers x86_64 mock_kernel 0 0 3%nat pid
           three_threads).
  - vm_compute. discriminate.
  - vm_compute. reflexivity.
Defined.

Lemma wait_all_signals_running_threads_only_witness :
  exists l w' r st probe rest,
    wait_all_and_update_regs 0 0 3 pid three_threads = Some (Some l, w') /\
    emits (os three_threads) (os w')
          (Waitpid (-1) __WALL r st :: probe ++ rest) /\
    probe_trace pid r (t_HEAD three_threads) probe /\
    Forall (fun e => is_tgkill e = false) rest.
Proof.
  apply (@wait_all_signals_running_threads_only x86_64 mock_kernel 0 0 3%nat
           pid three_threads).
  - vm_compute. discriminate.
  - vm_compute. reflexivity.
Defined.

Lemma interface_keeps_tables_witness :
  match run_api session (attached 0x400100 [] [(T, Some STOPPED_BY_SIGTRAP)])
  with
  | Some w' =>
      NoDup (map tid (t_HEAD w')) /\
      bp_table_ok mock_word_at (fun _ => True) w'
  | None => False
  end.
Proof.
  destruct (run_api session
              (attached 0x400100 [] [(T, Some STOPPED_BY_SIGTRAP)]))
    as [w'|] eqn:E.
  - apply (@interface_keeps_tables x86_64 mock_kernel mock_word_at
             (fun _ => True) mock_word_store session
             (attached 0x400100 [] [(T, Some STOPPED_BY_SIGTRAP)]) w');
      [| | |exact E].
    + unfold session. repeat constructor.
    + cbn. constructor; [intros []|constructor].
    + split; [|split].
      * constructor.
      * intros b [].
      * intros b [].
  - evaluate (run_api session
                (attached 0x400100 [] [(T, Some STOPPED_BY_SIGTRAP)])).
    discriminate E.
Defined.

End InterfaceOnTheMock.
